(** * The environment-update engine of gravity (package [fsm])

    A shallow embedding of [lib/environ/fsm]: the per-operation engine
    that adapts the generic plan-execution state machine to the
    "update cluster environment variables" operation, together with the
    retrying wrapper it puts around the cluster operator. *)

From Stdlib Require Import List String Ascii NArith ZArith Bool Lia.
From Stdlib Require Import Decimal DecimalString DecimalZ.
From Equations Require Import Equations.
Import ListNotations.

Set Warnings "-register-all".

Local Open Scope string_scope.
Local Open Scope N_scope.

(** ** Errors

    Go's [error] is a nullable interface: [option error] with [None] for
    [nil].  Three dynamic types matter to this package: plain errors
    raised by callees, the [trace] wrapper and [backoff.PermanentError]. *)

Inductive ErrorClass : Type :=
| ConnectionRefused
| BadParameterError
| NotFoundError
| OtherError.

Inductive error : Type :=
| RawErr (class : ErrorClass) (msg : string)
| TraceErr (Err : error)
| PermanentError (Err : error).

(** [trace.Unwrap]: the original error below the trace wrappers. *)
Fixpoint trace_Unwrap (e : error) : error :=
  match e with
  | TraceErr e' => trace_Unwrap e'
  | _ => e
  end.

(** [trace.Wrap]: [nil] stays [nil], a trace error is kept, anything else
    gets a trace wrapper. *)
Definition trace_Wrap (err : option error) : option error :=
  match err with
  | None => None
  | Some (TraceErr e) => Some (TraceErr e)
  | Some e => Some (TraceErr e)
  end.

(** The [Error()] method. *)
Fixpoint Error (e : error) : string :=
  match e with
  | RawErr _ msg => msg
  | TraceErr e' => Error e'
  | PermanentError e' => Error e'
  end.

Definition trace_BadParameter (msg : string) : error :=
  TraceErr (RawErr BadParameterError msg).

Definition trace_NotFound (msg : string) : error :=
  TraceErr (RawErr NotFoundError msg).

Definition trace_IsBadParameter (e : error) : bool :=
  match trace_Unwrap e with
  | RawErr BadParameterError _ => true
  | _ => false
  end.

(** Modelled from the spec: [utils.IsConnectionRefusedError] (package
    [lib/utils]) is not among the sources.  The spec calls it the
    "connection refused" transient-transport signature of an error; it is
    read off the original error below the trace wrappers. *)
Definition IsConnectionRefusedError (e : error) : bool :=
  match trace_Unwrap e with
  | RawErr ConnectionRefused _ => true
  | _ => false
  end.

(** ** Time

    Instants and durations are counted in nanoseconds, as [time.Duration]
    does. *)

Definition Time := N.
Definition Duration := N.

Definition Second : Duration := 1000000000.
Definition Minute : Duration := 60 * Second.

Definition maxRetryElapsedTime : Duration := 5 * Minute.

(** [context.WithTimeout(context.Background(), d)] taken at instant [now]:
    the only way such a context gets done is its deadline. *)
Record Context : Type := { Deadline : Time }.

Definition context_WithTimeout (now : Time) (d : Duration) : Context :=
  {| Deadline := now + d |}.

Definition N_lt_dec (a b : N) : {a < b} + {b <= a}.
Proof.
  destruct (a <? b) eqn:E.
  - left. apply N.ltb_lt. exact E.
  - right. apply N.ltb_ge. exact E.
Defined.

(** A backoff policy that never gives up by itself: the wait before the
    retry number [n].  The exponential schedule is randomized, so the
    values are the environment's; a wait is never empty. *)
Definition BackOff := nat -> positive.

(** A Go closure [func() error] over captured state [S].  A call sees the
    current instant, takes some time and may change the captured state. *)
Definition Func (S : Type) := Time -> S -> option error * Duration * S.

Section Retry.
Context {S : Type}.

(** Modelled from the spec: [utils.RetryWithInterval] (package
    [lib/utils], over [backoff.RetryNotify]) is not among the sources.
    The spec describes an unbounded-attempt backoff loop that stops at
    once on a permanent error, is bounded by the context's deadline and
    is cancelled through the context while it waits; transient errors
    are retried "up to the ceiling, then surfaced".

    One turn calls [fn].  Success ends the loop, and so does a
    [PermanentError], whose inner error is returned.  Any other error is
    followed by the wait [b n]: when the wait ends before the deadline
    the loop goes on with attempt [n + 1]; otherwise the error is
    returned, at the deadline if the call ended before it.  A call in
    flight is never interrupted. *)
Equations? RetryLoop (ctx : Context) (b : BackOff) (fn : Func S)
           (n : nat) (now : Time) (s : S) : option error * Time * S
  by wf (N.to_nat (Deadline ctx - now)) lt :=
  RetryLoop ctx b fn n now s with fn now s => {
    | (None, d, s') := (None, now + d, s');
    | (Some (PermanentError e), d, s') := (Some e, now + d, s');
    | (Some e, d, s') with N_lt_dec (now + d + Npos (b n)) (Deadline ctx) => {
        | left _ := RetryLoop ctx b fn (Datatypes.S n) (now + d + Npos (b n)) s';
        | right _ := (Some e, N.max (now + d) (Deadline ctx), s') } }.
Proof. all: lia. Qed.

Definition RetryWithInterval (ctx : Context) (b : BackOff) (fn : Func S)
  : Time -> S -> option error * Time * S :=
  fun now s =>
    let '(err, now', s') := RetryLoop ctx b fn 0%nat now s in
    (trace_Wrap err, now', s').

(** The closure that [retry] hands to the backoff loop, lines
    340-349. *)
Definition classified (fn : Func S) : Func S :=
  fun now s =>
    let '(err, d, s') := fn now s in
    match err with
    | None => (None, d, s')
    | Some e =>
        if IsConnectionRefusedError e
        then (trace_Wrap (Some e), d, s')
        else (Some (PermanentError e), d, s')
    end.

Variable NewUnlimitedExponentialBackOff : BackOff.

(** [retry], lines 336-350. *)
Definition retry (fn : Func S) : Time -> S -> option error * Time * S :=
  fun now s =>
    let ctx := context_WithTimeout now maxRetryElapsedTime in
    let b := NewUnlimitedExponentialBackOff in
    let '(err, now', s') := RetryWithInterval ctx b (classified fn) now s in
    (trace_Wrap err, now', s').

(** A run of transient failures: from attempt [n] at instant [now] in
    state [s], every call up to attempt [m] fails with a connection
    refused error and is followed by its wait; attempt [m] is due at
    instant [now'] in state [s']. *)
Inductive transientRun (b : BackOff) (fn : Func S)
  : nat -> Time -> S -> nat -> Time -> S -> Prop :=
| run_here n now s : transientRun b fn n now s n now s
| run_step n now s e d s1 m now' s' :
    fn now s = (Some e, d, s1) ->
    IsConnectionRefusedError e = true ->
    transientRun b fn (Datatypes.S n) (now + d + Npos (b n)) s1 m now' s' ->
    transientRun b fn n now s m now' s'.
End Retry.

Arguments retry {S} NewUnlimitedExponentialBackOff fn now s.
Arguments classified {S} fn now s.

(** ** Data model (packages [storage], [ops] and [lib/fsm])

    The declarations of these packages are not among the sources; the
    records list the fields this package reads or writes. *)

Local Open Scope Z_scope.

(** Go's [int] is a 64-bit two's complement integer. *)
Definition int := Z.
Definition int_wrap (z : Z) : int :=
  (z + 2 ^ 63) mod 2 ^ 64 - 2 ^ 63.
Definition int_mul (a b : int) : int := int_wrap (a * b).
Definition int_div (a b : int) : int := int_wrap (Z.quot a b).
Definition len {A : Type} (l : list A) : int := Z.of_nat (List.length l).

(** Modelled from the spec: [utils.Max] (package [lib/utils]) is not
    among the sources; the spec writes it [max]. *)
Definition utils_Max (a b : int) : int := if a <? b then b else a.

Record SiteOperationKey : Type := {
  key_AccountID : string;
  key_SiteDomain : string;
  key_OperationID : string
}.

Record SiteOperation : Type := {
  op_ID : string;
  op_AccountID : string;
  op_SiteDomain : string
}.

(** The [Key] method of [ops.SiteOperation]. *)
Definition Key (o : SiteOperation) : SiteOperationKey :=
  {| key_AccountID := op_AccountID o;
     key_SiteDomain := op_SiteDomain o;
     key_OperationID := op_ID o |}.

Record Server : Type := { srv_Hostname : string }.

Inductive PhaseState : Type :=
| Unstarted
| InProgress
| Completed
| Failed.

Definition PhaseState_eqb (a b : PhaseState) : bool :=
  match a, b with
  | Unstarted, Unstarted | InProgress, InProgress
  | Completed, Completed | Failed, Failed => true
  | _, _ => false
  end.

Record OperationPhaseData : Type := { data_Server : option Server }.

(** A phase is a tree: it may hold sub-phases. *)
Inductive OperationPhase : Type :=
  mkPhase (ID : string) (Description : string) (Step : int)
          (Data : option OperationPhaseData) (State : PhaseState)
          (Requires : list string) (Phases : list OperationPhase).

Definition phase_ID (p : OperationPhase) : string :=
  let 'mkPhase id _ _ _ _ _ _ := p in id.
Definition phase_Description (p : OperationPhase) : string :=
  let 'mkPhase _ d _ _ _ _ _ := p in d.
Definition phase_Step (p : OperationPhase) : int :=
  let 'mkPhase _ _ s _ _ _ _ := p in s.
Definition phase_Data (p : OperationPhase) : option OperationPhaseData :=
  let 'mkPhase _ _ _ d _ _ _ := p in d.
Definition phase_State (p : OperationPhase) : PhaseState :=
  let 'mkPhase _ _ _ _ s _ _ := p in s.
Definition phase_Requires (p : OperationPhase) : list string :=
  let 'mkPhase _ _ _ _ _ r _ := p in r.
Definition phase_Phases (p : OperationPhase) : list OperationPhase :=
  let 'mkPhase _ _ _ _ _ _ ps := p in ps.

Record OperationPlan : Type := {
  plan_AccountID : string;
  plan_OperationID : string;
  plan_ClusterName : string;
  plan_Phases : list OperationPhase
}.

(** Modelled from the spec: [libfsm.FindPhase] and [libfsm.IsCompleted]
    (package [lib/fsm]) are not among the sources.  The spec: [FindPhase]
    is an "exact lookup by ID, including within nested sub-phases; fails
    with NotFound if absent"; [IsCompleted] is "true iff every leaf phase
    is Completed". *)
Fixpoint flatten (p : OperationPhase) : list OperationPhase :=
  let 'mkPhase _ _ _ _ _ _ subs := p in
  p :: flat_map flatten subs.

Definition FlattenPlan (plan : OperationPlan) : list OperationPhase :=
  flat_map flatten (plan_Phases plan).

Definition FindPhase (plan : OperationPlan) (phaseID : string)
  : OperationPhase + error :=
  match find (fun p => String.eqb (phase_ID p) phaseID) (FlattenPlan plan) with
  | Some p => inl p
  | None => inr (trace_NotFound ("phase " ++ phaseID ++ " not found"))
  end.

Fixpoint phaseCompleted (p : OperationPhase) : bool :=
  let 'mkPhase _ _ _ _ st _ subs := p in
  match subs with
  | [] => PhaseState_eqb st Completed
  | _ => forallb phaseCompleted subs
  end.

Definition IsCompleted (plan : OperationPlan) : bool :=
  forallb phaseCompleted (plan_Phases plan).

Inductive ProgressState : Type :=
| ProgressStateInProgress
| ProgressStateCompleted
| ProgressStateFailed.

Record ProgressEntry : Type := {
  pe_SiteDomain : string;
  pe_OperationID : string;
  pe_Completion : int;
  pe_Step : int;
  pe_State : ProgressState;
  pe_Message : string;
  pe_Created : Time
}.

(** Modelled from the spec: [utils.ToRawTrace] (package [lib/utils]) is
    not among the sources; the audit record carries an "optional error
    detail". *)
Record RawTrace : Type := { rt_Err : error }.
Definition utils_ToRawTrace (err : option error) : option RawTrace :=
  option_map (fun e => {| rt_Err := e |}) err.

Record PlanChange : Type := {
  pc_ID : string;
  pc_ClusterName : string;
  pc_OperationID : string;
  pc_PhaseID : string;
  pc_NewState : PhaseState;
  pc_Error : option RawTrace;
  pc_Created : Time
}.

Inductive OperationState : Type :=
| OperationStateCompleted
| OperationStateFailed.

Record SetOperationStateRequest : Type := {
  req_State : OperationState;
  req_Message : option string
}.

(** [libfsm.Params], [libfsm.StateChange], [libfsm.ExecutorParams] *)
Record Params : Type := {
  PhaseID : string;
  Force : bool
}.

Record StateChange : Type := {
  sc_Phase : string;
  sc_State : PhaseState;
  sc_Error : option error
}.

Record ExecutorParams : Type := {
  ep_Plan : OperationPlan;
  ep_Phase : OperationPhase
}.

(** [ExecutorParams.Key]: the key of the operation the plan belongs to. *)
Definition ExecutorParams_Key (p : ExecutorParams) : SiteOperationKey :=
  {| key_AccountID := plan_AccountID (ep_Plan p);
     key_SiteDomain := plan_ClusterName (ep_Plan p);
     key_OperationID := plan_OperationID (ep_Plan p) |}.

(** ** The world the engine runs in

    A computation of the engine reads the clock, writes log lines and
    talks to the backend behind the operator and the remote runner.  It
    may also stop with a run-time panic (a nil dereference). *)

Inductive Level : Type := DebugLevel | WarnLevel.

Record LogLine : Type := {
  ll_Level : Level;
  ll_Message : string;
  ll_Error : option error
}.

Inductive Res (A : Type) : Type :=
| Panic
| Ok (a : A).
Arguments Panic {A}.
Arguments Ok {A} a.

Section World.
Variable B : Type.

Record World : Type := {
  clock : Time;
  logs : list LogLine;
  store : B
}.

Definition M (A : Type) : Type := World -> Res A * World.

Definition ret {A : Type} (a : A) : M A := fun w => (Ok a, w).

Definition bind {A C : Type} (c : M A) (k : A -> M C) : M C :=
  fun w =>
    match c w with
    | (Panic, w') => (Panic, w')
    | (Ok a, w') => k a w'
    end.

Definition panic {A : Type} : M A := fun w => (Panic, w).

(** Reading through a pointer or calling through an interface value. *)
Definition deref {A : Type} (p : option A) : M A :=
  match p with
  | Some a => ret a
  | None => panic
  end.

Definition time_Now : M Time := fun w => (Ok (clock w), w).

(** The world with one more log line. *)
Definition logged (w : World) (l : LogLine) : World :=
  {| clock := clock w; logs := (logs w ++ [l])%list; store := store w |}.

(** The world at a later instant, with the backend in a new state. *)
Definition advance (w : World) (t : Time) (b : B) : World :=
  {| clock := t; logs := logs w; store := b |}.

Definition writeLog (l : LogLine) : M unit :=
  fun w => (Ok tt, logged w l).

(** A remote call: it takes time and may change the backend. *)
Definition call {A : Type} (c : Time -> B -> A * Duration * B) : M A :=
  fun w =>
    let '(a, d, b) := c (clock w) (store w) in
    (Ok a, advance w (clock w + d)%N b).
End World.

Arguments clock {B} w.
Arguments logs {B} w.
Arguments store {B} w.
Arguments ret {B A} a w.
Arguments bind {B A C} c k w.
Arguments panic {B A} w.
Arguments deref {B A} p w.
Arguments time_Now {B} w.
Arguments writeLog {B} l w.
Arguments logged {B} w l.
Arguments advance {B} w t b.
Arguments call {B A} c w.

Declare Scope engine_scope.
Delimit Scope engine_scope with engine.
Notation "x <- c ;; k" := (bind c (fun x => k))
  (at level 61, c at next level, right associativity) : engine_scope.
Notation "c ;;; k" := (bind c (fun _ => k))
  (at level 61, right associativity) : engine_scope.

(** ** The engine *)

Local Open Scope engine_scope.

(** A Go double quote, as [%q] prints around a phase ID. *)
Definition dquote : string := String (ascii_of_nat 34) EmptyString.

Section Engine.
(** The state of the backend behind [ops.Operator] and the remote
    runner. *)
Variable B : Type.
(** [libfsm.PhaseExecutor], [libfsm.Remote] and [utils.Emitter] are
    opaque here. *)
Variables PhaseExecutor Remote Emitter : Type.
(** The backoff schedule [utils.NewUnlimitedExponentialBackOff()]. *)
Variable NewUnlimitedExponentialBackOff : BackOff.

(** The four methods of [ops.Operator] that the engine uses (the
    [operator] interface, lines 329-334).  A plan fetch answers with a
    plan or with an error. *)
Record Operator : Type := {
  CreateProgressEntry : SiteOperationKey -> ProgressEntry -> Func B;
  CreateOperationPlanChange : SiteOperationKey -> PlanChange -> Func B;
  GetOperationPlan :
    SiteOperationKey -> Time -> B -> (OperationPlan + error) * Duration * B;
  SetOperationState : SiteOperationKey -> SetOperationStateRequest -> Func B
}.

(** [libfsm.RemoteRunner] *)
Record RemoteRunner : Type := {
  Run : Server -> list string -> Func B
}.

(** [libfsm.Logger] *)
Record Logger : Type := {
  lg_Fields : list (string * string);
  lg_Key : option SiteOperationKey;
  lg_Operator : option Operator;
  lg_Server : option Server
}.

(** [Config], lines 148-161.  Pointers and interface values may be
    nil. *)
Record Config : Type := {
  Operation : option SiteOperation;
  cfg_Operator : option Operator;
  FieldLogger : option Logger;
  Runner : option RemoteRunner;
  Silent : bool;
  cfg_Emitter : option Emitter
}.

Record retryingOperator : Type := {
  ro_Operator : option Operator
}.

Definition FSMSpecFunc : Type :=
  ExecutorParams -> Remote -> Res (option PhaseExecutor * option error).

(** [engine], lines 262-268. *)
Record engine : Type := {
  eng_Config : Config;
  spec : FSMSpecFunc;
  operator : retryingOperator
}.

(** *** The retrying operator, lines 295-326 *)

Definition withRetry (fn : Func B) : M B (option error) :=
  fun w =>
    let '(err, t, b) :=
      retry NewUnlimitedExponentialBackOff fn (clock w) (store w) in
    (Ok err, advance w t b).

Definition retrying_CreateProgressEntry (r : retryingOperator)
           (key : SiteOperationKey) (entry : ProgressEntry)
  : M B (option error) :=
  o <- deref (ro_Operator r) ;;
  err <- withRetry (CreateProgressEntry o key entry) ;;
  ret (trace_Wrap err).

Definition retrying_CreateOperationPlanChange (r : retryingOperator)
           (key : SiteOperationKey) (change : PlanChange)
  : M B (option error) :=
  o <- deref (ro_Operator r) ;;
  err <- withRetry (CreateOperationPlanChange o key change) ;;
  ret (trace_Wrap err).

(** The closure of [GetOperationPlan] assigns the captured result
    variable [plan] on every attempt: the captured variable travels
    with the backend state. *)
Definition getPlanFunc (o : Operator) (key : SiteOperationKey)
  : Func (option OperationPlan * B) :=
  fun now st =>
    let '(res, d, b') := GetOperationPlan o key now (snd st) in
    match res with
    | inl p => (trace_Wrap None, d, (Some p, b'))
    | inr e => (trace_Wrap (Some e), d, (None, b'))
    end.

Definition retrying_GetOperationPlan (r : retryingOperator)
           (key : SiteOperationKey)
  : M B (option OperationPlan * option error) :=
  o <- deref (ro_Operator r) ;;
  fun w =>
    let '(err, t, st) :=
      retry NewUnlimitedExponentialBackOff (getPlanFunc o key)
            (clock w) (None, store w) in
    let w' := advance w t (snd st) in
    match err with
    | Some e => (Ok (None, trace_Wrap (Some e)), w')
    | None => (Ok (fst st, None), w')
    end.

Definition retrying_SetOperationState (r : retryingOperator)
           (key : SiteOperationKey) (req : SetOperationStateRequest)
  : M B (option error) :=
  o <- deref (ro_Operator r) ;;
  err <- withRetry (SetOperationState o key req) ;;
  ret (trace_Wrap err).

(** Modelled from the spec: [ops.CompleteOperation] and
    [ops.FailOperation] (package [lib/ops]) are not among the sources.
    The spec: they mark "the whole operation Completed", or "Failed with
    the terminal error's message"; they can only do so through the
    [SetOperationState] method of the operator they are given. *)
Definition ops_CompleteOperation (key : SiteOperationKey)
           (operator : retryingOperator) : M B (option error) :=
  retrying_SetOperationState operator key
    {| req_State := OperationStateCompleted; req_Message := None |}.

Definition ops_FailOperation (key : SiteOperationKey)
           (operator : retryingOperator) (message : string)
  : M B (option error) :=
  retrying_SetOperationState operator key
    {| req_State := OperationStateFailed; req_Message := Some message |}.

(** *** Logging through the embedded [FieldLogger] *)

Definition logLine (r : engine) (lvl : Level) (err : option error)
           (msg : string) : M B unit :=
  _ <- deref (FieldLogger (eng_Config r)) ;;
  writeLog {| ll_Level := lvl; ll_Message := msg; ll_Error := err |}.

(** *** Methods of the engine *)

(** [GetPlan], lines 253-259. *)
Definition GetPlan (r : engine)
  : M B (option OperationPlan * option error) :=
  op <- deref (Operation (eng_Config r)) ;;
  res <- retrying_GetOperationPlan (operator r) (Key op) ;;
  match snd res with
  | Some e => ret (None, trace_Wrap (Some e))
  | None => ret (fst res, None)
  end.

(** The entry that [UpdateProgress] builds, lines 176-184. *)
Definition progressEntry (key : SiteOperationKey) (plan : OperationPlan)
           (phase : OperationPhase) (now : Time) : ProgressEntry :=
  {| pe_SiteDomain := key_SiteDomain key;
     pe_OperationID := key_OperationID key;
     pe_Completion :=
       int_mul (int_div 100 (utils_Max (len (plan_Phases plan)) 1))
               (phase_Step phase);
     pe_Step := phase_Step phase;
     pe_State := ProgressStateInProgress;
     pe_Message := phase_Description phase;
     pe_Created := now |}.

(** [UpdateProgress], lines 164-193. *)
Definition UpdateProgress (r : engine) (params : Params)
  : M B (option error) :=
  res <- GetPlan r ;;
  match snd res with
  | Some e => ret (trace_Wrap (Some e))
  | None =>
      plan <- deref (fst res) ;;
      match FindPhase plan (PhaseID params) with
      | inr e => ret (trace_Wrap (Some e))
      | inl phase =>
          op <- deref (Operation (eng_Config r)) ;;
          now <- time_Now ;;
          let key := Key op in
          let entry := progressEntry key plan phase now in
          err <- retrying_CreateProgressEntry (operator r) key entry ;;
          match err with
          | Some e =>
              logLine r WarnLevel (Some e) "Failed to create progress entry."
          | None => ret tt
          end ;;;
          ret None
      end
  end.

(** [trace.Unwrap(fsmErr).Error()]: [trace.Unwrap] hands a nil error
    back, and calling [Error] on it is a nil dereference. *)
Definition unwrappedMessage (fsmErr : option error) : M B string :=
  e <- deref (option_map trace_Unwrap fsmErr) ;;
  ret (Error e).

(** [Complete], lines 197-214. *)
Definition Complete (r : engine) (fsmErr : option error)
  : M B (option error) :=
  res <- GetPlan r ;;
  match snd res with
  | Some e => ret (trace_Wrap (Some e))
  | None =>
      plan <- deref (fst res) ;;
      err <- (if IsCompleted plan
              then
                op <- deref (Operation (eng_Config r)) ;;
                ops_CompleteOperation (Key op) (operator r)
              else
                op <- deref (Operation (eng_Config r)) ;;
                msg <- unwrappedMessage fsmErr ;;
                ops_FailOperation (Key op) (operator r) msg) ;;
      match err with
      | Some e => ret (trace_Wrap (Some e))
      | None =>
          logLine r DebugLevel None "Marked operation complete." ;;;
          ret None
      end
  end.

(** The record that [ChangePhaseState] builds, lines 219-227.  [id] is
    the fresh [uuid.New()]. *)
Definition planChange (op : SiteOperation) (id : string)
           (change : StateChange) (now : Time) : PlanChange :=
  {| pc_ID := id;
     pc_ClusterName := op_SiteDomain op;
     pc_OperationID := op_ID op;
     pc_PhaseID := sc_Phase change;
     pc_NewState := sc_State change;
     pc_Error := utils_ToRawTrace (sc_Error change);
     pc_Created := now |}.

(** [ChangePhaseState], lines 217-234.  The random [uuid.New()] is the
    argument [id]. *)
Definition ChangePhaseState (r : engine) (id : string)
           (change : StateChange) : M B (option error) :=
  op <- deref (Operation (eng_Config r)) ;;
  now <- time_Now ;;
  err <- retrying_CreateOperationPlanChange (operator r) (Key op)
           (planChange op id change now) ;;
  match err with
  | Some e => ret (trace_Wrap (Some e))
  | None =>
      logLine r DebugLevel None ("Applied " ++ sc_Phase change ++ ".") ;;;
      ret None
  end.

(** [GetExecutor], lines 238-240. *)
Definition GetExecutor (r : engine) (params : ExecutorParams)
           (remote : Remote) : Res (option PhaseExecutor * option error) :=
  spec r params remote.

(** [RunCommand], lines 244-250. *)
Definition RunCommand (r : engine) (runner : RemoteRunner)
           (server : Server) (params : Params) : M B (option error) :=
  let args := ["system"; "envars"; "--phase"; PhaseID params] in
  let args := if Force params then (args ++ ["--force"])%list else args in
  call (Run runner server args).

(** *** Resolving executors, lines 272-293 *)

(** The phase prefixes [libphase.Masters] and [libphase.Nodes] and the
    constructor [libphase.NewSync] belong to package
    [lib/environ/internal/phases]. *)
Variables libphase_Masters libphase_Nodes : string.
Variable libphase_NewSync :
  ExecutorParams -> option Emitter -> SiteOperation -> Logger ->
  option PhaseExecutor * option error.

Definition configToExecutor (config : Config) : FSMSpecFunc :=
  fun params _remote =>
    let logger :=
      {| lg_Fields := [("phase", phase_ID (ep_Phase params))];
         lg_Key := Some (ExecutorParams_Key params);
         lg_Operator := cfg_Operator config;
         lg_Server := None |} in
    let logger :=
      match phase_Data (ep_Phase params) with
      | Some data =>
          {| lg_Fields := lg_Fields logger;
             lg_Key := lg_Key logger;
             lg_Operator := lg_Operator logger;
             lg_Server := data_Server data |}
      | None => logger
      end in
    if String.prefix libphase_Masters (phase_ID (ep_Phase params))
       || String.prefix libphase_Nodes (phase_ID (ep_Phase params))
    then
      match Operation config with
      | Some op => Ok (libphase_NewSync params (cfg_Emitter config) op logger)
      | None => Panic
      end
    else
      Ok (None,
          Some (trace_BadParameter
                  ("unknown phase " ++ dquote ++ phase_ID (ep_Phase params)
                                    ++ dquote))).

(** *** Construction, lines 103-145 *)

(** [checkAndSetDefaults] has a pointer receiver: it hands back the
    configuration it may have completed. *)
Definition checkAndSetDefaults (r : Config) : option error * Config :=
  match Operation r with
  | None => (Some (trace_BadParameter "operation is required"), r)
  | Some op =>
      match cfg_Operator r with
      | None => (Some (trace_BadParameter "operator service is required"), r)
      | Some _ =>
          match Runner r with
          | None =>
              (Some (trace_BadParameter "remote command runner is required"), r)
          | Some _ =>
              match FieldLogger r with
              | None =>
                  (None,
                   {| Operation := Operation r;
                      cfg_Operator := cfg_Operator r;
                      FieldLogger :=
                        Some {| lg_Fields := [("trace.component", "environ")];
                                lg_Key := Some (Key op);
                                lg_Operator := cfg_Operator r;
                                lg_Server := None |};
                      Runner := Runner r;
                      Silent := Silent r;
                      cfg_Emitter := cfg_Emitter r |})
              | Some _ => (None, r)
              end
          end
      end
  end.

(** The generic state machine of package [lib/fsm]: it wraps an engine
    and a runner and holds the hook run before each phase. *)
Record libfsm_Config : Type := {
  fsm_Engine : option engine;
  fsm_Runner : option RemoteRunner
}.

Record FSM : Type := {
  FSM_Config : libfsm_Config;
  preExec : option (Params -> M B (option error))
}.

Definition SetPreExec (f : FSM) (fn : Params -> M B (option error)) : FSM :=
  {| FSM_Config := FSM_Config f; preExec := Some fn |}.

(** [libfsm.New] validates its own configuration: it answers with a
    machine or with an error. *)
Variable libfsm_New : libfsm_Config -> FSM + error.

(** The engine literal of [New], lines 109-113. *)
Definition newEngine (config : Config) : engine :=
  {| eng_Config := config;
     spec := configToExecutor config;
     operator := {| ro_Operator := cfg_Operator config |} |}.

(** [New], lines 103-124. *)
Definition New (config : Config) : option FSM * option error :=
  let '(err, config) := checkAndSetDefaults config in
  match err with
  | Some e => (None, trace_Wrap (Some e))
  | None =>
      let engine := newEngine config in
      match
        libfsm_New {| fsm_Engine := Some engine; fsm_Runner := Runner config |}
      with
      | inr e => (None, trace_Wrap (Some e))
      | inl machine =>
          (Some (SetPreExec machine (UpdateProgress engine)), None)
      end
  end.
End Engine.

Arguments Build_Operator {B}.
Arguments CreateProgressEntry {B} o key entry.
Arguments CreateOperationPlanChange {B} o key change.
Arguments GetOperationPlan {B} o key now b.
Arguments SetOperationState {B} o key req.
Arguments Build_RemoteRunner {B}.
Arguments Run {B} r server args.
Arguments Build_Logger {B}.
Arguments lg_Fields {B} l.
Arguments lg_Key {B} l.
Arguments lg_Operator {B} l.
Arguments lg_Server {B} l.
Arguments Build_Config {B Emitter}.
Arguments Operation {B Emitter} c.
Arguments cfg_Operator {B Emitter} c.
Arguments FieldLogger {B Emitter} c.
Arguments Runner {B Emitter} c.
Arguments Silent {B Emitter} c.
Arguments cfg_Emitter {B Emitter} c.
Arguments Build_retryingOperator {B}.
Arguments ro_Operator {B} r.
Arguments Build_engine {B PhaseExecutor Remote Emitter}.
Arguments eng_Config {B PhaseExecutor Remote Emitter} e.
Arguments spec {B PhaseExecutor Remote Emitter} e.
Arguments operator {B PhaseExecutor Remote Emitter} e.
Arguments withRetry {B} NewUnlimitedExponentialBackOff fn w.
Arguments retrying_CreateProgressEntry {B} NewUnlimitedExponentialBackOff r key entry w.
Arguments retrying_CreateOperationPlanChange {B} NewUnlimitedExponentialBackOff r key change w.
Arguments getPlanFunc {B} o key now st.
Arguments retrying_GetOperationPlan {B} NewUnlimitedExponentialBackOff r key w.
Arguments retrying_SetOperationState {B} NewUnlimitedExponentialBackOff r key req w.
Arguments ops_CompleteOperation {B} NewUnlimitedExponentialBackOff key operator w.
Arguments ops_FailOperation {B} NewUnlimitedExponentialBackOff key operator message w.
Arguments logLine {B PhaseExecutor Remote Emitter} r lvl err msg w.
Arguments GetPlan {B PhaseExecutor Remote Emitter} NewUnlimitedExponentialBackOff r w.
Arguments UpdateProgress {B PhaseExecutor Remote Emitter} NewUnlimitedExponentialBackOff r params w.
Arguments unwrappedMessage {B} fsmErr w.
Arguments Complete {B PhaseExecutor Remote Emitter} NewUnlimitedExponentialBackOff r fsmErr w.
Arguments ChangePhaseState {B PhaseExecutor Remote Emitter} NewUnlimitedExponentialBackOff r id change w.
Arguments GetExecutor {B PhaseExecutor Remote Emitter} r params remote.
Arguments RunCommand {B PhaseExecutor Remote Emitter} r runner server params w.
Arguments configToExecutor {B PhaseExecutor Remote Emitter}
  libphase_Masters libphase_Nodes libphase_NewSync config.
Arguments checkAndSetDefaults {B Emitter} r.
Arguments Build_libfsm_Config {B PhaseExecutor Remote Emitter}.
Arguments fsm_Engine {B PhaseExecutor Remote Emitter} l.
Arguments fsm_Runner {B PhaseExecutor Remote Emitter} l.
Arguments Build_FSM {B PhaseExecutor Remote Emitter}.
Arguments FSM_Config {B PhaseExecutor Remote Emitter} f.
Arguments preExec {B PhaseExecutor Remote Emitter} f.
Arguments SetPreExec {B PhaseExecutor Remote Emitter} f fn.
Arguments newEngine {B PhaseExecutor Remote Emitter}
  libphase_Masters libphase_Nodes libphase_NewSync config.
Arguments New {B PhaseExecutor Remote Emitter} NewUnlimitedExponentialBackOff
  libphase_Masters libphase_Nodes libphase_NewSync libfsm_New config.

(** ** Observing the retry loop

    A wrapped function can be made to count its calls, or to note when
    each call starts and how long it takes, the way a test double
    would. *)

Definition counting {S : Type} (fn : Func S) : Func (nat * S) :=
  fun now st =>
    let '(err, d, s') := fn now (snd st) in
    (err, d, (Datatypes.S (fst st), s')).


(** A function that answers from a script: how long each coming call
    takes and the failure, if any, it returns. *)
Record Response : Type := {
  took : Duration;
  failure : option error
}.

Definition scripted : Func (list Response) :=
  fun _ script =>
    match script with
    | [] => (None, 0%N, [])
    | r :: rest => (failure r, took r, rest)
    end.

(** A constant backoff schedule and two errors for concrete runs. *)
Definition halfSecond : BackOff := fun _ => 500000000%positive.

Definition refused : error := RawErr ConnectionRefused "connection refused".
Definition badRequest : error := RawErr BadParameterError "bad request".

Definition failsTwice : list Response :=
  [ {| took := Second; failure := Some refused |};
    {| took := Second; failure := Some refused |};
    {| took := Second; failure := None |} ].

Definition slowFailsTwice : list Response :=
  [ {| took := (200 * Second)%N; failure := Some refused |};
    {| took := (200 * Second)%N; failure := Some refused |};
    {| took := Second; failure := None |} ].

(** ** A reference backend

    Modelled from the spec: the state store is owned outside this
    package.  The spec describes it as the "durable record of the plan
    and an append-only log of phase state changes"; the plan it hands out
    is the stored plan with the logged transitions applied.  The script
    says how long each coming request takes and which failure, if any, it
    meets; a failed request changes nothing. *)

Record MemStore : Type := {
  ms_plan : OperationPlan;
  ms_changelog : list PlanChange;
  ms_progress : list ProgressEntry;
  ms_state : option SetOperationStateRequest;
  ms_commands : list (Server * list string);
  ms_script : list Response
}.

Definition nextResponse (s : MemStore) : Response * MemStore :=
  match ms_script s with
  | [] => ({| took := 0%N; failure := None |}, s)
  | r :: rest =>
      (r, {| ms_plan := ms_plan s;
             ms_changelog := ms_changelog s;
             ms_progress := ms_progress s;
             ms_state := ms_state s;
             ms_commands := ms_commands s;
             ms_script := rest |})
  end.

Fixpoint setPhaseState (id : string) (st : PhaseState) (p : OperationPhase)
  : OperationPhase :=
  let 'mkPhase id' descr step data st' req subs := p in
  mkPhase id' descr step data (if String.eqb id' id then st else st') req
          (map (setPhaseState id st) subs).

Definition applyChange (plan : OperationPlan) (c : PlanChange) : OperationPlan :=
  {| plan_AccountID := plan_AccountID plan;
     plan_OperationID := plan_OperationID plan;
     plan_ClusterName := plan_ClusterName plan;
     plan_Phases :=
       map (setPhaseState (pc_PhaseID c) (pc_NewState c)) (plan_Phases plan) |}.

Definition ResolvePlan (plan : OperationPlan) (changelog : list PlanChange)
  : OperationPlan :=
  fold_left applyChange changelog plan.

Definition served (mutate : MemStore -> MemStore) : Func MemStore :=
  fun _ s =>
    let '(r, s') := nextResponse s in
    match failure r with
    | Some e => (Some e, took r, s')
    | None => (None, took r, mutate s')
    end.

Definition memOperator : Operator MemStore :=
  {| CreateProgressEntry := fun _ entry =>
       served (fun s =>
         {| ms_plan := ms_plan s;
            ms_changelog := ms_changelog s;
            ms_progress := (ms_progress s ++ [entry])%list;
            ms_state := ms_state s;
            ms_commands := ms_commands s;
            ms_script := ms_script s |});
     CreateOperationPlanChange := fun _ change =>
       served (fun s =>
         {| ms_plan := ms_plan s;
            ms_changelog := (ms_changelog s ++ [change])%list;
            ms_progress := ms_progress s;
            ms_state := ms_state s;
            ms_commands := ms_commands s;
            ms_script := ms_script s |});
     GetOperationPlan := fun _ _ s =>
       let '(r, s') := nextResponse s in
       match failure r with
       | Some e => (inr e, took r, s')
       | None => (inl (ResolvePlan (ms_plan s') (ms_changelog s')), took r, s')
       end;
     SetOperationState := fun _ req =>
       served (fun s =>
         {| ms_plan := ms_plan s;
            ms_changelog := ms_changelog s;
            ms_progress := ms_progress s;
            ms_state := Some req;
            ms_commands := ms_commands s;
            ms_script := ms_script s |}) |}.

Definition memRunner : RemoteRunner MemStore :=
  {| Run := fun server args =>
       served (fun s =>
         {| ms_plan := ms_plan s;
            ms_changelog := ms_changelog s;
            ms_progress := ms_progress s;
            ms_state := ms_state s;
            ms_commands := (ms_commands s ++ [(server, args)])%list;
            ms_script := ms_script s |}) |}.

(** An engine as [New] builds them: the operation, the operator and the
    logger are there. *)
Definition wellFormed {B PhaseExecutor Remote Emitter : Type}
           (r : engine B PhaseExecutor Remote Emitter)
           (op : SiteOperation) (o : Operator B) : Prop :=
  Operation (eng_Config r) = Some op
  /\ ro_Operator (operator r) = Some o
  /\ FieldLogger (eng_Config r) <> None.

(** How a method ends after its retried store call [r]: it hands the
    error back, or writes its debug line [dbg]. *)
Definition concluded {B : Type} (w : World B) (dbg : LogLine)
           (r : option error * Time * B) : Res (option error) * World B :=
  match fst (fst r) with
  | Some e => (Ok (Some e), advance w (snd (fst r)) (snd r))
  | None => (Ok None, logged (advance w (snd (fst r)) (snd r)) dbg)
  end.

(** The debug lines of [Complete] and [ChangePhaseState], and the
    warning of [UpdateProgress]. *)
Definition markedLine : LogLine :=
  {| ll_Level := DebugLevel;
     ll_Message := "Marked operation complete.";
     ll_Error := None |}.

Definition appliedLine (change : StateChange) : LogLine :=
  {| ll_Level := DebugLevel;
     ll_Message := "Applied " ++ sc_Phase change ++ ".";
     ll_Error := None |}.

Definition failedEntryLine (e : error) : LogLine :=
  {| ll_Level := WarnLevel;
     ll_Message := "Failed to create progress entry.";
     ll_Error := Some e |}.

(** How [UpdateProgress] ends after its retried write [x]. *)
Definition progressWritten {B : Type} (w : World B)
           (x : option error * Time * B) : Res (option error) * World B :=
  (Ok None,
   match fst (fst x) with
   | Some e => logged (advance w (snd (fst x)) (snd x)) (failedEntryLine e)
   | None => advance w (snd (fst x)) (snd x)
   end).

(** ** Runs against the reference backend *)

Definition withScript (s : MemStore) (script : list Response) : MemStore :=
  {| ms_plan := ms_plan s;
     ms_changelog := ms_changelog s;
     ms_progress := ms_progress s;
     ms_state := ms_state s;
     ms_commands := ms_commands s;
     ms_script := script |}.

Definition withChange (s : MemStore) (c : PlanChange) : MemStore :=
  {| ms_plan := ms_plan s;
     ms_changelog := (ms_changelog s ++ [c])%list;
     ms_progress := ms_progress s;
     ms_state := ms_state s;
     ms_commands := ms_commands s;
     ms_script := ms_script s |}.

(** A request refused at the transport. *)
Definition refusal (r : Response) : Prop :=
  exists e, failure r = Some e /\ IsConnectionRefusedError e = true.

(** The instant at which the next attempt is due after the refused
    requests [rs], the first of them sent at [now] as attempt [n]. *)
Fixpoint afterRefusals (b : BackOff) (n : nat) (now : Time)
         (rs : list Response) : Time :=
  match rs with
  | [] => now
  | r :: rs' => afterRefusals b (Datatypes.S n) (now + took r + Npos (b n))%N rs'
  end.

(** The plan the reference backend hands out. *)
Definition planView (s : MemStore) : OperationPlan :=
  ResolvePlan (ms_plan s) (ms_changelog s).

(** A four-phase operation on the reference backend. *)
Definition exOperation : SiteOperation :=
  {| op_ID := "op-1"; op_AccountID := "system"; op_SiteDomain := "example.com" |}.

Definition exPhase (id descr : string) (step : int) (st : PhaseState)
  : OperationPhase :=
  mkPhase id descr step None st [] [].

Definition exPlan : OperationPlan :=
  {| plan_AccountID := "system";
     plan_OperationID := "op-1";
     plan_ClusterName := "example.com";
     plan_Phases :=
       [ exPhase "/masters/node-1" "Update master node-1" 0 Completed;
         exPhase "/masters/node-2" "Update master node-2" 1 Completed;
         exPhase "/nodes/node-3" "Update node-3" 2 Unstarted;
         exPhase "/nodes/node-4" "Update node-4" 3 Unstarted ] |}.

Definition exStore (script : list Response) : MemStore :=
  {| ms_plan := exPlan;
     ms_changelog := [];
     ms_progress := [];
     ms_state := None;
     ms_commands := [];
     ms_script := script |}.

Definition exWorld (script : list Response) : World MemStore :=
  {| clock := 1000%N; logs := []; store := exStore script |}.

Definition exConfig : Config MemStore unit :=
  {| Operation := Some exOperation;
     cfg_Operator := Some memOperator;
     FieldLogger := None;
     Runner := Some memRunner;
     Silent := false;
     cfg_Emitter := None |}.

Definition exNewSync (_ : ExecutorParams) (_ : option unit)
           (_ : SiteOperation) (_ : Logger MemStore)
  : option string * option error :=
  (Some "sync", None).

Definition exEngine : engine MemStore string unit unit :=
  newEngine "/masters" "/nodes" exNewSync (snd (checkAndSetDefaults exConfig)).

(** A stand-in for [libfsm.New] that accepts every configuration, and
    a configuration without a runner. *)
Definition exLibfsmNew (cfg : libfsm_Config MemStore string unit unit)
  : FSM MemStore string unit unit + error :=
  inl {| FSM_Config := cfg; preExec := None |}.

Definition exConfigNoRunner : Config MemStore unit :=
  {| Operation := Some exOperation;
     cfg_Operator := Some memOperator;
     FieldLogger := None;
     Runner := None;
     Silent := false;
     cfg_Emitter := None |}.

(** * Collaborators of the engine

    The rest of the sources: service addresses and application endpoints
    (package [opsservice]), the discovery publisher (package [aws]), the
    installer's package pulls and the registry sync (package [service])
    and the mount units (package [system]). *)

(** [trace.Wrap] of an error that is there. *)
Definition wrapped (e : error) : error :=
  match e with
  | TraceErr e' => TraceErr e'
  | _ => TraceErr e
  end.

(** ** Calls to the outside

    A computation that calls services notes each call, with its answer,
    in the order the calls are made; an answer may depend on all that
    happened before. *)

Section Traced.
Variable Call : Type.

Definition Traced (A : Type) : Type := list Call -> A * list Call.

Definition traced_ret {A : Type} (a : A) : Traced A := fun h => (a, h).

Definition traced_bind {A C : Type} (c : Traced A) (k : A -> Traced C)
  : Traced C :=
  fun h => let '(a, h') := c h in k a h'.

Definition ask {A : Type} (answer : list Call -> A) (note : A -> Call)
  : Traced A :=
  fun h => (answer h, (h ++ [note (answer h)])%list).
End Traced.

Arguments traced_ret {Call A} a h.
Arguments traced_bind {Call A C} c k h.
Arguments ask {Call A} answer note h.

Declare Scope traced_scope.
Delimit Scope traced_scope with traced.
Notation "x <~ c ;; k" := (traced_bind c (fun x => k))
  (at level 61, c at next level, right associativity) : traced_scope.
Notation "c ~;; k" := (traced_bind c (fun _ => k))
  (at level 61, right associativity) : traced_scope.

Local Open Scope traced_scope.

(** ** Kubernetes objects

    The fields that the sources read of [v1.Service], [v1.Node] and
    [v1.Namespace]. *)

Definition int32 := Z.

(** [%v] and [%d] of an integer. *)
Definition itoa (z : Z) : string := NilZero.string_of_int (Z.to_int z).

(** [fmt.Sprintf("%v:%v", host, port)] *)
Definition hostPort (host : string) (port : Z) : string :=
  host ++ ":" ++ itoa port.

Record LoadBalancerIngress : Type := { ing_Hostname : string }.

Record ServicePort : Type := {
  sp_Name : string;
  sp_Port : int32;
  sp_NodePort : int32
}.

(** [Spec.Ports], [Spec.ClusterIP] and [Status.LoadBalancer.Ingress]. *)
Record Service : Type := {
  svc_Ports : list ServicePort;
  svc_ClusterIP : string;
  svc_Ingress : list LoadBalancerIngress
}.

Record NodeAddress : Type := {
  na_Type : string;
  na_Address : string
}.

(** [Status.Addresses] *)
Record Node : Type := { node_Addresses : list NodeAddress }.

Record Namespace : Type := { ns_Name : string }.

(** What the cluster answers to the queries of the sources, taken at one
    instant: the node list, the namespace list, the services of a
    namespace under a label selector and one service by name. *)
Record Clientset : Type := {
  Nodes_List : list Node + error;
  Namespaces_List : list Namespace + error;
  Services_List : string -> string -> list Service + error;
  Services_Get : string -> string -> Service + error
}.

(** [strings.HasSuffix] *)
Definition HasSuffix (s suffix : string) : bool :=
  (String.length suffix <=? String.length s)%nat
  && String.eqb
       (substring (String.length s - String.length suffix)
                  (String.length suffix) s)
       suffix.

(** ** Package [opsservice], file [endpoints.go] *)

Module opsservice.

(** [schema.Endpoint], an endpoint of the application manifest, and
    [ops.Endpoint], what the operator reports. *)
Record ManifestEndpoint : Type := {
  me_Name : string;
  me_Description : string;
  me_Selector : list (string * string);
  me_Port : int;
  me_Protocol : string;
  me_Hidden : bool
}.

Record Endpoint : Type := {
  Name : string;
  Description : string;
  Addresses : list string
}.

Section Endpoints.
(** The node address types [constants.KubeNodeExternalIP] and
    [constants.KubeNodeInternalIP]. *)
Variables KubeNodeExternalIP KubeNodeInternalIP : string.

(** The node ports of a service, lines 132-137, and the addresses of
    one type over all nodes, lines 140-149. *)
Definition nodePortsOf (service : Service) : list int32 :=
  flat_map (fun port => if sp_NodePort port =? 0 then [] else [sp_NodePort port])
           (svc_Ports service).

Definition addressesOfType (kind : string) (nodeList : list Node) : list string :=
  flat_map (fun node =>
              flat_map (fun address =>
                          if String.eqb (na_Type address) kind
                          then [na_Address address] else [])
                       (node_Addresses node))
           nodeList.

(** [getAddresses], lines 120-175.  Each [range] loop that appends is
    written as the list it builds. *)
Definition getAddresses (service : Service) (nodeList : list Node)
  : list string * option error :=
  match svc_Ingress service with
  | _ :: _ =>
      (flat_map (fun ingress =>
                   map (fun port => hostPort (ing_Hostname ingress) (sp_Port port))
                       (svc_Ports service))
                (svc_Ingress service),
       None)
  | [] =>
      let nodePorts := nodePortsOf service in
      let fallback :=
        (map (fun port => hostPort (svc_ClusterIP service) (sp_Port port))
             (svc_Ports service),
         None) in
      match nodePorts with
      | _ :: _ =>
          let externalIPs := addressesOfType KubeNodeExternalIP nodeList in
          let internalIPs := addressesOfType KubeNodeInternalIP nodeList in
          match externalIPs with
          | _ :: _ =>
              (flat_map (fun ip => map (fun port => hostPort ip port) nodePorts)
                        externalIPs,
               None)
          | [] =>
              match internalIPs with
              | _ :: _ =>
                  (flat_map (fun ip => map (fun port => hostPort ip port) nodePorts)
                            internalIPs,
                   None)
              | [] => fallback
              end
          end
      | [] => fallback
      end
  end.

(** The label selector string [utils.MakeSelector(e.Selector).String()]. *)
Variable MakeSelector : list (string * string) -> string.

(** The loop over the namespaces, lines 66-79: [serviceList] stays nil
    only when there is no namespace. *)
Fixpoint listServices (client : Clientset) (selector : string)
         (namespaces : list Namespace) (serviceList : option (list Service))
  : option (list Service) + error :=
  match namespaces with
  | [] => inl serviceList
  | ns :: rest =>
      match Services_List client (ns_Name ns) selector with
      | inr err => inr err
      | inl services =>
          listServices client selector rest
            (match serviceList with
             | None => Some services
             | Some items => Some (items ++ services)%list
             end)
      end
  end.

(** The loop over the addresses of one service, lines 91-99. *)
Fixpoint selectAddresses (e : ManifestEndpoint) (serviceAddresses : list string)
         (addresses : list string) : list string :=
  match serviceAddresses with
  | [] => addresses
  | a :: rest =>
      if (me_Port e =? 0) || HasSuffix a (":" ++ itoa (me_Port e))
      then
        let a := if String.eqb (me_Protocol e) ""
                 then a
                 else me_Protocol e ++ "://" ++ a in
        selectAddresses e rest (addresses ++ [a])%list
      else selectAddresses e rest addresses
  end.

(** The loop over the services, lines 86-100. *)
Fixpoint collectAddresses (e : ManifestEndpoint) (nodeList : list Node)
         (services : list Service) (addresses : list string)
  : list string + error :=
  match services with
  | [] => inl addresses
  | service :: rest =>
      match getAddresses service nodeList with
      | (_, Some err) => inr err
      | (serviceAddresses, None) =>
          collectAddresses e nodeList rest
                           (selectAddresses e serviceAddresses addresses)
      end
  end.

(** The loop over the endpoints of the manifest, lines 61-109. *)
Fixpoint collectEndpoints (client : Clientset) (nodeList : list Node)
         (namespaces : list Namespace) (manifest : list ManifestEndpoint)
         (endpoints : list Endpoint) : list Endpoint + error :=
  match manifest with
  | [] => inl endpoints
  | e :: rest =>
      if me_Hidden e
      then collectEndpoints client nodeList namespaces rest endpoints
      else
        match listServices client (MakeSelector (me_Selector e)) namespaces None with
        | inr err => inr err
        | inl None => collectEndpoints client nodeList namespaces rest endpoints
        | inl (Some items) =>
            match collectAddresses e nodeList items [] with
            | inr err => inr err
            | inl [] => collectEndpoints client nodeList namespaces rest endpoints
            | inl addresses =>
                collectEndpoints client nodeList namespaces rest
                  (endpoints ++ [ {| Name := me_Name e;
                                     Description := me_Description e;
                                     Addresses := addresses |} ])%list
            end
        end
  end.

(** What the loops gather when no query fails: the services under a
    selector over all namespaces, the addresses of a service that pass
    the port of the endpoint, with its protocol in front, and the
    endpoint that is reported for an endpoint of the manifest, if any. *)
Definition servicesOf (client : Clientset) (selector : string)
           (namespaces : list Namespace) : list Service :=
  flat_map (fun ns =>
              match Services_List client (ns_Name ns) selector with
              | inl services => services
              | inr _ => []
              end)
           namespaces.

Definition selected (e : ManifestEndpoint) (serviceAddresses : list string)
  : list string :=
  flat_map (fun a =>
              if (me_Port e =? 0) || HasSuffix a (":" ++ itoa (me_Port e))
              then [if String.eqb (me_Protocol e) ""
                    then a
                    else me_Protocol e ++ "://" ++ a]
              else [])
           serviceAddresses.

Definition addressesFor (e : ManifestEndpoint) (client : Clientset)
           (nodeList : list Node) (namespaces : list Namespace) : list string :=
  flat_map (fun service => selected e (fst (getAddresses service nodeList)))
           (servicesOf client (MakeSelector (me_Selector e)) namespaces).

Definition reported (client : Clientset) (nodeList : list Node)
           (namespaces : list Namespace) (e : ManifestEndpoint) : list Endpoint :=
  if me_Hidden e
  then []
  else
    match addressesFor e client nodeList namespaces with
    | [] => []
    | addresses =>
        [ {| Name := me_Name e;
             Description := me_Description e;
             Addresses := addresses |} ]
    end.

(** The operator keeps the client it has made; [dials] counts the calls
    to [utils.GetKubeClient] made so far.  The mutex is not modelled:
    calls are taken one after the other. *)
Record Operator : Type := {
  kubeClient : option Clientset;
  dials : nat
}.

(** What the [n]-th call to [utils.GetKubeClient] answers, and what
    [openSite] finds under a site key: the endpoints of the manifest of
    the site's application. *)
Variable utils_GetKubeClient : nat -> Clientset + error.
Variable openSite : string -> list ManifestEndpoint + error.

(** [GetKubeClient], lines 18-32: the client, or the error of making
    one. *)
Definition GetKubeClient (o : Operator) : (Clientset + error) * Operator :=
  match kubeClient o with
  | Some client => (inl client, o)
  | None =>
      match utils_GetKubeClient (dials o) with
      | inr err =>
          (inr (wrapped err),
           {| kubeClient := None; dials := Datatypes.S (dials o) |})
      | inl client =>
          (inl client,
           {| kubeClient := Some client; dials := Datatypes.S (dials o) |})
      end
  end.

(** [GetApplicationEndpoints], lines 35-112. *)
Definition GetApplicationEndpoints (o : Operator) (key : string)
  : (list Endpoint * option error) * Operator :=
  match openSite key with
  | inr err => (([], trace_Wrap (Some err)), o)
  | inl [] => (([], None), o)
  | inl manifest =>
      match GetKubeClient o with
      | (inr err, o') => (([], trace_Wrap (Some err)), o')
      | (inl client, o') =>
          match Nodes_List client with
          | inr err => (([], trace_Wrap (Some err)), o')
          | inl nodeList =>
              match Namespaces_List client with
              | inr err => (([], trace_Wrap (Some err)), o')
              | inl namespaceList =>
                  match collectEndpoints client nodeList namespaceList manifest [] with
                  | inr err => (([], trace_Wrap (Some err)), o')
                  | inl endpoints => ((endpoints, None), o')
                  end
              end
          end
      end
  end.
End Endpoints.

End opsservice.

(** ** Package [aws], file [discovery.go] *)

Module aws.

Inductive Call : Type :=
| GetLocalSite (answer : string + error)
| GetExpandToken (key : string) (answer : string + error)
| GetService (answer : Service + error)
| PublishJoinToken (token : string) (answer : option error)
| PublishServiceURL (url : string) (answer : option error)
| Errorf (err : error).



Section Discovery.
(** [constants.GravityServicePortName] and [constants.GravityServiceName] *)
Variable GravityServicePortName : string.
Variable GravityServiceName : string.

(** The port of the service, lines 69-75: the first port of that name
    ends the search. *)
Fixpoint servicePort (ports : list ServicePort) : int32 :=
  match ports with
  | [] => 0
  | p :: rest =>
      if String.eqb (sp_Name p) GravityServicePortName
      then sp_Port p
      else servicePort rest
  end.

(** The loop over the ingresses, lines 79-83. *)
Fixpoint ingressURL (port : int32) (ingresses : list LoadBalancerIngress)
  : option string :=
  match ingresses with
  | [] => None
  | ingress :: rest =>
      if negb (String.eqb (ing_Hostname ingress) "")
      then Some ("https://" ++ hostPort (ing_Hostname ingress) port)
      else ingressURL port rest
  end.

(** [getServiceURL] once the service is fetched, lines 69-84. *)
Definition serviceURL (service : Service) : string * option error :=
  let port := servicePort (svc_Ports service) in
  if port =? 0
  then ("", Some (trace_NotFound
                    ("no port " ++ dquote ++ GravityServicePortName ++ dquote
                     ++ " found for service "
                     ++ dquote ++ GravityServiceName ++ dquote)))
  else
    match ingressURL port (svc_Ingress service) with
    | Some url => (url, None)
    | None => ("", Some (trace_NotFound
                           ("ingress load balancer not found for "
                            ++ GravityServiceName)))
    end.

(** The operator, the cluster and the publishing methods of the
    autoscaler ([publishJoinToken] and [publishServiceURL] are in another
    file of the package), as they answer after what happened so far.
    [env_GetLocalSite] answers with the key of the local cluster,
    [env_GetExpandToken] with the token. *)
Record Env : Type := {
  env_GetLocalSite : list Call -> string + error;
  env_GetExpandToken : list Call -> string -> string + error;
  env_GetService : list Call -> Service + error;
  env_publishJoinToken : list Call -> string -> option error;
  env_publishServiceURL : list Call -> string -> option error
}.

Variable env : Env.

(** [getServiceURL], lines 64-85. *)
Definition getServiceURL : Traced Call (string * option error) :=
  r <~ ask (env_GetService env) GetService ;;
  match r with
  | inr err => traced_ret ("", trace_Wrap (Some err))
  | inl service => traced_ret (serviceURL service)
  end.

(** [syncToken], lines 53-62. *)
Definition syncToken (cluster : string) : Traced Call (option error) :=
  r <~ ask (fun h => env_GetExpandToken env h cluster) (GetExpandToken cluster) ;;
  match r with
  | inr err => traced_ret (trace_Wrap (Some err))
  | inl joinToken =>
      err <~ ask (fun h => env_publishJoinToken env h joinToken)
                 (PublishJoinToken joinToken) ;;
      traced_ret (trace_Wrap err)
  end.

(** [syncMasterService], lines 87-93. *)
Definition syncMasterService : Traced Call (option error) :=
  r <~ getServiceURL ;;
  match snd r with
  | Some err => traced_ret (trace_Wrap (Some err))
  | None =>
      ask (fun h => env_publishServiceURL env h (fst r)) (PublishServiceURL (fst r))
  end.

(** [syncDiscovery], lines 37-51. *)
Definition syncDiscovery : Traced Call (option error) :=
  r <~ ask (env_GetLocalSite env) GetLocalSite ;;
  match r with
  | inr err => traced_ret (trace_Wrap (Some err))
  | inl cluster =>
      err <~ syncToken cluster ;;
      match err with
      | Some e => traced_ret (trace_Wrap (Some e))
      | None =>
          err <~ syncMasterService ;;
          traced_ret (trace_Wrap err)
      end
  end.



End Discovery.




End aws.

(** ** Package [service], files [installer.go] and [sync.go] *)

Module service.

Record Locator : Type := {
  Repository : string;
  loc_Name : string;
  Version : string
}.

Record PackageEnvelope : Type := {
  env_Locator : Locator;
  env_RuntimeLabels : list (string * string);
  env_Manifest : string;
  env_SizeBytes : Z
}.

(** An open stream of package bytes. *)
Definition Reader := nat.

Inductive Call : Type :=
| ReadPackage (service : string) (locator : Locator)
              (answer : PackageEnvelope * Reader + error)
| Close (reader : Reader)
| UpsertRepository (service : string) (repository : string)
                   (answer : option error)
| CreatePackage (service : string) (locator : Locator) (reader : Reader)
                (labels : list (string * string)) (answer : option error)
| CreateAppWithManifest (service : string) (locator : Locator)
                        (manifest : string) (reader : Reader)
                        (answer : option error)
| GetDependencies (app : Locator)
                  (answer : list Locator * list Locator + error)
| Infof (msg : string) (locators : list Locator).

(** [pack.PackageService] and the [applications] service, as they answer
    after what happened so far. *)
Record PackageService : Type := {
  ps_Name : string;
  ps_ReadPackage : list Call -> Locator -> PackageEnvelope * Reader + error;
  ps_UpsertRepository : list Call -> string -> option error;
  ps_CreatePackage :
    list Call -> Locator -> Reader -> list (string * string) -> option error
}.

Record applications : Type := {
  Packages : PackageService;
  apps_CreateAppWithManifest :
    list Call -> Locator -> string -> Reader -> option error
}.

(** The application that is packed into an installer. *)
Record Application : Type := {
  app_Package : Locator
}.

(** What a sequence of calls shows: the readers it opened and the ones
    it closed, the packages it asked to read, and whether a call came
    back with an error. *)
Definition opened (calls : list Call) : list Reader :=
  flat_map (fun c => match c with
                     | ReadPackage _ _ (inl (_, reader)) => [reader]
                     | _ => []
                     end) calls.

Definition closed (calls : list Call) : list Reader :=
  flat_map (fun c => match c with
                     | Close reader => [reader]
                     | _ => []
                     end) calls.

Definition reads (calls : list Call) : list Locator :=
  flat_map (fun c => match c with
                     | ReadPackage _ locator _ => [locator]
                     | _ => []
                     end) calls.

Definition failed (c : Call) : bool :=
  match c with
  | ReadPackage _ _ (inr _) => true
  | UpsertRepository _ _ (Some _) => true
  | CreatePackage _ _ _ _ (Some _) => true
  | CreateAppWithManifest _ _ _ _ (Some _) => true
  | GetDependencies _ (inr _) => true
  | _ => false
  end.

Section Installer.
(** [trace.IsAlreadyExists] *)
Variable trace_IsAlreadyExists : error -> bool.

(** A creation that failed because the application is there already. *)
Definition skipped (c : Call) : bool :=
  match c with
  | CreateAppWithManifest _ _ _ _ (Some e) => trace_IsAlreadyExists e
  | _ => false
  end.

(** The deferred [reader.Close()] calls run when the function returns,
    the last deferred first. *)
Fixpoint runDeferred (deferred : list Reader) : Traced Call unit :=
  match deferred with
  | [] => traced_ret tt
  | reader :: rest =>
      (fun h => (tt, (h ++ [Close reader])%list)) ~;; runDeferred rest
  end.

(** The loop of [pullPackages], lines 217-232; [deferred] holds the
    readers to close, the last deferred first. *)
Fixpoint pullPackagesLoop (locators : list Locator)
         (localPackages remotePackages : PackageService)
         (deferred : list Reader)
  : Traced Call (option error * list Reader) :=
  match locators with
  | [] => traced_ret (None, deferred)
  | locator :: rest =>
      r <~ ask (fun h => ps_ReadPackage remotePackages h locator)
               (ReadPackage (ps_Name remotePackages) locator) ;;
      match r with
      | inr err => traced_ret (trace_Wrap (Some err), deferred)
      | inl (envelope, reader) =>
          let deferred := reader :: deferred in
          err <~ ask (fun h => ps_UpsertRepository localPackages h
                                 (Repository locator))
                     (UpsertRepository (ps_Name localPackages)
                                       (Repository locator)) ;;
          match err with
          | Some e => traced_ret (trace_Wrap (Some e), deferred)
          | None =>
              err <~ ask (fun h => ps_CreatePackage localPackages h
                                     (env_Locator envelope) reader
                                     (env_RuntimeLabels envelope))
                         (CreatePackage (ps_Name localPackages)
                                        (env_Locator envelope) reader
                                        (env_RuntimeLabels envelope)) ;;
              match err with
              | Some e => traced_ret (trace_Wrap (Some e), deferred)
              | None =>
                  pullPackagesLoop rest localPackages remotePackages deferred
              end
          end
      end
  end.

(** [pullPackages], lines 214-234. *)
Definition pullPackages (locators : list Locator)
           (localPackages remotePackages : PackageService)
  : Traced Call (option error) :=
  (fun h => (tt, (h ++ [Infof "Pulling packages" locators])%list)) ~;;
  r <~ pullPackagesLoop locators localPackages remotePackages [] ;;
  runDeferred (snd r) ~;;
  traced_ret (fst r).

(** The loop of [pullApplications], lines 240-252. *)
Fixpoint pullApplicationsLoop (locators : list Locator)
         (localApps remoteApps : applications) (deferred : list Reader)
  : Traced Call (option error * list Reader) :=
  match locators with
  | [] => traced_ret (None, deferred)
  | locator :: rest =>
      r <~ ask (fun h => ps_ReadPackage (Packages remoteApps) h locator)
               (ReadPackage (ps_Name (Packages remoteApps)) locator) ;;
      match r with
      | inr err => traced_ret (trace_Wrap (Some err), deferred)
      | inl (envelope, reader) =>
          let deferred := reader :: deferred in
          err <~ ask (fun h => apps_CreateAppWithManifest localApps h
                                 (env_Locator envelope) (env_Manifest envelope)
                                 reader)
                     (CreateAppWithManifest (ps_Name (Packages localApps))
                                            (env_Locator envelope)
                                            (env_Manifest envelope) reader) ;;
          match err with
          | Some e =>
              if negb (trace_IsAlreadyExists e)
              then traced_ret (trace_Wrap (Some e), deferred)
              else pullApplicationsLoop rest localApps remoteApps deferred
          | None => pullApplicationsLoop rest localApps remoteApps deferred
          end
      end
  end.

(** [pullApplications], lines 237-255. *)
Definition pullApplications (locators : list Locator)
           (localApps remoteApps : applications)
  : Traced Call (option error) :=
  (fun h => (tt, (h ++ [Infof "Pulling applications" locators])%list)) ~;;
  r <~ pullApplicationsLoop locators localApps remoteApps [] ;;
  runDeferred (snd r) ~;;
  traced_ret (fst r).

(** [appservice.GetDependencies] belongs to package [lib/app]: it
    answers with the packages and the applications that the application
    depends on. *)
Variable appservice_GetDependencies :
  list Call -> Locator -> list Locator * list Locator + error.

(** [pullDependencies], lines 195-211. *)
Definition pullDependencies (app : Application)
           (localApps remoteApps : applications)
  : Traced Call (option error) :=
  r <~ ask (fun h => appservice_GetDependencies h (app_Package app))
           (GetDependencies (app_Package app)) ;;
  match r with
  | inr err => traced_ret (trace_Wrap (Some err))
  | inl (packages, apps) =>
      err <~ pullPackages packages (Packages localApps) (Packages remoteApps) ;;
      match err with
      | Some e => traced_ret (trace_Wrap (Some e))
      | None =>
          let apps := (apps ++ [app_Package app])%list in
          err <~ pullApplications apps localApps remoteApps ;;
          match err with
          | Some e => traced_ret (trace_Wrap (Some e))
          | None => traced_ret None
          end
      end
  end.
End Installer.

End service.

(** ** Package [system]: mount units *)

Module system.

Record MountConfig : Type := {
  What : string;
  Where : string;
  Filesystem : string;
  Options : list string
}.

Record MountServiceSpec : Type := {
  spec_Where : string;
  spec_What : string;
  spec_Type : string
}.

Record NewMountServiceRequest : Type := {
  ServiceSpec : MountServiceSpec;
  req_Name : string
}.

Inductive Call : Type :=
| StopService (service : string) (answer : option error)
| InstallMountService (req : NewMountServiceRequest) (answer : option error)
| StatusService (service : string) (answer : string + error)
| UninstallService (service : string) (answer : option error)
| Warnf (service : string) (err : error)
| Debugf (status : string).

(** [systemservice.ServiceManager], as it answers after what happened
    so far. *)
Record ServiceManager : Type := {
  sm_StopService : list Call -> string -> option error;
  sm_InstallMountService : list Call -> NewMountServiceRequest -> option error;
  sm_StatusService : list Call -> string -> string + error;
  sm_UninstallService : list Call -> string -> option error
}.

Section Mounts.
(** The [Path] method of [storage.DeviceName]. *)
Variable DeviceName_Path : string -> string.

(** [Mount], lines 13-34. *)
Definition Mount (config : MountConfig) (service : string)
           (services : ServiceManager) : Traced Call (option error) :=
  let spec := {| spec_Where := Where config;
                 spec_What := DeviceName_Path (What config);
                 spec_Type := Filesystem config |} in
  let req := {| ServiceSpec := spec; req_Name := service |} in
  err <~ ask (fun h => sm_StopService services h service) (StopService service) ;;
  match err with
  | Some e => fun h => (tt, (h ++ [Warnf service e])%list)
  | None => traced_ret tt
  end ~;;
  err <~ ask (fun h => sm_InstallMountService services h req)
             (InstallMountService req) ;;
  match err with
  | Some e => traced_ret (trace_Wrap (Some e))
  | None => traced_ret None
  end.

(** [Unmount], lines 37-50. *)
Definition Unmount (service : string) (services : ServiceManager)
  : Traced Call (option error) :=
  r <~ ask (fun h => sm_StatusService services h service) (StatusService service) ;;
  match r with
  | inr err => traced_ret (trace_Wrap (Some err))
  | inl status =>
      (fun h => (tt, (h ++ [Debugf status])%list)) ~;;
      err <~ ask (fun h => sm_UninstallService services h service)
                 (UninstallService service) ;;
      match err with
      | Some e => traced_ret (trace_Wrap (Some e))
      | None => traced_ret None
      end
  end.
End Mounts.

End system.

(** ** Package [service], file [sync.go] *)

Module sync.

(** What [SyncApp] reads of an application: the base application and the
    dependencies of its manifest. *)
Record Application : Type := {
  app_Base : option service.Locator;
  app_Dependencies : list service.Locator
}.

Inductive Call : Type :=
| GetApp (package : service.Locator) (answer : Application + error)
| TempDir (answer : string + error)
| RemoveAll (dir : string) (answer : option error)
| Unpack (package : service.Locator) (path : string) (answer : option error)
| IsDirectory (path : string) (answer : bool)
| IsDirectoryEmpty (path : string) (answer : bool + error)
| Sync (path : string) (answer : option error)
| Warningf (msg : string) (path : string)
| Infof (package : service.Locator).

(** The services of the request and the file system, as they answer
    after what happened so far. *)
Record Env : Type := {
  env_GetApp : list Call -> service.Locator -> Application + error;
  env_TempDir : list Call -> string + error;
  env_RemoveAll : list Call -> string -> option error;
  env_Unpack : list Call -> service.Locator -> string -> option error;
  env_IsDirectory : list Call -> string -> bool;
  env_IsDirectoryEmpty : list Call -> string -> bool + error;
  env_Sync : list Call -> string -> option error
}.

(** A recursion that ended, or one that is deeper than the depth looked
    at. *)
Inductive Run (A : Type) : Type :=
| Deeper
| Ended (a : A).
Arguments Deeper {A}.
Arguments Ended {A} a.

Section SyncApp.
Variable env : Env.
(** [pack.PackagePath] and [filepath.Join] *)
Variable pack_PackagePath : string -> service.Locator -> string.
Variable filepath_Join : string -> string -> string.

(** The loop over the dependencies, lines 49-59. *)
Fixpoint syncAll (syncOne : service.Locator -> Traced Call (Run (option error)))
         (deps : list service.Locator) : Traced Call (Run (option error)) :=
  match deps with
  | [] => traced_ret (Ended None)
  | dep :: rest =>
      r <~ syncOne dep ;;
      match r with
      | Deeper => traced_ret Deeper
      | Ended (Some e) => traced_ret (Ended (trace_Wrap (Some e)))
      | Ended None => syncAll syncOne rest
      end
  end.

(** Lines 73-103, with the temporary directory at hand. *)
Definition syncUnpacked (package : service.Locator) (dir : string)
  : Traced Call (option error) :=
  let unpackedPath := pack_PackagePath dir package in
  err <~ ask (fun h => env_Unpack env h package unpackedPath)
             (Unpack package unpackedPath) ;;
  match err with
  | Some e => traced_ret (trace_Wrap (Some e))
  | None =>
      let syncPath := filepath_Join unpackedPath "registry" in
      exists_ <~ ask (fun h => env_IsDirectory env h syncPath)
                     (IsDirectory syncPath) ;;
      if negb exists_
      then
        (fun h => (tt, (h ++ [Warningf "registry dir does not exist, skipping sync"
                                       syncPath])%list)) ~;;
        traced_ret None
      else
        r <~ ask (fun h => env_IsDirectoryEmpty env h syncPath)
                 (IsDirectoryEmpty syncPath) ;;
        match r with
        | inr e => traced_ret (trace_Wrap (Some e))
        | inl true =>
            (fun h => (tt, (h ++ [Warningf "registry directory is empty, skipping sync"
                                           syncPath])%list)) ~;;
            traced_ret None
        | inl false =>
            (fun h => (tt, (h ++ [Infof package])%list)) ~;;
            err <~ ask (fun h => env_Sync env h syncPath) (Sync syncPath) ;;
            match err with
            | Some e => traced_ret (trace_Wrap (Some e))
            | None => traced_ret None
            end
        end
  end.

(** [SyncApp], lines 28-104; [depth] bounds the depth of the recursion
    through the base application and the dependencies. *)
Fixpoint SyncApp (depth : nat) (package : service.Locator)
  : Traced Call (Run (option error)) :=
  match depth with
  | O => traced_ret Deeper
  | Datatypes.S depth' =>
      r <~ ask (fun h => env_GetApp env h package) (GetApp package) ;;
      match r with
      | inr err => traced_ret (Ended (trace_Wrap (Some err)))
      | inl application =>
          rb <~ match app_Base application with
                | Some base =>
                    r <~ SyncApp depth' base ;;
                    match r with
                    | Deeper => traced_ret Deeper
                    | Ended err => traced_ret (Ended (trace_Wrap err))
                    end
                | None => traced_ret (Ended None)
                end ;;
          match rb with
          | Deeper => traced_ret Deeper
          | Ended (Some e) => traced_ret (Ended (Some e))
          | Ended None =>
              rd <~ syncAll (SyncApp depth') (app_Dependencies application) ;;
              match rd with
              | Deeper => traced_ret Deeper
              | Ended (Some e) => traced_ret (Ended (Some e))
              | Ended None =>
                  t <~ ask (env_TempDir env) TempDir ;;
                  match t with
                  | inr err => traced_ret (Ended (trace_Wrap (Some err)))
                  | inl dir =>
                      result <~ syncUnpacked package dir ;;
                      err <~ ask (fun h => env_RemoveAll env h dir) (RemoveAll dir) ;;
                      match err with
                      | Some _ =>
                          fun h => (tt, (h ++ [Warningf "failed to remove" dir])%list)
                      | None => traced_ret tt
                      end ~;;
                      traced_ret (Ended result)
                  end
              end
          end
      end
  end.
End SyncApp.

(** What a sequence of calls does to temporary directories, in order:
    [true] with a directory that was created, [false] with one that was
    asked to be removed. *)
Definition tempEvents (calls : list Call) : list (bool * string) :=
  flat_map (fun c => match c with
                     | TempDir (inl dir) => [(true, dir)]
                     | RemoveAll dir _ => [(false, dir)]
                     | _ => []
                     end) calls.

(** The three calls in front of a sync of the registry at [path]: the
    directory is there, it is not empty, and the sync is announced. *)
Definition syncGuard (package : service.Locator) (path : string) : list Call :=
  [ IsDirectory path true; IsDirectoryEmpty path (inl false); Infof package ].

End sync.

(** ** A cluster to run the queries on

    One node with an internal and an external address, the namespace
    [default] and two services under the selector [app=web]: one behind
    a load balancer, one exposed on a node port.  The first call for a
    client fails, the later ones reach the cluster. *)

Definition exWeb : Service :=
  {| svc_Ports := [ {| sp_Name := "https"; sp_Port := 443; sp_NodePort := 30443 |} ];
     svc_ClusterIP := "10.0.10.100";
     svc_Ingress := [ {| ing_Hostname := "lb.example.com" |} ] |}.

Definition exAdmin : Service :=
  {| svc_Ports := [ {| sp_Name := "admin"; sp_Port := 8080; sp_NodePort := 30080 |} ];
     svc_ClusterIP := "10.0.10.101";
     svc_Ingress := [] |}.

Definition exNode : Node :=
  {| node_Addresses :=
       [ {| na_Type := "InternalIP"; na_Address := "10.0.0.7" |};
         {| na_Type := "ExternalIP"; na_Address := "54.1.2.3" |} ] |}.

Definition exSelector (labels : list (string * string)) : string :=
  String.concat "," (map (fun kv => fst kv ++ "=" ++ snd kv) labels).

Definition exCluster : Clientset :=
  {| Nodes_List := inl [exNode];
     Namespaces_List := inl [ {| ns_Name := "default" |} ];
     Services_List := fun ns selector =>
       if String.eqb ns "default" && String.eqb selector "app=web"
       then inl [exWeb; exAdmin]
       else inr (RawErr OtherError "the server could not find the requested resource");
     Services_Get := fun _ _ => inr (trace_NotFound "service not found") |}.

Definition exDial (n : nat) : Clientset + error :=
  match n with
  | O => inr (RawErr ConnectionRefused "dial tcp 127.0.0.1:6443: connection refused")
  | Datatypes.S _ => inl exCluster
  end.

Definition exManifest : list opsservice.ManifestEndpoint :=
  [ {| opsservice.me_Name := "Web";
       opsservice.me_Description := "The site";
       opsservice.me_Selector := [("app", "web")];
       opsservice.me_Port := 443;
       opsservice.me_Protocol := "https";
       opsservice.me_Hidden := false |};
    {| opsservice.me_Name := "Debug";
       opsservice.me_Description := "Profiling";
       opsservice.me_Selector := [("app", "debug")];
       opsservice.me_Port := 0;
       opsservice.me_Protocol := "";
       opsservice.me_Hidden := true |} ].

Definition exOpenSite (key : string) : list opsservice.ManifestEndpoint + error :=
  if String.eqb key "example.com"
  then inl exManifest
  else inr (trace_NotFound "site not found").

Definition exOperator : opsservice.Operator :=
  {| opsservice.kubeClient := None; opsservice.dials := 1 |}.

(** The gravity service of that cluster, behind a load balancer whose
    first ingress has no host name yet. *)

Definition exGravitySite : Service :=
  {| svc_Ports := [ {| sp_Name := "web"; sp_Port := 3009; sp_NodePort := 32009 |} ];
     svc_ClusterIP := "10.100.0.5";
     svc_Ingress := [ {| ing_Hostname := "" |};
                      {| ing_Hostname := "elb.amazonaws.com" |} ] |}.

(** Packages and applications to pull and to sync: the application
    [site] is built on [kubernetes] and depends on [dns-app]; every read
    opens a new reader. *)

Definition exLocator (name : string) : service.Locator :=
  {| service.Repository := "gravitational.io";
     service.loc_Name := name;
     service.Version := "1.0.0" |}.

Definition exPackages (name : string) : service.PackageService :=
  {| service.ps_Name := name;
     service.ps_ReadPackage := fun h locator =>
       inl ({| service.env_Locator := locator;
               service.env_RuntimeLabels := [];
               service.env_Manifest := "manifest";
               service.env_SizeBytes := 1024 |},
            List.length (service.opened h));
     service.ps_UpsertRepository := fun _ _ => None;
     service.ps_CreatePackage := fun _ _ _ _ => None |}.

Definition exApps (name : string) : service.applications :=
  {| service.Packages := exPackages name;
     service.apps_CreateAppWithManifest := fun _ _ _ _ => None |}.

Definition exGetDependencies (h : list service.Call) (app : service.Locator)
  : list service.Locator * list service.Locator + error :=
  inl ([exLocator "planet"], [exLocator "dns-app"]).

Definition exApplication (package : service.Locator) : sync.Application :=
  if String.eqb (service.loc_Name package) "site"
  then {| sync.app_Base := Some (exLocator "kubernetes");
          sync.app_Dependencies := [exLocator "dns-app"] |}
  else {| sync.app_Base := None; sync.app_Dependencies := [] |}.

Definition exRank (package : service.Locator) : nat :=
  if String.eqb (service.loc_Name package) "site" then 1 else 0.

Definition exSyncEnv : sync.Env :=
  {| sync.env_GetApp := fun _ package => inl (exApplication package);
     sync.env_TempDir := fun h =>
       inl ("/tmp/sync" ++ itoa (Z.of_nat (List.length h)));
     sync.env_RemoveAll := fun _ _ => None;
     sync.env_Unpack := fun _ _ _ => None;
     sync.env_IsDirectory := fun _ _ => true;
     sync.env_IsDirectoryEmpty := fun _ _ => inl false;
     sync.env_Sync := fun _ _ => None |}.

(** The same, with every application built on itself. *)
Definition exCycleEnv : sync.Env :=
  {| sync.env_GetApp := fun _ package =>
       inl {| sync.app_Base := Some package; sync.app_Dependencies := [] |};
     sync.env_TempDir := sync.env_TempDir exSyncEnv;
     sync.env_RemoveAll := sync.env_RemoveAll exSyncEnv;
     sync.env_Unpack := sync.env_Unpack exSyncEnv;
     sync.env_IsDirectory := sync.env_IsDirectory exSyncEnv;
     sync.env_IsDirectoryEmpty := sync.env_IsDirectoryEmpty exSyncEnv;
     sync.env_Sync := sync.env_Sync exSyncEnv |}.

Definition exPackagePath (dir : string) (package : service.Locator) : string :=
  dir ++ "/" ++ service.loc_Name package.

Definition exJoin (a b : string) : string := a ++ "/" ++ b.

(** * Properties *)

(** ** The backoff loop *)

Section RetryFacts.
Context {S : Type}.
Variables (ctx : Context) (b : BackOff).

(** One turn of the loop. *)
Lemma RetryLoop_step (fn : Func S) (n : nat) (now : Time) (s : S) :
  RetryLoop ctx b fn n now s =
  let '(err, d, s') := fn now s in
  match err with
  | None => (None, (now + d)%N, s')
  | Some (PermanentError e) => (Some e, (now + d)%N, s')
  | Some e =>
      if (now + d + Npos (b n) <? Deadline ctx)%N
      then RetryLoop ctx b fn (Datatypes.S n) (now + d + Npos (b n))%N s'
      else (Some e, N.max (now + d) (Deadline ctx), s')
  end.
Proof.
  rewrite RetryLoop_equation_1.
  destruct (fn now s) as [[[e|] d] s']; [destruct e|]; simp RetryLoop;
    try reflexivity.
  - destruct (N_lt_dec _ _) as [Hlt|Hge]; simp RetryLoop.
    + apply N.ltb_lt in Hlt. rewrite Hlt. reflexivity.
    + apply N.ltb_ge in Hge. rewrite Hge. reflexivity.
  - destruct (N_lt_dec _ _) as [Hlt|Hge]; simp RetryLoop.
    + apply N.ltb_lt in Hlt. rewrite Hlt. reflexivity.
    + apply N.ltb_ge in Hge. rewrite Hge. reflexivity.
Qed.

Lemma transientRun_mono (fn : Func S) n now s m now' s' :
  transientRun b fn n now s m now' s' ->
  (n <= m)%nat /\ (now <= now')%N.
Proof.
  induction 1 as [|n now s e d s1 m now' s' _ _ _ [IHn IHt]]; [split; lia|].
  split; lia.
Qed.

Lemma classified_transient (fn : Func S) now s e d s1 :
  fn now s = (Some e, d, s1) ->
  IsConnectionRefusedError e = true ->
  exists e', classified fn now s = (Some (TraceErr e'), d, s1)
             /\ trace_Wrap (Some e) = Some (TraceErr e').
Proof.
  intros Hfn Hc. unfold classified. rewrite Hfn, Hc.
  destruct e as [c msg|e|e]; simpl; eauto.
Qed.

Lemma classified_permanent (fn : Func S) now s e d s1 :
  fn now s = (Some e, d, s1) ->
  IsConnectionRefusedError e = false ->
  classified fn now s = (Some (PermanentError e), d, s1).
Proof.
  intros Hfn Hc. unfold classified. rewrite Hfn, Hc. reflexivity.
Qed.

Lemma classified_success (fn : Func S) now s d s1 :
  fn now s = (None, d, s1) ->
  classified fn now s = (None, d, s1).
Proof.
  intros Hfn. unfold classified. rewrite Hfn. reflexivity.
Qed.

(** A run of transient failures that ends before the deadline takes
    the loop to the attempt the run leads to. *)
Lemma RetryLoop_transientRun (fn : Func S) n now s m now' s' :
  transientRun b fn n now s m now' s' ->
  n = m \/ (now' < Deadline ctx)%N ->
  RetryLoop ctx b (classified fn) n now s
  = RetryLoop ctx b (classified fn) m now' s'.
Proof.
  induction 1 as [|n now s e d s1 m now' s' Hfn Hc Hrun IH]; [reflexivity|].
  intros Hlive.
  destruct (transientRun_mono _ _ _ _ _ _ _ Hrun) as [Hnm Ht].
  assert (Hlt : (now' < Deadline ctx)%N) by (destruct Hlive; [lia|assumption]).
  rewrite RetryLoop_step.
  destruct (classified_transient _ _ _ _ _ _ Hfn Hc) as [e' [-> _]].
  assert (Hgo : (now + d + N.pos (b n) <? Deadline ctx)%N = true)
    by (apply N.ltb_lt; lia).
  rewrite Hgo. apply IH. right. exact Hlt.
Qed.
(** Induction along the attempts of the loop: an attempt is followed by
    another one only when its wait ends before the deadline. *)
Lemma RetryLoop_induction (fn : Func S) (P : nat -> Time -> S -> Prop) :
  (forall n now s,
      (forall e d s',
          fn now s = (Some e, d, s') ->
          (now + d + Npos (b n) < Deadline ctx)%N ->
          P (Datatypes.S n) (now + d + Npos (b n))%N s') ->
      P n now s) ->
  forall n now s, P n now s.
Proof.
  intros step n now.
  remember (N.to_nat (Deadline ctx - now)) as k eqn:Hk.
  revert n now Hk.
  induction k as [k IH] using lt_wf_ind.
  intros n now Hk s. apply step. intros e d s' _ Hlt.
  eapply (IH (N.to_nat (Deadline ctx - (now + d + Npos (b n))))); [lia|reflexivity].
Qed.

End RetryFacts.

Section RetryCounting.
Context {S : Type}.
Variables (ctx : Context) (b : BackOff) (fn : Func S).

Lemma trace_Wrap_idem (err : option error) :
  trace_Wrap (trace_Wrap err) = trace_Wrap err.
Proof. destruct err as [[c m|e|e]|]; reflexivity. Qed.

Lemma trace_Wrap_is_trace (e : error) :
  exists e', trace_Wrap (Some e) = Some (TraceErr e').
Proof. destruct e; simpl; eauto. Qed.

Lemma classified_counting now (st : nat * S) :
  classified (counting fn) now st = counting (classified fn) now st.
Proof.
  unfold classified, counting. destruct (fn now (snd st)) as [[[e|] d] s'].
  - destruct (IsConnectionRefusedError e); reflexivity.
  - reflexivity.
Qed.

Lemma transientRun_counting n now s m now' s' :
  transientRun b fn n now s m now' s' ->
  forall c, transientRun b (counting fn) n now (c, s) m now' ((c + (m - n))%nat, s').
Proof.
  induction 1 as [n now s|n now s e d s1 m now' s' Hfn Hc Hrun IH]; intros c.
  - replace (c + (n - n))%nat with c by lia. constructor.
  - destruct (transientRun_mono _ _ _ _ _ _ _ _ Hrun) as [Hnm _].
    eapply run_step with (e := e) (d := d) (s1 := (Datatypes.S c, s1)).
    + unfold counting. simpl. rewrite Hfn. reflexivity.
    + exact Hc.
    + replace (c + (m - n))%nat with (Datatypes.S c + (m - Datatypes.S n))%nat by lia.
      apply IH.
Qed.

(** Every run of the loop calls the function at least once. *)
Lemma RetryLoop_calls n now (st : nat * S) :
  (fst st < fst (snd (RetryLoop ctx b (classified (counting fn)) n now st)))%nat.
Proof.
  revert n now st.
  apply (RetryLoop_induction ctx b (classified (counting fn))
           (fun n now st =>
              (fst st < fst (snd (RetryLoop ctx b (classified (counting fn)) n now st)))%nat)).
  intros n now st IH. rewrite RetryLoop_step.
  destruct (classified (counting fn) now st) as [[err d] st'] eqn:Hcall.
  assert (Hcount : fst st' = Datatypes.S (fst st)).
  { rewrite classified_counting in Hcall. unfold counting in Hcall.
    destruct (classified fn now (snd st)) as [[err0 d0] s0].
    inversion Hcall. reflexivity. }
  destruct err as [e|]; [|simpl; lia].
  destruct (now + d + N.pos (b n) <? Deadline ctx)%N eqn:Hlt;
    destruct e; simpl; try lia.
  - apply N.ltb_lt in Hlt. specialize (IH _ _ _ eq_refl Hlt). lia.
  - apply N.ltb_lt in Hlt. specialize (IH _ _ _ eq_refl Hlt). lia.
Qed.
End RetryCounting.

Lemma retry_unfold {S : Type} (b : BackOff) (fn : Func S) start s :
  retry b fn start s =
  let '(err, t, s') :=
    RetryLoop (context_WithTimeout start maxRetryElapsedTime) b
              (classified fn) 0%nat start s in
  (trace_Wrap err, t, s').
Proof.
  unfold retry, RetryWithInterval.
  destruct (RetryLoop _ b (classified fn) 0%nat start s) as [[err t] s'].
  rewrite trace_Wrap_idem. reflexivity.
Qed.

(** What [retry] does once a run of [k] transient failures has led to
    attempt [k] before the ceiling: the next call decides. *)
Lemma retry_after_run {S : Type} (b : BackOff) (fn : Func S)
      start s0 k now s :
  transientRun b fn 0%nat start s0 k now s ->
  k = 0%nat \/ (now < start + maxRetryElapsedTime)%N ->
  (forall d s1,
      fn now s = (None, d, s1) ->
      retry b fn start s0 = (None, (now + d)%N, s1))
  /\ (forall e d s1,
         fn now s = (Some e, d, s1) ->
         IsConnectionRefusedError e = false ->
         retry b fn start s0 = (trace_Wrap (Some e), (now + d)%N, s1))
  /\ (forall e d s1,
         fn now s = (Some e, d, s1) ->
         IsConnectionRefusedError e = true ->
         (now + d + Npos (b k) < start + maxRetryElapsedTime)%N ->
         retry b fn start s0
         = (let '(err, t, s') :=
              RetryLoop (context_WithTimeout start maxRetryElapsedTime) b
                        (classified fn) (Datatypes.S k)
                        (now + d + Npos (b k))%N s1 in
            (trace_Wrap err, t, s')))
  /\ (forall e d s1,
         fn now s = (Some e, d, s1) ->
         IsConnectionRefusedError e = true ->
         (start + maxRetryElapsedTime <= now + d + Npos (b k))%N ->
         retry b fn start s0
         = (trace_Wrap (Some e),
            N.max (now + d) (start + maxRetryElapsedTime), s1)).
Proof.
  intros Hrun Hlive.
  assert (Hloop :
    RetryLoop (context_WithTimeout start maxRetryElapsedTime) b
              (classified fn) 0%nat start s0
    = RetryLoop (context_WithTimeout start maxRetryElapsedTime) b
                (classified fn) k now s).
  { apply RetryLoop_transientRun; [exact Hrun|].
    destruct Hlive as [->|Hlt]; [left; reflexivity|right; exact Hlt]. }
  repeat split.
  - intros d s1 Hfn. rewrite retry_unfold, Hloop, RetryLoop_step.
    rewrite (classified_success _ _ _ _ _ Hfn). reflexivity.
  - intros e d s1 Hfn Hc. rewrite retry_unfold, Hloop, RetryLoop_step.
    rewrite (classified_permanent _ _ _ _ _ _ Hfn Hc). reflexivity.
  - intros e d s1 Hfn Hc Hlt. rewrite retry_unfold, Hloop, RetryLoop_step.
    destruct (classified_transient _ _ _ _ _ _ Hfn Hc) as [e' [-> _]].
    apply N.ltb_lt in Hlt. simpl Deadline. rewrite Hlt. reflexivity.
  - intros e d s1 Hfn Hc Hge. rewrite retry_unfold, Hloop, RetryLoop_step.
    destruct (classified_transient _ _ _ _ _ _ Hfn Hc) as [e' [-> Hw]].
    apply N.ltb_ge in Hge. simpl Deadline. rewrite Hge.
    rewrite Hw. reflexivity.
Qed.

(** The same for a function that counts its calls. *)
Lemma retry_after_transientRun {S : Type} (b : BackOff) (fn : Func S)
      start s0 k now s :
  transientRun b fn 0%nat start s0 k now s ->
  k = 0%nat \/ (now < start + maxRetryElapsedTime)%N ->
  (forall d s1,
      fn now s = (None, d, s1) ->
      retry b (counting fn) start (0%nat, s0)
      = (None, (now + d)%N, (Datatypes.S k, s1)))
  /\ (forall e d s1,
         fn now s = (Some e, d, s1) ->
         IsConnectionRefusedError e = false ->
         retry b (counting fn) start (0%nat, s0)
         = (trace_Wrap (Some e), (now + d)%N, (Datatypes.S k, s1)))
  /\ (forall e d s1,
         fn now s = (Some e, d, s1) ->
         IsConnectionRefusedError e = true ->
         (now + d + Npos (b k) < start + maxRetryElapsedTime)%N ->
         (k + 2 <= fst (snd (retry b (counting fn) start (0%nat, s0))))%nat)
  /\ (forall e d s1,
         fn now s = (Some e, d, s1) ->
         IsConnectionRefusedError e = true ->
         (start + maxRetryElapsedTime <= now + d + Npos (b k))%N ->
         retry b (counting fn) start (0%nat, s0)
         = (trace_Wrap (Some e),
            N.max (now + d) (start + maxRetryElapsedTime),
            (Datatypes.S k, s1))).
Proof.
  intros Hrun Hlive.
  pose proof (transientRun_counting b fn _ _ _ _ _ _ Hrun 0%nat) as Hrunc.
  replace (0 + (k - 0))%nat with k in Hrunc by lia.
  destruct (retry_after_run b (counting fn) start (0%nat, s0) k now (k, s)
              Hrunc Hlive) as (Hok & Hperm & Hretry & Hstop).
  assert (Hcall : forall err d s1,
             fn now s = (err, d, s1) ->
             counting fn now (k, s) = (err, d, (Datatypes.S k, s1))).
  { intros err d s1 Hfn. unfold counting. simpl. rewrite Hfn. reflexivity. }
  repeat split.
  - intros d s1 Hfn. exact (Hok _ _ (Hcall _ _ _ Hfn)).
  - intros e d s1 Hfn Hc. exact (Hperm _ _ _ (Hcall _ _ _ Hfn) Hc).
  - intros e d s1 Hfn Hc Hlt. rewrite (Hretry _ _ _ (Hcall _ _ _ Hfn) Hc Hlt).
    pose proof (RetryLoop_calls (context_WithTimeout start maxRetryElapsedTime)
                  b fn (Datatypes.S k) (now + d + N.pos (b k))%N
                  (Datatypes.S k, s1)) as Hcalls.
    simpl in Hcalls.
    destruct (RetryLoop _ b (classified (counting fn)) (Datatypes.S k) _ _)
      as [[err t] st]. simpl in *. lia.
  - intros e d s1 Hfn Hc Hge. exact (Hstop _ _ _ (Hcall _ _ _ Hfn) Hc Hge).
Qed.

(** C1 (as amended).  [retry] sorts the errors of the wrapped function in
    two, at every attempt [k] reached after [k] transient failures whose
    waits ended before the five-minute ceiling: an error that is not a
    connection-refused error stops the loop at once and is returned; a
    connection-refused error is retried when its wait ends before the
    ceiling, and is returned when it does not.  In particular a function
    that fails twice with a transient error and then succeeds yields
    success after exactly 3 calls when both waits end before the ceiling,
    and a function that first fails with another error yields that error
    after exactly 1 call. *)
Theorem retry_classification {S : Type} (b : BackOff) (fn : Func S)
        (start : Time) (s0 : S) :
  (forall k now s,
      transientRun b fn 0%nat start s0 k now s ->
      k = 0%nat \/ (now < start + maxRetryElapsedTime)%N ->
      forall e d s1,
        fn now s = (Some e, d, s1) ->
        if IsConnectionRefusedError e
        then
          ((now + d + Npos (b k) < start + maxRetryElapsedTime)%N ->
           (k + 2 <= fst (snd (retry b (counting fn) start (0%nat, s0))))%nat)
          /\ ((start + maxRetryElapsedTime <= now + d + Npos (b k))%N ->
              retry b (counting fn) start (0%nat, s0)
              = (trace_Wrap (Some e),
                 N.max (now + d) (start + maxRetryElapsedTime),
                 (Datatypes.S k, s1)))
        else
          retry b (counting fn) start (0%nat, s0)
          = (trace_Wrap (Some e), (now + d)%N, (Datatypes.S k, s1)))
  /\ (forall e1 d1 s1 e2 d2 s2 d3 s3,
         let t1 := (start + d1 + Npos (b 0%nat))%N in
         let t2 := (t1 + d2 + Npos (b 1%nat))%N in
         fn start s0 = (Some e1, d1, s1) ->
         IsConnectionRefusedError e1 = true ->
         fn t1 s1 = (Some e2, d2, s2) ->
         IsConnectionRefusedError e2 = true ->
         fn t2 s2 = (None, d3, s3) ->
         (t2 < start + maxRetryElapsedTime)%N ->
         retry b (counting fn) start (0%nat, s0)
         = (None, (t2 + d3)%N, (3%nat, s3)))
  /\ (forall e d s1,
         fn start s0 = (Some e, d, s1) ->
         IsConnectionRefusedError e = false ->
         retry b (counting fn) start (0%nat, s0)
         = (trace_Wrap (Some e), (start + d)%N, (1%nat, s1))).
Proof.
  repeat split.
  - intros k now s Hrun Hlive e d s1 Hfn.
    destruct (retry_after_transientRun b fn start s0 k now s Hrun Hlive)
      as (_ & Hperm & Hretry & Hstop).
    destruct (IsConnectionRefusedError e) eqn:Hc.
    + split; intros Ht; eauto.
    + eauto.
  - intros e1 d1 s1 e2 d2 s2 d3 s3 t1 t2 H1 Hc1 H2 Hc2 H3 Hlt.
    assert (Hrun : transientRun b fn 0%nat start s0 2%nat t2 s2).
    { eapply run_step; [exact H1|exact Hc1|].
      eapply run_step; [exact H2|exact Hc2|]. constructor. }
    destruct (retry_after_transientRun b fn start s0 2%nat t2 s2 Hrun
                (or_intror Hlt)) as (Hok & _).
    exact (Hok d3 s3 H3).
  - intros e d s1 Hfn Hc.
    destruct (retry_after_transientRun b fn start s0 0%nat start s0
                (run_here b fn 0%nat start s0) (or_introl eq_refl))
      as (_ & Hperm & _).
    exact (Hperm e d s1 Hfn Hc).
Qed.

(** ** Concrete runs of the retry wrapper *)

Lemma retry_classification_witness :
  retry halfSecond (counting scripted) 0%N (0%nat, failsTwice)
  = (None, 4000000000%N, (3%nat, []))
  /\ retry halfSecond (counting scripted) 0%N
           (0%nat, [ {| took := Second; failure := Some badRequest |} ])
     = (Some (TraceErr badRequest), 1000000000%N, (1%nat, [])).
Proof.
  split.
  - apply (proj1 (proj2 (retry_classification halfSecond scripted 0%N failsTwice))
             refused Second (tl failsTwice) refused Second
             (tl (tl failsTwice)) Second []);
      reflexivity.
  - apply (proj2 (proj2 (retry_classification halfSecond scripted 0%N
                           [ {| took := Second; failure := Some badRequest |} ]))
             badRequest Second []); reflexivity.
Defined.

(** C1 (as stated) does not hold of a slow function: this one fails twice
    with a connection-refused error and would succeed on its third call,
    but its second call ends after the five-minute ceiling, so [retry]
    returns the transient error after 2 calls. *)
Lemma retry_ceiling_counterexample :
  retry halfSecond (counting scripted) 0%N (0%nat, slowFailsTwice)
  = (Some (TraceErr refused), 400500000000%N,
     (2%nat, [ {| took := Second; failure := None |} ]))
  /\ fst (fst (retry halfSecond (counting scripted) 0%N (0%nat, slowFailsTwice)))
     <> None
  /\ fst (snd (retry halfSecond (counting scripted) 0%N (0%nat, slowFailsTwice)))
     <> 3%nat.
Proof.
  assert (Hrun : retry halfSecond (counting scripted) 0%N (0%nat, slowFailsTwice)
                 = (Some (TraceErr refused), 400500000000%N,
                    (2%nat, [ {| took := Second; failure := None |} ]))).
  { assert (Hone : transientRun halfSecond scripted 0%nat 0%N slowFailsTwice
                     1%nat 200500000000%N (tl slowFailsTwice)).
    { eapply run_step with (e := refused); [reflexivity|reflexivity|constructor]. }
    destruct (retry_after_transientRun halfSecond scripted 0%N slowFailsTwice
                1%nat _ _ Hone (or_intror eq_refl)) as (_ & _ & _ & Hstop).
    apply (Hstop refused (200 * Second)%N); [reflexivity|reflexivity|].
    vm_compute. discriminate. }
  rewrite Hrun. repeat split; simpl; discriminate.
Qed.

(** ** The ceiling *)

Section RetryRecording.
Context {S : Type}.
Variables (ctx : Context) (b : BackOff) (fn : Func S).


End RetryRecording.


(** ** The retrying operator *)

Lemma retry_error_traced {S : Type} (b : BackOff) (fn : Func S) now s e :
  fst (fst (retry b fn now s)) = Some e -> trace_Wrap (Some e) = Some e.
Proof.
  rewrite retry_unfold.
  destruct (RetryLoop _ b (classified fn) 0%nat now s) as [[err t] s'].
  simpl. intros H.
  destruct err as [x|]; [|discriminate].
  destruct (trace_Wrap_is_trace x) as [x' Hx]. rewrite Hx in H.
  inversion H. reflexivity.
Qed.

Lemma retry_first_success {S : Type} (b : BackOff) (fn : Func S) now s d s1 :
  fn now s = (None, d, s1) ->
  retry b fn now s = (None, (now + d)%N, s1).
Proof.
  intros Hfn.
  destruct (retry_after_run b fn now s 0%nat now s (run_here b fn 0%nat now s)
              (or_introl eq_refl)) as (Hok & _).
  exact (Hok d s1 Hfn).
Qed.

Lemma retry_first_permanent {S : Type} (b : BackOff) (fn : Func S) now s e d s1 :
  fn now s = (Some e, d, s1) ->
  IsConnectionRefusedError e = false ->
  retry b fn now s = (trace_Wrap (Some e), (now + d)%N, s1).
Proof.
  intros Hfn Hc.
  destruct (retry_after_run b fn now s 0%nat now s (run_here b fn 0%nat now s)
              (or_introl eq_refl)) as (_ & Hperm & _).
  exact (Hperm e d s1 Hfn Hc).
Qed.

Section OperatorFacts.
Variable B : Type.
Variable b : BackOff.
Variables (r : retryingOperator B) (o : Operator B).
Hypothesis Ho : ro_Operator r = Some o.

Lemma withRetry_eq (fn : Func B) (w : World B) :
  withRetry b fn w
  = (Ok (fst (fst (retry b fn (clock w) (store w)))),
     advance w (snd (fst (retry b fn (clock w) (store w))))
             (snd (retry b fn (clock w) (store w)))).
Proof.
  unfold withRetry. destruct (retry b fn (clock w) (store w)) as [[err t] st].
  reflexivity.
Qed.

(** A retried call hands back what [retry] does. *)
Lemma retried_eq (fn : Func B) (w : World B) :
  bind (withRetry b fn) (fun err => ret (trace_Wrap err)) w
  = (Ok (fst (fst (retry b fn (clock w) (store w)))),
     advance w (snd (fst (retry b fn (clock w) (store w))))
             (snd (retry b fn (clock w) (store w)))).
Proof.
  unfold bind. rewrite withRetry_eq. unfold ret.
  destruct (fst (fst (retry b fn (clock w) (store w)))) as [e|] eqn:He.
  - rewrite (retry_error_traced _ _ _ _ _ He). reflexivity.
  - reflexivity.
Qed.

Lemma retrying_CreateProgressEntry_eq key entry (w : World B) :
  retrying_CreateProgressEntry b r key entry w
  = (let x := retry b (CreateProgressEntry o key entry) (clock w) (store w) in
     (Ok (fst (fst x)), advance w (snd (fst x)) (snd x))).
Proof.
  unfold retrying_CreateProgressEntry. rewrite Ho. unfold deref.
  unfold bind at 1. unfold ret at 1. apply retried_eq.
Qed.

Lemma retrying_CreateOperationPlanChange_eq key change (w : World B) :
  retrying_CreateOperationPlanChange b r key change w
  = (let x := retry b (CreateOperationPlanChange o key change)
                    (clock w) (store w) in
     (Ok (fst (fst x)), advance w (snd (fst x)) (snd x))).
Proof.
  unfold retrying_CreateOperationPlanChange. rewrite Ho. unfold deref.
  unfold bind at 1. unfold ret at 1. apply retried_eq.
Qed.

Lemma retrying_SetOperationState_eq key req (w : World B) :
  retrying_SetOperationState b r key req w
  = (let x := retry b (SetOperationState o key req) (clock w) (store w) in
     (Ok (fst (fst x)), advance w (snd (fst x)) (snd x))).
Proof.
  unfold retrying_SetOperationState. rewrite Ho. unfold deref.
  unfold bind at 1. unfold ret at 1. apply retried_eq.
Qed.

(** When the loop around the plan fetch ends without an error, the
    captured variable holds the plan of the last attempt. *)
Lemma getPlan_loop_captures ctx key n now (st : option OperationPlan * B) :
  let x := RetryLoop ctx b (classified (getPlanFunc o key)) n now st in
  fst (fst x) = None -> fst (snd x) <> None.
Proof.
  revert n now st.
  apply (RetryLoop_induction ctx b (classified (getPlanFunc o key))
           (fun n now st =>
              let x := RetryLoop ctx b (classified (getPlanFunc o key)) n now st in
              fst (fst x) = None -> fst (snd x) <> None)).
  intros n now st IH. cbv zeta. rewrite RetryLoop_step.
  destruct (classified (getPlanFunc o key) now st) as [[err d] st'] eqn:Hcall.
  destruct err as [e|].
  - destruct (now + d + N.pos (b n) <? Deadline ctx)%N eqn:Hlt.
    + apply N.ltb_lt in Hlt.
      destruct e; try (exact (IH _ _ _ eq_refl Hlt)).
      simpl. discriminate.
    + destruct e; simpl; discriminate.
  - simpl. intros _.
    unfold classified, getPlanFunc in Hcall.
    destruct (GetOperationPlan o key now (snd st)) as [[[p|e0] d0] b0];
      simpl in Hcall.
    + inversion Hcall. simpl. discriminate.
    + destruct e0; simpl in Hcall; try discriminate;
        destruct (IsConnectionRefusedError _); discriminate.
Qed.

(** A plan fetch answers with a plan, or with a traced error, never with
    neither; it leaves the log alone. *)
Lemma retrying_GetOperationPlan_result key (w : World B) :
  exists w',
    logs w' = logs w
    /\ ((exists plan, retrying_GetOperationPlan b r key w = (Ok (Some plan, None), w'))
        \/ (exists e, retrying_GetOperationPlan b r key w = (Ok (None, Some e), w')
                      /\ trace_Wrap (Some e) = Some e)).
Proof.
  unfold retrying_GetOperationPlan. rewrite Ho. unfold deref, bind, ret.
  destruct (retry b (getPlanFunc o key) (clock w) (None, store w))
    as [[err t] st] eqn:Hretry.
  exists (advance w t (snd st)). split; [reflexivity|].
  destruct err as [e|].
  - right. exists e. split.
    + rewrite (retry_error_traced b (getPlanFunc o key) (clock w) (None, store w) e);
        [reflexivity|rewrite Hretry; reflexivity].
    + apply (retry_error_traced b (getPlanFunc o key) (clock w) (None, store w) e).
      rewrite Hretry. reflexivity.
  - left. rewrite retry_unfold in Hretry.
    pose proof (getPlan_loop_captures
                  (context_WithTimeout (clock w) maxRetryElapsedTime) key
                  0%nat (clock w) (None, store w)) as Hcap.
    cbv zeta in Hcap.
    destruct (RetryLoop _ b (classified (getPlanFunc o key)) 0%nat (clock w)
                        (None, store w)) as [[err' t'] st'].
    inversion Hretry; subst. simpl in Hcap.
    destruct err' as [x|].
    + destruct (trace_Wrap_is_trace x) as [x' Hx]. rewrite Hx in H0. discriminate.
    + destruct (fst st) as [plan|] eqn:Hplan.
      * exists plan. reflexivity.
      * exfalso. apply Hcap; reflexivity.
Qed.
End OperatorFacts.

(** ** The methods of a well-formed engine *)

Section EngineFacts.
Variables B PhaseExecutor Remote Emitter : Type.
Variable b : BackOff.
Variable r : engine B PhaseExecutor Remote Emitter.
Variables (op : SiteOperation) (o : Operator B).
Hypothesis Hwf : wellFormed r op o.

Lemma logLine_eq lvl err msg (w : World B) :
  logLine r lvl err msg w
  = (Ok tt, logged w {| ll_Level := lvl; ll_Message := msg; ll_Error := err |}).
Proof.
  destruct Hwf as (_ & _ & Hl). unfold logLine.
  destruct (FieldLogger (eng_Config r)) as [l|]; [reflexivity|congruence].
Qed.

Lemma GetPlan_result (w : World B) :
  exists w',
    logs w' = logs w
    /\ ((exists plan, GetPlan b r w = (Ok (Some plan, None), w'))
        \/ (exists e, GetPlan b r w = (Ok (None, Some e), w')
                      /\ trace_Wrap (Some e) = Some e)).
Proof.
  destruct Hwf as (Hop & Ho & _).
  destruct (retrying_GetOperationPlan_result B b (operator r) o Ho (Key op) w)
    as (w' & Hlogs & [[plan Hres]|[e [Hres He]]]);
    exists w'; (split; [exact Hlogs|]).
  - left. exists plan. unfold GetPlan. rewrite Hop. unfold deref.
    unfold bind at 1. unfold ret at 1. unfold bind. rewrite Hres. reflexivity.
  - right. exists e. split; [|exact He].
    unfold GetPlan. rewrite Hop. unfold deref.
    unfold bind at 1. unfold ret at 1. unfold bind. rewrite Hres.
    cbn [fst snd]. unfold ret. rewrite He. reflexivity.
Qed.

Lemma UpdateProgress_fetch_failed params (w w1 : World B) e :
  GetPlan b r w = (Ok (None, Some e), w1) ->
  UpdateProgress b r params w = (Ok (trace_Wrap (Some e)), w1).
Proof.
  intros Hplan. unfold UpdateProgress. unfold bind at 1. rewrite Hplan.
  reflexivity.
Qed.

Lemma UpdateProgress_not_found params (w w1 : World B) plan e :
  GetPlan b r w = (Ok (Some plan, None), w1) ->
  FindPhase plan (PhaseID params) = inr e ->
  UpdateProgress b r params w = (Ok (trace_Wrap (Some e)), w1).
Proof.
  intros Hplan Hfind. unfold UpdateProgress. unfold bind at 1. rewrite Hplan.
  simpl. unfold bind at 1. unfold ret at 1. rewrite Hfind. reflexivity.
Qed.

(** With the plan fetched and the phase found, [UpdateProgress] hands
    the entry to the retried [CreateProgressEntry], logs a failure of
    that write and returns nil. *)
Lemma UpdateProgress_spec params (w w1 : World B) plan phase :
  GetPlan b r w = (Ok (Some plan, None), w1) ->
  FindPhase plan (PhaseID params) = inl phase ->
  UpdateProgress b r params w
  = progressWritten w1
      (retry b (CreateProgressEntry o (Key op)
                  (progressEntry (Key op) plan phase (clock w1)))
             (clock w1) (store w1)).
Proof.
  intros Hplan Hfind. destruct Hwf as (Hop & Ho & Hl).
  unfold UpdateProgress. unfold bind at 1. rewrite Hplan.
  simpl. unfold bind at 1. unfold ret at 1. rewrite Hfind.
  rewrite Hop. unfold deref. unfold bind at 1. unfold ret at 1.
  unfold bind at 1. unfold time_Now at 1.
  unfold bind at 1.
  rewrite (retrying_CreateProgressEntry_eq B b (operator r) o Ho).
  cbv zeta. unfold progressWritten.
  destruct (fst (fst (retry b _ (clock w1) (store w1)))) as [e|].
  - unfold bind. rewrite logLine_eq. reflexivity.
  - reflexivity.
Qed.

Lemma Complete_fetch_failed fsmErr (w w1 : World B) e :
  GetPlan b r w = (Ok (None, Some e), w1) ->
  Complete b r fsmErr w = (Ok (trace_Wrap (Some e)), w1).
Proof.
  intros Hplan. unfold Complete. unfold bind at 1. rewrite Hplan.
  reflexivity.
Qed.

(** With the plan fetched, [Complete] asks the operator, through the
    retried [SetOperationState], to mark the operation completed or
    failed; without an error to take the message from it panics. *)
Lemma Complete_spec fsmErr (w w1 : World B) plan :
  GetPlan b r w = (Ok (Some plan, None), w1) ->
  Complete b r fsmErr w
  = (if IsCompleted plan
     then
       concluded w1 markedLine
         (retry b (SetOperationState o (Key op)
                     {| req_State := OperationStateCompleted;
                        req_Message := None |})
                (clock w1) (store w1))
     else
       match fsmErr with
       | None => (Panic, w1)
       | Some e =>
           concluded w1 markedLine
             (retry b (SetOperationState o (Key op)
                         {| req_State := OperationStateFailed;
                            req_Message := Some (Error (trace_Unwrap e)) |})
                    (clock w1) (store w1))
       end).
Proof.
  intros Hplan. destruct Hwf as (Hop & Ho & Hl).
  unfold Complete. unfold bind at 1. rewrite Hplan.
  simpl. unfold bind at 1. unfold ret at 1.
  assert (Hend : forall req,
    bind (retrying_SetOperationState b (operator r) (Key op) req)
         (fun err =>
            match err with
            | Some e => ret (trace_Wrap (Some e))
            | None =>
                bind (logLine r DebugLevel None "Marked operation complete.")
                     (fun _ => ret None)
            end) w1
    = concluded w1 markedLine
        (retry b (SetOperationState o (Key op) req) (clock w1) (store w1))).
  { intros req. unfold bind at 1.
    rewrite (retrying_SetOperationState_eq B b (operator r) o Ho).
    cbv zeta. unfold concluded.
    destruct (fst (fst (retry b _ (clock w1) (store w1)))) as [e|] eqn:He.
    - rewrite (retry_error_traced _ _ _ _ _ He). reflexivity.
    - unfold bind. rewrite logLine_eq. reflexivity. }
  rewrite Hop. unfold deref.
  destruct (IsCompleted plan).
  - unfold ops_CompleteOperation.
    unfold bind at 2. unfold ret at 1.
    rewrite <- Hend. reflexivity.
  - destruct fsmErr as [e|].
    + unfold ops_FailOperation, unwrappedMessage. simpl.
      unfold deref.
      unfold bind at 2. unfold ret at 1.
      unfold bind at 2. unfold bind at 2. unfold ret at 1. unfold ret at 1.
      rewrite <- Hend. reflexivity.
    + unfold unwrappedMessage. simpl. reflexivity.
Qed.

(** [ChangePhaseState] hands its record to the retried
    [CreateOperationPlanChange]. *)
Lemma ChangePhaseState_spec id change (w : World B) :
  ChangePhaseState b r id change w
  = concluded w (appliedLine change)
      (retry b (CreateOperationPlanChange o (Key op)
                  (planChange op id change (clock w)))
             (clock w) (store w)).
Proof.
  destruct Hwf as (Hop & Ho & Hl).
  unfold ChangePhaseState. rewrite Hop. unfold deref.
  unfold bind at 1. unfold ret at 1.
  unfold bind at 1. unfold time_Now at 1.
  unfold bind at 1.
  rewrite (retrying_CreateOperationPlanChange_eq B b (operator r) o Ho).
  cbv zeta. unfold concluded.
  destruct (fst (fst (retry b _ (clock w) (store w)))) as [e|] eqn:He.
  - rewrite (retry_error_traced _ _ _ _ _ He). reflexivity.
  - unfold bind. rewrite logLine_eq. reflexivity.
Qed.
End EngineFacts.

(** ** Against the reference backend *)

Lemma served_run (b : BackOff) (mutate : MemStore -> MemStore)
      (s : MemStore) (rest : list Response) (rs : list Response) :
  Forall refusal rs ->
  forall n now,
    transientRun b (served mutate) n now (withScript s (rs ++ rest))
                 (n + List.length rs)%nat (afterRefusals b n now rs)
                 (withScript s rest).
Proof.
  induction 1 as [|resp rs (e & He & Hc) _ IH]; intros n now.
  - rewrite Nat.add_0_r. constructor.
  - simpl List.length. rewrite Nat.add_succ_r.
    eapply run_step with (e := e) (d := took resp)
                         (s1 := withScript s (rs ++ rest)).
    + unfold served. simpl. rewrite He. reflexivity.
    + exact Hc.
    + apply (IH (Datatypes.S n)).
Qed.

Lemma withScript_script (s : MemStore) :
  withScript s (ms_script s) = s.
Proof. destruct s; reflexivity. Qed.

Lemma ResolvePlan_append (plan : OperationPlan) (log : list PlanChange)
      (c : PlanChange) :
  ResolvePlan plan (log ++ [c]) = applyChange (ResolvePlan plan log) c.
Proof. unfold ResolvePlan. rewrite fold_left_app. reflexivity. Qed.

(** Induction on a phase and its sub-phases. *)
Lemma OperationPhase_nested_ind (P : OperationPhase -> Prop) :
  (forall id descr step data st req subs,
      Forall P subs -> P (mkPhase id descr step data st req subs)) ->
  forall p, P p.
Proof.
  intros H. fix IH 1. intros [id descr step data st req subs].
  apply H. induction subs as [|q subs IHsubs]; constructor.
  - apply IH.
  - exact IHsubs.
Qed.

Lemma flatten_setPhaseState (id : string) (st : PhaseState) (p : OperationPhase) :
  flatten (setPhaseState id st p) = map (setPhaseState id st) (flatten p).
Proof.
  induction p as [id' descr step data st' req subs IH]
    using OperationPhase_nested_ind.
  simpl. f_equal.
  induction IH as [|q subs Hq _ IHsubs]; [reflexivity|].
  simpl. rewrite map_app, Hq, IHsubs. reflexivity.
Qed.

Lemma FlattenPlan_applyChange (plan : OperationPlan) (c : PlanChange) :
  FlattenPlan (applyChange plan c)
  = map (setPhaseState (pc_PhaseID c) (pc_NewState c)) (FlattenPlan plan).
Proof.
  unfold FlattenPlan, applyChange. simpl.
  induction (plan_Phases plan) as [|q l IH]; [reflexivity|].
  simpl. rewrite map_app, flatten_setPhaseState, IH. reflexivity.
Qed.

Lemma find_map_phase (id id' : string) (st : PhaseState)
      (l : list OperationPhase) :
  find (fun p => String.eqb (phase_ID p) id') (map (setPhaseState id st) l)
  = option_map (setPhaseState id st)
               (find (fun p => String.eqb (phase_ID p) id') l).
Proof.
  induction l as [|q l IH]; [reflexivity|].
  simpl. destruct q as [qid descr step data st' req subs]. simpl.
  destruct (String.eqb qid id'); [reflexivity|exact IH].
Qed.

(** A logged transition shows in the plan: the phase found under the ID
    of the change is in the new state afterwards. *)
Lemma applyChange_sets_state (plan : OperationPlan) (c : PlanChange)
      (p : OperationPhase) :
  FindPhase plan (pc_PhaseID c) = inl p ->
  exists p',
    FindPhase (applyChange plan c) (pc_PhaseID c) = inl p'
    /\ phase_ID p' = phase_ID p
    /\ phase_State p' = pc_NewState c.
Proof.
  unfold FindPhase. rewrite FlattenPlan_applyChange, find_map_phase.
  destruct (find _ (FlattenPlan plan)) as [q|] eqn:Hfind; [|discriminate].
  intros H. inversion H; subst q.
  apply find_some in Hfind. destruct Hfind as [_ Hid].
  exists (setPhaseState (pc_PhaseID c) (pc_NewState c) p).
  destruct p as [pid descr step data st req subs]. simpl in *.
  rewrite Hid. repeat split.
Qed.

(** C5.  On the reference backend, with [rs] refused requests ahead of
    the one that is answered and the waits ending before the ceiling:
    [ChangePhaseState] builds a record with the phase, the new state, the
    error detail, the instant and the operation key; when the answered
    request is served, the call returns nil, the record is the one entry
    added to the change log (the entries before it are kept) and the plan
    the backend hands out is the former one with the transition applied,
    so that the phase of the change is found in its new state;
    when it meets another failure, that error is returned and the log is
    left as it was. *)
Theorem ChangePhaseState_appends_change
        {PhaseExecutor Remote Emitter : Type} (b : BackOff)
        (r : engine MemStore PhaseExecutor Remote Emitter) (op : SiteOperation)
        (id : string) (change : StateChange) (w : World MemStore)
        (rs : list Response) (resp : Response) (rest : list Response) :
  wellFormed r op memOperator ->
  ms_script (store w) = (rs ++ resp :: rest)%list ->
  Forall refusal rs ->
  rs = [] \/ (afterRefusals b 0%nat (clock w) rs < clock w + maxRetryElapsedTime)%N ->
  let record := planChange op id change (clock w) in
  let t := (afterRefusals b 0%nat (clock w) rs + took resp)%N in
  (pc_PhaseID record = sc_Phase change
   /\ pc_NewState record = sc_State change
   /\ pc_Error record = utils_ToRawTrace (sc_Error change)
   /\ pc_Created record = clock w
   /\ pc_ClusterName record = key_SiteDomain (Key op)
   /\ pc_OperationID record = key_OperationID (Key op))
  /\ (failure resp = None ->
      ChangePhaseState b r id change w
      = (Ok None,
         logged (advance w t (withChange (withScript (store w) rest) record))
                (appliedLine change))
      /\ ms_changelog (withChange (withScript (store w) rest) record)
         = (ms_changelog (store w) ++ [record])%list
      /\ planView (withChange (withScript (store w) rest) record)
         = applyChange (planView (store w)) record
      /\ forall p,
          FindPhase (planView (store w)) (sc_Phase change) = inl p ->
          exists p',
            FindPhase (planView (withChange (withScript (store w) rest) record))
                      (sc_Phase change) = inl p'
            /\ phase_State p' = sc_State change)
  /\ (forall e,
         failure resp = Some e ->
         IsConnectionRefusedError e = false ->
         ChangePhaseState b r id change w
         = (Ok (trace_Wrap (Some e)), advance w t (withScript (store w) rest))).
Proof.
  intros Hwf Hscript Hrs Hlive record t.
  split; [repeat split|].
  pose proof (served_run b (fun s => withChange s record) (store w)
                         (resp :: rest) rs Hrs 0%nat (clock w)) as Hrun.
  rewrite <- Hscript, withScript_script in Hrun. simpl in Hrun.
  assert (Hlive' : List.length rs = 0%nat
                   \/ (afterRefusals b 0%nat (clock w) rs
                       < clock w + maxRetryElapsedTime)%N).
  { destruct Hlive as [->|Hlt]; [left; reflexivity|right; exact Hlt]. }
  destruct (retry_after_run b (served (fun s => withChange s record))
              (clock w) (store w) (List.length rs) _ _ Hrun Hlive')
    as (Hok & Hperm & _).
  rewrite (ChangePhaseState_spec _ _ _ _ b r op memOperator Hwf).
  fold record.
  change (CreateOperationPlanChange memOperator (Key op) record)
    with (served (fun s => withChange s record)).
  split.
  - intros Hserved.
    assert (Hview : planView (withChange (withScript (store w) rest) record)
                    = applyChange (planView (store w)) record).
    { unfold planView. simpl. apply ResolvePlan_append. }
    split; [|split; [reflexivity|split; [exact Hview|]]].
    + rewrite (Hok (took resp) (withChange (withScript (store w) rest) record)).
      * reflexivity.
      * unfold served. simpl. rewrite Hserved. reflexivity.
    + intros p Hfind. rewrite Hview.
      destruct (applyChange_sets_state (planView (store w)) record p Hfind)
        as (p' & Hfind' & _ & Hstate).
      exists p'. split; [exact Hfind'|exact Hstate].
  - intros e He Hc.
    rewrite (Hperm e (took resp) (withScript (store w) rest)).
    + destruct (trace_Wrap_is_trace e) as [e' He'].
      rewrite He'. reflexivity.
    + unfold served. simpl. rewrite He. reflexivity.
    + exact Hc.
Qed.

Lemma exEngine_wellFormed : wellFormed exEngine exOperation memOperator.
Proof. repeat split; simpl; discriminate. Qed.

Lemma GetPlan_mem_served {PhaseExecutor Remote Emitter : Type} (b : BackOff)
      (r : engine MemStore PhaseExecutor Remote Emitter) (op : SiteOperation)
      (w : World MemStore) (resp : Response) (s' : MemStore) :
  wellFormed r op memOperator ->
  nextResponse (store w) = (resp, s') ->
  failure resp = None ->
  GetPlan b r w
  = (Ok (Some (planView s'), None), advance w (clock w + took resp)%N s').
Proof.
  intros (Hop & Ho & _) Hnext Hserved.
  unfold GetPlan. rewrite Hop. unfold deref.
  unfold bind at 1. unfold ret at 1.
  unfold retrying_GetOperationPlan. rewrite Ho. unfold deref.
  unfold bind. unfold ret at 1.
  rewrite (retry_first_success b (getPlanFunc memOperator (Key op)) (clock w)
             (None, store w) (took resp) (Some (planView s'), s')).
  - reflexivity.
  - unfold getPlanFunc. simpl. rewrite Hnext, Hserved. reflexivity.
Qed.

(** C5 on a concrete run: the first request is refused, the second one
    is served half a second later. *)
Lemma ChangePhaseState_appends_change_witness :
  ChangePhaseState halfSecond exEngine "c0ffee"
    {| sc_Phase := "/nodes/node-3"; sc_State := InProgress; sc_Error := None |}
    (exWorld [ {| took := Second; failure := Some refused |};
               {| took := Second; failure := None |} ])
  = (Ok None,
     {| clock := 2500001000%N;
        logs := [ {| ll_Level := DebugLevel;
                     ll_Message := "Applied /nodes/node-3.";
                     ll_Error := None |} ];
        store :=
          {| ms_plan := exPlan;
             ms_changelog :=
               [ {| pc_ID := "c0ffee";
                    pc_ClusterName := "example.com";
                    pc_OperationID := "op-1";
                    pc_PhaseID := "/nodes/node-3";
                    pc_NewState := InProgress;
                    pc_Error := None;
                    pc_Created := 1000%N |} ];
             ms_progress := [];
             ms_state := None;
             ms_commands := [];
             ms_script := [] |} |}).
Proof.
  refine (proj1 (proj1 (proj2 (ChangePhaseState_appends_change
            halfSecond exEngine exOperation "c0ffee"
            {| sc_Phase := "/nodes/node-3"; sc_State := InProgress;
               sc_Error := None |}
            (exWorld [ {| took := Second; failure := Some refused |};
                       {| took := Second; failure := None |} ])
            [ {| took := Second; failure := Some refused |} ]
            {| took := Second; failure := None |} []
            _ _ _ _)) _)).
  - repeat split; simpl; discriminate.
  - reflexivity.
  - constructor; [|constructor]. exists refused. split; reflexivity.
  - right. reflexivity.
  - reflexivity.
Defined.

(** ** Completion of the operation *)

Lemma concluded_ok {B : Type} (w : World B) (l : LogLine)
      (x : option error * Time * B) :
  fst (concluded w l x) <> Panic.
Proof. unfold concluded. destruct (fst (fst x)); simpl; discriminate. Qed.

(** C9.  On the failure branch [Complete] takes the message from
    [trace.Unwrap(fsmErr)]: with the fetched plan not completed, a nil
    [fsmErr] makes the call panic before anything is written, and any
    non-nil [fsmErr] makes it go on to mark the operation failed with the
    message of the unwrapped error.  With a completed plan the argument
    is not looked at. *)
Theorem Complete_requires_error
        {B PhaseExecutor Remote Emitter : Type} (b : BackOff)
        (r : engine B PhaseExecutor Remote Emitter)
        (op : SiteOperation) (o : Operator B)
        (w w1 : World B) (plan : OperationPlan) :
  wellFormed r op o ->
  GetPlan b r w = (Ok (Some plan, None), w1) ->
  (IsCompleted plan = false -> Complete b r None w = (Panic, w1))
  /\ (IsCompleted plan = false ->
      forall e,
        Complete b r (Some e) w
        = concluded w1 markedLine
            (retry b (SetOperationState o (Key op)
                        {| req_State := OperationStateFailed;
                           req_Message := Some (Error (trace_Unwrap e)) |})
                   (clock w1) (store w1))
        /\ fst (Complete b r (Some e) w) <> Panic)
  /\ (IsCompleted plan = true ->
      forall fsmErr, fst (Complete b r fsmErr w) <> Panic).
Proof.
  intros Hwf Hplan. split; [|split].
  - intros Hinc.
    rewrite (Complete_spec _ _ _ _ b r op o Hwf None w w1 plan Hplan), Hinc.
    reflexivity.
  - intros Hinc e.
    rewrite (Complete_spec _ _ _ _ b r op o Hwf (Some e) w w1 plan Hplan), Hinc.
    split; [reflexivity|apply concluded_ok].
  - intros Hdone fsmErr.
    rewrite (Complete_spec _ _ _ _ b r op o Hwf fsmErr w w1 plan Hplan), Hdone.
    apply concluded_ok.
Qed.

Lemma Complete_requires_error_witness :
  Complete halfSecond exEngine None
           (exWorld [ {| took := Second; failure := None |} ])
  = (Panic, advance (exWorld []) 1000001000%N (exStore []))
  /\ fst (Complete halfSecond exEngine (Some badRequest)
                   (exWorld [ {| took := Second; failure := None |} ]))
     <> Panic.
Proof.
  assert (Hplan :
    GetPlan halfSecond exEngine
            (exWorld [ {| took := Second; failure := None |} ])
    = (Ok (Some exPlan, None), advance (exWorld []) 1000001000%N (exStore []))).
  { apply (GetPlan_mem_served halfSecond exEngine exOperation
             (exWorld [ {| took := Second; failure := None |} ])
             {| took := Second; failure := None |} (exStore [])
             exEngine_wellFormed); reflexivity. }
  pose proof (Complete_requires_error halfSecond exEngine exOperation memOperator
                (exWorld [ {| took := Second; failure := None |} ])
                (advance (exWorld []) 1000001000%N (exStore []))
                exPlan exEngine_wellFormed Hplan) as (Hnil & Hsome & _).
  split.
  - apply Hnil. reflexivity.
  - apply (Hsome eq_refl badRequest).
Defined.

(** C2 at its failing input.  The plan of the example operation is not
    completed; [Complete] called with a nil error panics instead of
    marking the operation failed: the state of the operation in the
    backend stays unset. *)
Theorem Complete_nil_error_panics :
  IsCompleted exPlan = false
  /\ Complete halfSecond exEngine None (exWorld [])
     = (Panic, exWorld [])
  /\ ms_state (store (snd (Complete halfSecond exEngine None (exWorld []))))
     = None.
Proof.
  assert (Hplan : GetPlan halfSecond exEngine (exWorld [])
                  = (Ok (Some exPlan, None), exWorld [])).
  { apply (GetPlan_mem_served halfSecond exEngine exOperation (exWorld [])
             {| took := 0%N; failure := None |} (exStore [])
             exEngine_wellFormed); reflexivity. }
  assert (Hrun : Complete halfSecond exEngine None (exWorld [])
                 = (Panic, exWorld [])).
  { rewrite (Complete_spec _ _ _ _ halfSecond exEngine exOperation memOperator
               exEngine_wellFormed None (exWorld []) (exWorld []) exPlan Hplan).
    reflexivity. }
  rewrite Hrun. repeat split.
Qed.

(** What [Complete] does away from that input: it marks the operation
    completed when the plan is, failed with the message of the unwrapped
    error otherwise, and returns an error exactly when the plan fetch or
    that store call fails. *)
Lemma Complete_marks_operation
      {B PhaseExecutor Remote Emitter : Type} (b : BackOff)
      (r : engine B PhaseExecutor Remote Emitter)
      (op : SiteOperation) (o : Operator B) (w : World B)
      (fsmErr : option error) :
  wellFormed r op o ->
  (exists e w1,
      GetPlan b r w = (Ok (None, Some e), w1)
      /\ Complete b r fsmErr w = (Ok (Some e), w1))
  \/ (exists plan w1,
         GetPlan b r w = (Ok (Some plan, None), w1)
         /\ ((IsCompleted plan = true
              /\ Complete b r fsmErr w
                 = concluded w1 markedLine
                     (retry b (SetOperationState o (Key op)
                                 {| req_State := OperationStateCompleted;
                                    req_Message := None |})
                            (clock w1) (store w1)))
             \/ (IsCompleted plan = false
                 /\ exists e,
                     fsmErr = Some e
                     /\ Complete b r fsmErr w
                        = concluded w1 markedLine
                            (retry b (SetOperationState o (Key op)
                                        {| req_State := OperationStateFailed;
                                           req_Message :=
                                             Some (Error (trace_Unwrap e)) |})
                                   (clock w1) (store w1)))
             \/ (IsCompleted plan = false /\ fsmErr = None
                 /\ Complete b r fsmErr w = (Panic, w1)))).
Proof.
  intros Hwf.
  destruct (GetPlan_result _ _ _ _ b r op o Hwf w)
    as (w1 & _ & [[plan Hplan]|[e [Hplan He]]]).
  - right. exists plan, w1. split; [exact Hplan|].
    rewrite (Complete_spec _ _ _ _ b r op o Hwf fsmErr w w1 plan Hplan).
    destruct (IsCompleted plan).
    + left. split; reflexivity.
    + destruct fsmErr as [e|].
      * right. left. split; [reflexivity|]. exists e. split; reflexivity.
      * right. right. repeat split.
  - left. exists e, w1. split; [exact Hplan|].
    rewrite (Complete_fetch_failed _ _ _ _ b r fsmErr w w1 e Hplan), He.
    reflexivity.
Qed.

(** ** Progress *)

Lemma int_wrap_small (z : Z) :
  - 2 ^ 63 <= z < 2 ^ 63 -> int_wrap z = z.
Proof.
  intros Hz. unfold int_wrap. rewrite Z.mod_small; lia.
Qed.

Lemma utils_Max_max (a c : int) : utils_Max a c = Z.max a c.
Proof.
  unfold utils_Max. destruct (a <? c) eqn:E.
  - apply Z.ltb_lt in E. lia.
  - apply Z.ltb_ge in E. lia.
Qed.

Lemma share_of_phase (n : Z) :
  0 <= n -> int_div 100 (utils_Max n 1) = 100 / Z.max n 1.
Proof.
  intros Hn. unfold int_div. rewrite utils_Max_max.
  rewrite Z.quot_div_nonneg by lia.
  apply int_wrap_small.
  assert (0 <= 100 / Z.max n 1) by (apply Z.div_pos; lia).
  assert (100 / Z.max n 1 <= 100).
  { apply Z.div_le_upper_bound; lia. }
  lia.
Qed.

Lemma progressEntry_Completion key plan phase now :
  pe_Completion (progressEntry key plan phase now)
  = int_wrap (100 / Z.max (len (plan_Phases plan)) 1 * phase_Step phase).
Proof.
  unfold progressEntry. simpl. unfold int_mul.
  rewrite share_of_phase; [reflexivity|]. unfold len. lia.
Qed.

(** C3.  With the plan fetched and the phase found, the entry that
    [UpdateProgress] hands to [CreateProgressEntry] has as completion the
    Go [int] value of [100 / max(n, 1) * s], where [n] is the number of
    phases of the plan and [s] the step of the phase (the very integer
    [100 / max(n, 1) * s] whenever that fits 64 bits), and as message the
    description of the phase; with 4 phases at step 2 the completion is
    50. *)
Theorem UpdateProgress_completion
        {B PhaseExecutor Remote Emitter : Type} (b : BackOff)
        (r : engine B PhaseExecutor Remote Emitter)
        (op : SiteOperation) (o : Operator B) (params : Params)
        (w w1 : World B) (plan : OperationPlan) (phase : OperationPhase) :
  wellFormed r op o ->
  GetPlan b r w = (Ok (Some plan, None), w1) ->
  FindPhase plan (PhaseID params) = inl phase ->
  let n := len (plan_Phases plan) in
  let s := phase_Step phase in
  exists entry,
    UpdateProgress b r params w
    = progressWritten w1
        (retry b (CreateProgressEntry o (Key op) entry) (clock w1) (store w1))
    /\ pe_Completion entry = int_mul (int_div 100 (utils_Max n 1)) s
    /\ pe_Completion entry = int_wrap (100 / Z.max n 1 * s)
    /\ (- 2 ^ 63 <= 100 / Z.max n 1 * s < 2 ^ 63 ->
        pe_Completion entry = 100 / Z.max n 1 * s)
    /\ pe_Message entry = phase_Description phase
    /\ (n = 4 -> s = 2 -> pe_Completion entry = 50).
Proof.
  intros Hwf Hplan Hfind n s.
  exists (progressEntry (Key op) plan phase (clock w1)).
  split; [|split; [|split; [|split; [|split]]]].
  - apply (UpdateProgress_spec _ _ _ _ b r op o Hwf params w w1 plan phase
             Hplan Hfind).
  - reflexivity.
  - apply progressEntry_Completion.
  - intros Hfit. rewrite progressEntry_Completion. apply int_wrap_small.
    exact Hfit.
  - reflexivity.
  - intros Hn Hs. rewrite progressEntry_Completion. fold n s.
    rewrite Hn, Hs. reflexivity.
Qed.

Lemma UpdateProgress_completion_witness :
  exists entry,
    UpdateProgress halfSecond exEngine
                   {| PhaseID := "/nodes/node-3"; Force := false |} (exWorld [])
    = progressWritten (exWorld [])
        (retry halfSecond
               (CreateProgressEntry memOperator (Key exOperation) entry)
               1000%N (exStore []))
    /\ pe_Completion entry = 50
    /\ pe_Message entry = "Update node-3".
Proof.
  assert (Hplan : GetPlan halfSecond exEngine (exWorld [])
                  = (Ok (Some exPlan, None), exWorld [])).
  { apply (GetPlan_mem_served halfSecond exEngine exOperation (exWorld [])
             {| took := 0%N; failure := None |} (exStore [])
             exEngine_wellFormed); reflexivity. }
  destruct (UpdateProgress_completion halfSecond exEngine exOperation
              memOperator {| PhaseID := "/nodes/node-3"; Force := false |}
              (exWorld []) (exWorld []) exPlan
              (exPhase "/nodes/node-3" "Update node-3" 2 Unstarted)
              exEngine_wellFormed Hplan eq_refl)
    as (entry & Hrun & _ & _ & _ & Hmsg & Hfifty).
  exists entry. split; [exact Hrun|]. split; [|exact Hmsg].
  apply Hfifty; reflexivity.
Defined.

(** C4.  With the plan fetched and the phase found, [UpdateProgress]
    returns nil whatever becomes of the write, and a failed write leaves
    one warning in the log; [UpdateProgress] returns an error only when
    the plan fetch fails or the phase is not in the plan, and it does not
    panic. *)
Theorem UpdateProgress_best_effort
        {B PhaseExecutor Remote Emitter : Type} (b : BackOff)
        (r : engine B PhaseExecutor Remote Emitter)
        (op : SiteOperation) (o : Operator B) (params : Params)
        (w : World B) :
  wellFormed r op o ->
  (forall plan w1 phase,
      GetPlan b r w = (Ok (Some plan, None), w1) ->
      FindPhase plan (PhaseID params) = inl phase ->
      fst (UpdateProgress b r params w) = Ok None
      /\ forall e,
          fst (fst (retry b (CreateProgressEntry o (Key op)
                               (progressEntry (Key op) plan phase (clock w1)))
                          (clock w1) (store w1))) = Some e ->
          logs (snd (UpdateProgress b r params w))
          = (logs w1 ++ [failedEntryLine e])%list)
  /\ (forall e,
         fst (UpdateProgress b r params w) = Ok (Some e) ->
         (exists e0 w1, GetPlan b r w = (Ok (None, Some e0), w1))
         \/ (exists plan w1 e0,
                GetPlan b r w = (Ok (Some plan, None), w1)
                /\ FindPhase plan (PhaseID params) = inr e0))
  /\ fst (UpdateProgress b r params w) <> Panic.
Proof.
  intros Hwf. split; [|split].
  - intros plan w1 phase Hplan Hfind.
    rewrite (UpdateProgress_spec _ _ _ _ b r op o Hwf params w w1 plan phase
               Hplan Hfind).
    split; [reflexivity|].
    intros e He. unfold progressWritten. rewrite He. reflexivity.
  - intros e Herr.
    destruct (GetPlan_result _ _ _ _ b r op o Hwf w)
      as (w1 & _ & [[plan Hplan]|[e0 [Hplan _]]]).
    + destruct (FindPhase plan (PhaseID params)) as [phase|e0] eqn:Hfind.
      * rewrite (UpdateProgress_spec _ _ _ _ b r op o Hwf params w w1 plan
                   phase Hplan Hfind) in Herr.
        discriminate.
      * right. exists plan, w1, e0. split; assumption.
    + left. exists e0, w1. exact Hplan.
  - destruct (GetPlan_result _ _ _ _ b r op o Hwf w)
      as (w1 & _ & [[plan Hplan]|[e0 [Hplan _]]]).
    + destruct (FindPhase plan (PhaseID params)) as [phase|e0] eqn:Hfind.
      * rewrite (UpdateProgress_spec _ _ _ _ b r op o Hwf params w w1 plan
                   phase Hplan Hfind).
        discriminate.
      * rewrite (UpdateProgress_not_found _ _ _ _ b r params w w1 plan e0
                   Hplan Hfind).
        discriminate.
    + rewrite (UpdateProgress_fetch_failed _ _ _ _ b r params w w1 e0 Hplan).
      discriminate.
Qed.

Lemma UpdateProgress_best_effort_witness :
  fst (UpdateProgress halfSecond exEngine
         {| PhaseID := "/nodes/node-3"; Force := false |}
         (exWorld [ {| took := Second; failure := None |};
                    {| took := Second; failure := Some badRequest |} ]))
  = Ok None
  /\ logs (snd (UpdateProgress halfSecond exEngine
                  {| PhaseID := "/nodes/node-3"; Force := false |}
                  (exWorld [ {| took := Second; failure := None |};
                             {| took := Second; failure := Some badRequest |} ])))
     = [ failedEntryLine (TraceErr badRequest) ].
Proof.
  assert (Hplan :
    GetPlan halfSecond exEngine
            (exWorld [ {| took := Second; failure := None |};
                       {| took := Second; failure := Some badRequest |} ])
    = (Ok (Some exPlan, None),
       advance (exWorld []) 1000001000%N
               (exStore [ {| took := Second; failure := Some badRequest |} ]))).
  { apply (GetPlan_mem_served halfSecond exEngine exOperation
             (exWorld [ {| took := Second; failure := None |};
                        {| took := Second; failure := Some badRequest |} ])
             {| took := Second; failure := None |}
             (exStore [ {| took := Second; failure := Some badRequest |} ])
             exEngine_wellFormed); reflexivity. }
  destruct (proj1 (UpdateProgress_best_effort halfSecond exEngine exOperation
                     memOperator {| PhaseID := "/nodes/node-3"; Force := false |}
                     (exWorld [ {| took := Second; failure := None |};
                                {| took := Second; failure := Some badRequest |} ])
                     exEngine_wellFormed)
                  exPlan _
                  (exPhase "/nodes/node-3" "Update node-3" 2 Unstarted)
                  Hplan eq_refl) as (Hnil & Hlog).
  split; [exact Hnil|].
  apply Hlog.
  rewrite (retry_first_permanent halfSecond _ _ _ badRequest Second (exStore []));
    reflexivity.
Defined.

(** ** Executors and remote commands *)

(** C6.  The executor of an engine built by [New] is found by the prefix
    of the phase ID: an ID that starts with the masters prefix or with
    the nodes prefix resolves to what [libphase.NewSync] builds, and any
    other ID yields no executor and a [BadParameter] error. *)
Theorem GetExecutor_by_prefix
        {B PhaseExecutor Remote Emitter : Type}
        (libphase_Masters libphase_Nodes : string)
        (libphase_NewSync :
           ExecutorParams -> option Emitter -> SiteOperation -> Logger B ->
           option PhaseExecutor * option error)
        (config : Config B Emitter) (params : ExecutorParams) (remote : Remote) :
  let r := @newEngine B PhaseExecutor Remote Emitter
                      libphase_Masters libphase_Nodes libphase_NewSync config in
  let id := phase_ID (ep_Phase params) in
  (String.prefix libphase_Masters id = true
   \/ String.prefix libphase_Nodes id = true ->
   forall op,
     Operation config = Some op ->
     exists logger,
       GetExecutor r params remote
       = Ok (libphase_NewSync params (cfg_Emitter config) op logger))
  /\ (String.prefix libphase_Masters id = false ->
      String.prefix libphase_Nodes id = false ->
      exists e,
        GetExecutor r params remote = Ok (None, Some e)
        /\ trace_IsBadParameter e = true).
Proof.
  intros r id. split.
  - intros Hprefix op Hop.
    unfold GetExecutor, r, newEngine. simpl. unfold configToExecutor.
    fold id.
    assert (Hor : String.prefix libphase_Masters id
                  || String.prefix libphase_Nodes id = true)
      by (apply orb_true_iff; exact Hprefix).
    rewrite Hor, Hop. eexists. reflexivity.
  - intros Hm Hn.
    unfold GetExecutor, r, newEngine. simpl. unfold configToExecutor.
    fold id. rewrite Hm, Hn. simpl. eexists. split; reflexivity.
Qed.

Lemma GetExecutor_by_prefix_witness :
  GetExecutor exEngine
    {| ep_Plan := exPlan;
       ep_Phase := exPhase "/masters/node-1" "Update master node-1" 0 Completed |}
    tt
  = Ok (Some "sync", None)
  /\ exists e,
      GetExecutor exEngine
        {| ep_Plan := exPlan;
           ep_Phase := exPhase "/etcd" "Upgrade etcd" 4 Unstarted |}
        tt
      = Ok (None, Some e)
      /\ trace_IsBadParameter e = true.
Proof.
  split.
  - destruct (proj1 (GetExecutor_by_prefix "/masters" "/nodes" exNewSync
                       (snd (checkAndSetDefaults exConfig))
                       {| ep_Plan := exPlan;
                          ep_Phase := exPhase "/masters/node-1"
                                              "Update master node-1" 0 Completed |}
                       tt)
                    (or_introl eq_refl) exOperation eq_refl) as (logger & H).
    exact H.
  - apply (proj2 (GetExecutor_by_prefix "/masters" "/nodes" exNewSync
                    (snd (checkAndSetDefaults exConfig))
                    {| ep_Plan := exPlan;
                       ep_Phase := exPhase "/etcd" "Upgrade etcd" 4 Unstarted |}
                    tt)); reflexivity.
Defined.

(** C7.  [RunCommand] runs the runner on the server with the arguments
    "system", "envars", "--phase" and the phase ID, followed by "--force"
    exactly when [Force] is set, and returns what the runner returns. *)
Theorem RunCommand_argv
        {B PhaseExecutor Remote Emitter : Type}
        (r : engine B PhaseExecutor Remote Emitter) (runner : RemoteRunner B)
        (server : Server) (params : Params) (w : World B) :
  let base := ["system"; "envars"; "--phase"; PhaseID params] in
  exists argv,
    RunCommand r runner server params w = call (Run runner server argv) w
    /\ fst (RunCommand r runner server params w)
       = Ok (fst (fst (Run runner server argv (clock w) (store w))))
    /\ argv = (base ++ (if Force params then ["--force"] else []))%list
    /\ (argv = (base ++ ["--force"])%list <-> Force params = true)
    /\ (argv = base <-> Force params = false).
Proof.
  intros base.
  exists (base ++ (if Force params then ["--force"] else []))%list.
  split; [|split; [|split; [|split]]].
  - unfold RunCommand. fold base. destruct (Force params).
    + reflexivity.
    + rewrite app_nil_r. reflexivity.
  - unfold RunCommand. fold base.
    assert (Hargs : (if Force params then (base ++ ["--force"])%list else base)
                    = (base ++ (if Force params then ["--force"] else []))%list).
    { destruct (Force params); [reflexivity|rewrite app_nil_r; reflexivity]. }
    rewrite Hargs. unfold call.
    destruct (Run runner server _ (clock w) (store w)) as [[err d] st].
    reflexivity.
  - reflexivity.
  - destruct (Force params); split; intros H; try reflexivity.
    + apply (f_equal (@List.length string)) in H. simpl in H. discriminate.
    + discriminate.
  - destruct (Force params); split; intros H; try reflexivity.
    + apply (f_equal (@List.length string)) in H. simpl in H. discriminate.
    + discriminate.
Qed.

Lemma RunCommand_argv_witness :
  ms_commands
    (store (snd (RunCommand exEngine memRunner {| srv_Hostname := "node-3" |}
                   {| PhaseID := "/nodes/node-3"; Force := true |}
                   (exWorld []))))
  = [ ({| srv_Hostname := "node-3" |},
       ["system"; "envars"; "--phase"; "/nodes/node-3"; "--force"]) ].
Proof.
  destruct (RunCommand_argv exEngine memRunner {| srv_Hostname := "node-3" |}
              {| PhaseID := "/nodes/node-3"; Force := true |} (exWorld []))
    as (argv & Hrun & _ & Hargv & _).
  rewrite Hrun, Hargv. reflexivity.
Defined.

(** ** Construction *)

Lemma checkAndSetDefaults_rejects {B Emitter : Type} (config : Config B Emitter) :
  Operation config = None \/ cfg_Operator config = None \/ Runner config = None ->
  exists msg,
    checkAndSetDefaults config = (Some (trace_BadParameter msg), config).
Proof.
  intros H. unfold checkAndSetDefaults.
  destruct (Operation config) as [op|]; [|eexists; reflexivity].
  destruct (cfg_Operator config) as [o|]; [|eexists; reflexivity].
  destruct (Runner config) as [rn|]; [|eexists; reflexivity].
  destruct H as [H|[H|H]]; discriminate.
Qed.

Lemma checkAndSetDefaults_accepts {B Emitter : Type} (config : Config B Emitter)
      op o rn :
  Operation config = Some op ->
  cfg_Operator config = Some o ->
  Runner config = Some rn ->
  exists config',
    checkAndSetDefaults config = (None, config')
    /\ Operation config' = Some op
    /\ cfg_Operator config' = Some o
    /\ Runner config' = Some rn
    /\ Silent config' = Silent config
    /\ cfg_Emitter config' = cfg_Emitter config
    /\ match FieldLogger config with
       | Some l => FieldLogger config' = Some l
       | None =>
           exists l, FieldLogger config' = Some l
                     /\ lg_Key l = Some (Key op)
                     /\ lg_Operator l = Some o
       end.
Proof.
  intros Hop Ho Hrn. unfold checkAndSetDefaults. rewrite Hop, Ho, Hrn.
  destruct (FieldLogger config) as [l|] eqn:Hl.
  - exists config. repeat split; assumption.
  - eexists. split; [reflexivity|]. simpl. repeat split; try assumption.
    eexists. repeat split.
Qed.

(** C10.  [New] checks its configuration: with a nil operation, operator
    or runner it returns no machine and a [BadParameter] error; with all
    three there, a nil logger is replaced by a default one, the given
    fields are kept and the construction goes on to [libfsm.New] with the
    engine built from the completed configuration; so whenever [New]
    returns a machine, the engine it built has its operation, operator,
    runner and logger. *)
Theorem New_validates_config
        {B PhaseExecutor Remote Emitter : Type} (b : BackOff)
        (libphase_Masters libphase_Nodes : string)
        (libphase_NewSync :
           ExecutorParams -> option Emitter -> SiteOperation -> Logger B ->
           option PhaseExecutor * option error)
        (libfsm_New :
           libfsm_Config B PhaseExecutor Remote Emitter ->
           FSM B PhaseExecutor Remote Emitter + error)
        (config : Config B Emitter) :
  let new := New b libphase_Masters libphase_Nodes libphase_NewSync libfsm_New in
  let build := @newEngine B PhaseExecutor Remote Emitter
                          libphase_Masters libphase_Nodes libphase_NewSync in
  (Operation config = None \/ cfg_Operator config = None \/ Runner config = None ->
   exists e, new config = (None, Some e) /\ trace_IsBadParameter e = true)
  /\ (forall op o rn,
         Operation config = Some op ->
         cfg_Operator config = Some o ->
         Runner config = Some rn ->
         exists config',
           checkAndSetDefaults config = (None, config')
           /\ FieldLogger config' <> None
           /\ (forall l, FieldLogger config = Some l -> FieldLogger config' = Some l)
           /\ new config
              = match libfsm_New {| fsm_Engine := Some (build config');
                                    fsm_Runner := Some rn |} with
                | inl machine =>
                    (Some (SetPreExec machine (UpdateProgress b (build config'))),
                     None)
                | inr e => (None, trace_Wrap (Some e))
                end)
  /\ (forall machine,
         new config = (Some machine, None) ->
         exists config' op o rn,
           checkAndSetDefaults config = (None, config')
           /\ wellFormed (build config') op o
           /\ cfg_Operator (eng_Config (build config')) = Some o
           /\ Runner (eng_Config (build config')) = Some rn).
Proof.
  intros new build.
  assert (Haccept : forall op o rn,
             Operation config = Some op ->
             cfg_Operator config = Some o ->
             Runner config = Some rn ->
             exists config',
               checkAndSetDefaults config = (None, config')
               /\ Operation config' = Some op
               /\ cfg_Operator config' = Some o
               /\ Runner config' = Some rn
               /\ FieldLogger config' <> None
               /\ (forall l, FieldLogger config = Some l ->
                             FieldLogger config' = Some l)
               /\ new config
                  = match libfsm_New {| fsm_Engine := Some (build config');
                                        fsm_Runner := Some rn |} with
                    | inl machine =>
                        (Some (SetPreExec machine
                                 (UpdateProgress b (build config'))), None)
                    | inr e => (None, trace_Wrap (Some e))
                    end).
  { intros op o rn Hop Ho Hrn.
    destruct (checkAndSetDefaults_accepts config op o rn Hop Ho Hrn)
      as (config' & Hcheck & Hop' & Ho' & Hrn' & _ & _ & Hlog).
    exists config'. repeat split; try assumption.
    - destruct (FieldLogger config) as [l|].
      + rewrite Hlog. discriminate.
      + destruct Hlog as (l & -> & _). discriminate.
    - intros l Hl. rewrite Hl in Hlog. exact Hlog.
    - unfold new, New. rewrite Hcheck, Hrn'. reflexivity. }
  split; [|split].
  - intros Hnil.
    destruct (checkAndSetDefaults_rejects config Hnil) as (msg & Hcheck).
    exists (trace_BadParameter msg). split; [|reflexivity].
    unfold new, New. rewrite Hcheck. reflexivity.
  - intros op o rn Hop Ho Hrn.
    destruct (Haccept op o rn Hop Ho Hrn)
      as (config' & Hcheck & _ & _ & _ & Hlog & Hkeep & Hnew).
    exists config'. repeat split; assumption.
  - intros machine Hnew.
    destruct (Operation config) as [op|] eqn:Hop.
    + destruct (cfg_Operator config) as [o|] eqn:Ho.
      * destruct (Runner config) as [rn|] eqn:Hrn.
        -- destruct (Haccept op o rn eq_refl eq_refl eq_refl)
             as (config' & Hcheck & Hop' & Ho' & Hrn' & Hlog & _ & _).
           exists config', op, o, rn. repeat split; assumption.
        -- destruct (checkAndSetDefaults_rejects config
                       (or_intror (or_intror Hrn))) as (e & Hcheck).
           unfold new, New in Hnew. rewrite Hcheck in Hnew. discriminate.
      * destruct (checkAndSetDefaults_rejects config
                    (or_intror (or_introl Ho))) as (e & Hcheck).
        unfold new, New in Hnew. rewrite Hcheck in Hnew. discriminate.
    + destruct (checkAndSetDefaults_rejects config (or_introl Hop))
        as (e & Hcheck).
      unfold new, New in Hnew. rewrite Hcheck in Hnew. discriminate.
Qed.

Lemma New_validates_config_witness :
  (exists e,
      New halfSecond "/masters" "/nodes" exNewSync exLibfsmNew exConfigNoRunner
      = (None, Some e)
      /\ trace_IsBadParameter e = true)
  /\ exists config',
      checkAndSetDefaults exConfig = (None, config')
      /\ FieldLogger config' <> None
      /\ fst (New halfSecond "/masters" "/nodes" exNewSync exLibfsmNew exConfig)
         <> None.
Proof.
  split.
  - apply (proj1 (New_validates_config halfSecond "/masters" "/nodes" exNewSync
                    exLibfsmNew exConfigNoRunner)).
    right. right. reflexivity.
  - destruct (proj1 (proj2 (New_validates_config halfSecond "/masters" "/nodes"
                              exNewSync exLibfsmNew exConfig))
                    exOperation memOperator memRunner eq_refl eq_refl eq_refl)
      as (config' & Hcheck & Hlog & _ & Hnew).
    exists config'. split; [exact Hcheck|]. split; [exact Hlog|].
    rewrite Hnew. simpl. discriminate.
Defined.

(** * Further properties of the engine *)

(** X1.  [checkAndSetDefaults] settles a configuration: checking again a
    configuration it has accepted accepts it and leaves it as it is; a
    logger given by the caller is never replaced, so a configuration that
    comes with one is accepted unchanged. *)
Theorem checkAndSetDefaults_settles {B Emitter : Type}
        (config config' : Config B Emitter) :
  checkAndSetDefaults config = (None, config') ->
  checkAndSetDefaults config' = (None, config')
  /\ (FieldLogger config <> None -> config' = config).
Proof.
  destruct config as [op o l rn silent emitter].
  unfold checkAndSetDefaults. simpl.
  destruct op as [op|]; [|discriminate].
  destruct o as [o|]; [|discriminate].
  destruct rn as [rn|]; [|discriminate].
  destruct l as [l|]; intros H; inversion H; subst; simpl.
  - split; reflexivity.
  - split; [reflexivity|]. intros Hne. exfalso. apply Hne. reflexivity.
Qed.

Lemma checkAndSetDefaults_settles_witness :
  checkAndSetDefaults (snd (checkAndSetDefaults exConfig))
  = (None, snd (checkAndSetDefaults exConfig)).
Proof.
  apply (proj1 (checkAndSetDefaults_settles exConfig
                  (snd (checkAndSetDefaults exConfig)) eq_refl)).
Defined.

(** X2.  The completion that [UpdateProgress] reports is a whole number
    of shares of [100 / max(n, 1)]: it stays within 0..100 for the steps
    0..max(n, 1), it is 0 at every such step once the plan has more than
    100 phases, and at step [n] it is 100 only when [n] divides 100. *)
Theorem progress_completion_bounds (key : SiteOperationKey)
        (plan : OperationPlan) (phase : OperationPhase) (now : Time) :
  let n := len (plan_Phases plan) in
  let s := phase_Step phase in
  let c := pe_Completion (progressEntry key plan phase now) in
  (0 <= s <= Z.max n 1 -> 0 <= c <= 100)
  /\ (100 < n -> 0 <= s <= n -> c = 0)
  /\ (1 <= n -> s = n -> (c = 100 <-> 100 mod n = 0)).
Proof.
  intros n s c.
  assert (Hn : 0 <= n) by (unfold n, len; lia).
  assert (Hshare : 0 <= 100 / Z.max n 1 <= 100).
  { split; [apply Z.div_pos; lia|apply Z.div_le_upper_bound; lia]. }
  assert (Hc : 0 <= s <= Z.max n 1 ->
               c = 100 / Z.max n 1 * s /\ 0 <= 100 / Z.max n 1 * s <= 100).
  { intros Hs.
    assert (Hle : 100 / Z.max n 1 * s <= 100).
    { apply Z.le_trans with (100 / Z.max n 1 * Z.max n 1); [nia|].
      rewrite Z.mul_comm. apply Z.mul_div_le. lia. }
    assert (Hge : 0 <= 100 / Z.max n 1 * s) by nia.
    split; [|lia].
    unfold c. rewrite progressEntry_Completion. fold n s.
    apply int_wrap_small. lia. }
  split; [|split].
  - intros Hs. destruct (Hc Hs) as [-> Hb]. exact Hb.
  - intros Hbig Hs.
    assert (Hs' : 0 <= s <= Z.max n 1) by lia.
    destruct (Hc Hs') as [-> _].
    rewrite Z.div_small by lia. reflexivity.
  - intros Hpos Hs.
    assert (Hs' : 0 <= s <= Z.max n 1) by lia.
    destruct (Hc Hs') as [-> _].
    replace (Z.max n 1) with n by lia. rewrite Hs.
    pose proof (Z.div_mod 100 n ltac:(lia)) as Hdm.
    pose proof (Z.mod_pos_bound 100 n ltac:(lia)) as Hmod.
    split; intros H; nia.
Qed.

Lemma progress_completion_bounds_witness :
  pe_Completion
    (progressEntry (Key exOperation) exPlan
       (exPhase "/nodes/node-4" "Update node-4" 4 Unstarted) 0%N)
  = 100.
Proof.
  apply (proj2 (proj2 (progress_completion_bounds (Key exOperation) exPlan
                         (exPhase "/nodes/node-4" "Update node-4" 4 Unstarted)
                         0%N))); [vm_compute; discriminate|reflexivity|reflexivity].
Defined.



Section RetryBound.
Context {S : Type}.
Variables (ctx : Context) (b : BackOff) (fn : Func S) (wait : N).
Hypothesis Hwait : forall n, (wait <= Npos (b n))%N.
Hypothesis Hpos : (0 < wait)%N.

(** From an attempt made before the deadline on, the loop makes at most
    one call, and one more for each wait that fits before the
    deadline. *)
Lemma RetryLoop_calls_bounded n now (st : nat * S) :
  (now <= Deadline ctx)%N ->
  (N.of_nat (fst (snd (RetryLoop ctx b (classified (counting fn)) n now st)))
   <= N.of_nat (fst st) + 1 + (Deadline ctx - now) / wait)%N.
Proof.
  revert n now st.
  apply (RetryLoop_induction ctx b (classified (counting fn))
           (fun n now st =>
              (now <= Deadline ctx)%N ->
              (N.of_nat (fst (snd (RetryLoop ctx b (classified (counting fn))
                                             n now st)))
               <= N.of_nat (fst st) + 1 + (Deadline ctx - now) / wait)%N)).
  intros n now st IH Hnow. rewrite RetryLoop_step.
  destruct (classified (counting fn) now st) as [[err d] st'] eqn:Hcall.
  assert (Hcount : fst st' = Datatypes.S (fst st)).
  { rewrite classified_counting in Hcall. unfold counting in Hcall.
    destruct (classified fn now (snd st)) as [[err0 d0] s0].
    inversion Hcall. reflexivity. }
  assert (Hstop : forall (e : option error) (t : Time),
             (N.of_nat (fst (snd (e, t, st')))
              <= N.of_nat (fst st) + 1 + (Deadline ctx - now) / wait)%N).
  { intros e t. simpl. rewrite Hcount, Nat2N.inj_succ.
    generalize ((Deadline ctx - now) / wait)%N. intros q. lia. }
  assert (Hnext : forall e,
             err = Some e ->
             (now + d + N.pos (b n) <? Deadline ctx)%N = true ->
             (N.of_nat (fst (snd (RetryLoop ctx b (classified (counting fn))
                                            (Datatypes.S n)
                                            (now + d + N.pos (b n))%N st')))
              <= N.of_nat (fst st) + 1 + (Deadline ctx - now) / wait)%N).
  { intros e He Hlt. subst err. apply N.ltb_lt in Hlt.
    specialize (IH _ _ _ eq_refl Hlt ltac:(lia)).
    rewrite Hcount in IH.
    assert (Hdiv : ((Deadline ctx - (now + d + N.pos (b n))) / wait + 1
                    <= (Deadline ctx - now) / wait)%N).
    { pose proof (Hwait n) as Hw.
      replace ((Deadline ctx - (now + d + N.pos (b n))) / wait + 1)%N
        with ((Deadline ctx - (now + d + N.pos (b n)) + 1 * wait) / wait)%N
        by (apply N.div_add; lia).
      apply N.Div0.div_le_mono. lia. }
    rewrite Nat2N.inj_succ in IH.
    revert IH Hdiv.
    generalize ((Deadline ctx - (now + d + N.pos (b n))) / wait)%N.
    generalize ((Deadline ctx - now) / wait)%N.
    intros q q' IH Hdiv. lia. }
  destruct err as [e|]; [|apply Hstop].
  destruct (now + d + N.pos (b n) <? Deadline ctx)%N eqn:Hlt.
  - destruct e; [eapply Hnext; reflexivity
                |eapply Hnext; reflexivity
                |apply Hstop].
  - destruct e; apply Hstop.
Qed.
End RetryBound.

(** X4.  [retry] calls the wrapped function at least once, and at most
    once more for each backoff wait that fits into the five minutes: with
    every wait at least [wait] long, it makes no more than
    [1 + 5 minutes / wait] calls. *)
Theorem retry_attempts_bounded {S : Type} (b : BackOff) (fn : Func S)
        (wait : N) (start : Time) (s0 : S) :
  (0 < wait)%N ->
  (forall n, (wait <= Npos (b n))%N) ->
  let calls := fst (snd (retry b (counting fn) start (0%nat, s0))) in
  (1 <= calls)%nat
  /\ (N.of_nat calls <= 1 + maxRetryElapsedTime / wait)%N.
Proof.
  intros Hpos Hwait calls. unfold calls. rewrite retry_unfold.
  pose proof (RetryLoop_calls (context_WithTimeout start maxRetryElapsedTime)
                b fn 0%nat start (0%nat, s0)) as Hone.
  pose proof (RetryLoop_calls_bounded
                (context_WithTimeout start maxRetryElapsedTime) b fn wait
                Hwait Hpos 0%nat start (0%nat, s0)) as Hmany.
  simpl Deadline in Hmany.
  destruct (RetryLoop _ b (classified (counting fn)) 0%nat start (0%nat, s0))
    as [[err t] st].
  simpl in *. split; [lia|].
  replace (start + maxRetryElapsedTime - start)%N with maxRetryElapsedTime
    in Hmany by lia.
  apply Hmany. lia.
Qed.

Lemma retry_attempts_bounded_witness :
  (N.of_nat (fst (snd (retry halfSecond (counting scripted) 0%N
                         (0%nat, failsTwice))))
   <= 601)%N.
Proof.
  apply (proj2 (retry_attempts_bounded halfSecond scripted 500000000%N 0%N
                  failsTwice eq_refl
                  (fun n => N.le_refl 500000000%N))).
Defined.

(** * Service addresses and application endpoints *)

Lemma flat_map_map_nil {A C D : Type} (f : A -> C -> D) (l : list A)
      (ports : list C) :
  flat_map (fun x => map (f x) ports) l = [] <-> l = [] \/ ports = [].
Proof.
  split.
  - destruct l as [|x l]; [left; reflexivity|].
    destruct ports as [|p ports]; [right; reflexivity|].
    simpl. discriminate.
  - intros [->| ->]; [reflexivity|].
    induction l as [|x l IH]; [reflexivity|exact IH].
Qed.

Lemma nodePortsOf_nil (service : Service) :
  svc_Ports service = [] -> opsservice.nodePortsOf service = [].
Proof. unfold opsservice.nodePortsOf. intros ->. reflexivity. Qed.

(** X5.  [getAddresses] never fails, and it returns no address exactly
    when the service has no port: a service with a port always gets an
    address, from its load balancer, from the nodes or from its cluster
    IP. *)
Theorem getAddresses_none_iff_no_port (ext int : string) (service : Service)
        (nodeList : list Node) :
  snd (opsservice.getAddresses ext int service nodeList) = None
  /\ (fst (opsservice.getAddresses ext int service nodeList) = []
      <-> svc_Ports service = []).
Proof.
  unfold opsservice.getAddresses.
  destruct (svc_Ingress service) as [|ingress ingresses] eqn:Hingress.
  - destruct (opsservice.nodePortsOf service) as [|np nps] eqn:Hnp.
    + simpl. split; [reflexivity|].
      split; [apply map_eq_nil|intros ->; reflexivity].
    + assert (Hports : svc_Ports service <> []).
      { intros H. rewrite (nodePortsOf_nil service H) in Hnp. discriminate. }
      destruct (opsservice.addressesOfType ext nodeList) as [|ip ips].
      * destruct (opsservice.addressesOfType int nodeList) as [|ip ips].
        -- simpl. split; [reflexivity|].
           split; [apply map_eq_nil|intros ->; reflexivity].
        -- simpl. split; [reflexivity|].
           split; [discriminate|intros H; contradiction].
      * simpl. split; [reflexivity|].
        split; [discriminate|intros H; contradiction].
  - simpl fst. simpl snd. split; [reflexivity|].
    destruct (svc_Ports service) as [|p ps].
    + split; [reflexivity|intros _].
      exact (proj2 (flat_map_map_nil
                      (fun i port => hostPort (ing_Hostname i) (sp_Port port))
                      (ingress :: ingresses) []) (or_intror eq_refl)).
    + split; simpl; discriminate.
Qed.

(** X6.  With a load balancer the nodes and the cluster IP play no part:
    the addresses are the host names of the ingresses, each with every
    port of the service. *)
Theorem getAddresses_load_balancer (ext int : string) (service : Service)
        (nodeList nodeList' : list Node) :
  svc_Ingress service <> [] ->
  opsservice.getAddresses ext int service nodeList
  = opsservice.getAddresses ext int service nodeList'
  /\ (forall a,
         In a (fst (opsservice.getAddresses ext int service nodeList))
         <-> exists ingress port,
             In ingress (svc_Ingress service)
             /\ In port (svc_Ports service)
             /\ a = hostPort (ing_Hostname ingress) (sp_Port port))
  /\ List.length (fst (opsservice.getAddresses ext int service nodeList))
     = (List.length (svc_Ingress service) * List.length (svc_Ports service))%nat.
Proof.
  intros Hingress. unfold opsservice.getAddresses.
  destruct (svc_Ingress service) as [|ingress ingresses]; [congruence|].
  split; [reflexivity|]. cbn [fst]. split.
  - intros a. rewrite in_flat_map. split.
    + intros (i & Hi & Ha). apply in_map_iff in Ha.
      destruct Ha as (p & Hp & Hin). exists i, p. auto.
    + intros (i & p & Hi & Hp & ->). exists i. split; [exact Hi|].
      apply in_map_iff. exists p. auto.
  - generalize (ingress :: ingresses). intros l.
    induction l as [|i l IH]; [reflexivity|].
    simpl. rewrite length_app, length_map, IH. reflexivity.
Qed.

Lemma getAddresses_load_balancer_witness :
  fst (opsservice.getAddresses "ExternalIP" "InternalIP"
         {| svc_Ports := [ {| sp_Name := "web"; sp_Port := 443; sp_NodePort := 30443 |} ];
            svc_ClusterIP := "10.0.10.100";
            svc_Ingress := [ {| ing_Hostname := "lb.example.com" |} ] |}
         [ {| node_Addresses :=
               [ {| na_Type := "ExternalIP"; na_Address := "54.1.2.3" |} ] |} ])
  = [ "lb.example.com:443" ].
Proof.
  rewrite (proj1 (getAddresses_load_balancer "ExternalIP" "InternalIP"
                    {| svc_Ports := [ {| sp_Name := "web"; sp_Port := 443;
                                         sp_NodePort := 30443 |} ];
                       svc_ClusterIP := "10.0.10.100";
                       svc_Ingress := [ {| ing_Hostname := "lb.example.com" |} ] |}
                    [ {| node_Addresses :=
                          [ {| na_Type := "ExternalIP";
                               na_Address := "54.1.2.3" |} ] |} ]
                    [] ltac:(discriminate))).
  reflexivity.
Defined.

Lemma in_addressesOfType (kind : string) (nodeList : list Node) (ip : string) :
  In ip (opsservice.addressesOfType kind nodeList)
  <-> exists node address,
      In node nodeList /\ In address (node_Addresses node)
      /\ na_Type address = kind /\ ip = na_Address address.
Proof.
  unfold opsservice.addressesOfType. rewrite in_flat_map. split.
  - intros (node & Hnode & Hin). apply in_flat_map in Hin.
    destruct Hin as (address & Haddress & Hip).
    destruct (String.eqb_spec (na_Type address) kind) as [Hkind|Hkind].
    + destruct Hip as [<-|[]]. exists node, address. auto.
    + destruct Hip.
  - intros (node & address & Hnode & Haddress & Hkind & ->).
    exists node. split; [exact Hnode|]. apply in_flat_map.
    exists address. split; [exact Haddress|].
    rewrite <- Hkind, String.eqb_refl. left. reflexivity.
Qed.

Lemma in_nodePortsOf (service : Service) (np : int32) :
  In np (opsservice.nodePortsOf service)
  <-> exists port,
      In port (svc_Ports service) /\ sp_NodePort port <> 0
      /\ np = sp_NodePort port.
Proof.
  unfold opsservice.nodePortsOf. rewrite in_flat_map. split.
  - intros (port & Hport & Hin).
    destruct (Z.eqb_spec (sp_NodePort port) 0) as [Hz|Hz].
    + destruct Hin.
    + destruct Hin as [<-|[]]. exists port. auto.
  - intros (port & Hport & Hz & ->). exists port. split; [exact Hport|].
    destruct (Z.eqb_spec (sp_NodePort port) 0) as [Hz'|Hz']; [contradiction|].
    left. reflexivity.
Qed.

Lemma in_product_of_node_ports (kind : string) (service : Service)
      (nodeList : list Node) (a : string) :
  In a (flat_map (fun ip => map (fun port => hostPort ip port)
                                (opsservice.nodePortsOf service))
                 (opsservice.addressesOfType kind nodeList))
  <-> exists node address port,
      In node nodeList /\ In address (node_Addresses node)
      /\ na_Type address = kind
      /\ In port (svc_Ports service) /\ sp_NodePort port <> 0
      /\ a = hostPort (na_Address address) (sp_NodePort port).
Proof.
  rewrite in_flat_map. split.
  - intros (ip & Hip & Ha). apply in_map_iff in Ha.
    destruct Ha as (np & <- & Hnp).
    apply in_addressesOfType in Hip.
    destruct Hip as (node & address & Hnode & Haddress & Hkind & ->).
    apply in_nodePortsOf in Hnp. destruct Hnp as (port & Hport & Hz & ->).
    exists node, address, port. auto 10.
  - intros (node & address & port & Hnode & Haddress & Hkind & Hport & Hz & ->).
    exists (na_Address address). split.
    + apply in_addressesOfType. exists node, address. auto.
    + apply in_map_iff. exists (sp_NodePort port). split; [reflexivity|].
      apply in_nodePortsOf. exists port. auto.
Qed.

(** X7.  Without a load balancer, a service exposed on node ports is
    reached through the nodes: through the external addresses of the
    nodes when there is one, through the internal addresses only when
    there is no external one, each with every node port; when no node has
    an address of either type the cluster IP is used, with the ports of
    the service instead of its node ports. *)
Theorem getAddresses_node_ports (ext int : string) (service : Service)
        (nodeList : list Node) :
  svc_Ingress service = [] ->
  opsservice.nodePortsOf service <> [] ->
  let result := fst (opsservice.getAddresses ext int service nodeList) in
  let through kind a :=
    exists node address port,
      In node nodeList /\ In address (node_Addresses node)
      /\ na_Type address = kind
      /\ In port (svc_Ports service) /\ sp_NodePort port <> 0
      /\ a = hostPort (na_Address address) (sp_NodePort port) in
  (opsservice.addressesOfType ext nodeList <> [] ->
   forall a, In a result <-> through ext a)
  /\ (opsservice.addressesOfType ext nodeList = [] ->
      opsservice.addressesOfType int nodeList <> [] ->
      forall a, In a result <-> through int a)
  /\ (opsservice.addressesOfType ext nodeList = [] ->
      opsservice.addressesOfType int nodeList = [] ->
      result = map (fun port => hostPort (svc_ClusterIP service) (sp_Port port))
                   (svc_Ports service)).
Proof.
  intros Hingress Hnp result through. unfold result, opsservice.getAddresses.
  rewrite Hingress.
  destruct (opsservice.nodePortsOf service) as [|np nps] eqn:Hports;
    [congruence|].
  rewrite <- Hports. clear Hnp.
  split; [|split].
  - intros Hext a.
    destruct (opsservice.addressesOfType ext nodeList) as [|ip ips] eqn:He;
      [congruence|].
    cbn [fst]. rewrite <- He. apply in_product_of_node_ports.
  - intros Hext Hint a. rewrite Hext.
    destruct (opsservice.addressesOfType int nodeList) as [|ip ips] eqn:Hi;
      [congruence|].
    cbn [fst]. rewrite <- Hi. apply in_product_of_node_ports.
  - intros Hext Hint. rewrite Hext, Hint. reflexivity.
Qed.

Lemma getAddresses_node_ports_witness :
  In "54.1.2.3:30443"
     (fst (opsservice.getAddresses "ExternalIP" "InternalIP"
             {| svc_Ports := [ {| sp_Name := "web"; sp_Port := 443;
                                  sp_NodePort := 30443 |} ];
                svc_ClusterIP := "10.0.10.100";
                svc_Ingress := [] |}
             [ {| node_Addresses :=
                   [ {| na_Type := "InternalIP"; na_Address := "10.0.0.7" |};
                     {| na_Type := "ExternalIP"; na_Address := "54.1.2.3" |} ] |} ]))
  /\ ~ In "10.0.0.7:30443"
       (fst (opsservice.getAddresses "ExternalIP" "InternalIP"
               {| svc_Ports := [ {| sp_Name := "web"; sp_Port := 443;
                                    sp_NodePort := 30443 |} ];
                  svc_ClusterIP := "10.0.10.100";
                  svc_Ingress := [] |}
               [ {| node_Addresses :=
                     [ {| na_Type := "InternalIP"; na_Address := "10.0.0.7" |};
                       {| na_Type := "ExternalIP"; na_Address := "54.1.2.3" |} ] |} ])).
Proof.
  pose proof (proj1 (getAddresses_node_ports "ExternalIP" "InternalIP"
                  {| svc_Ports := [ {| sp_Name := "web"; sp_Port := 443;
                                       sp_NodePort := 30443 |} ];
                     svc_ClusterIP := "10.0.10.100";
                     svc_Ingress := [] |}
                  [ {| node_Addresses :=
                        [ {| na_Type := "InternalIP"; na_Address := "10.0.0.7" |};
                          {| na_Type := "ExternalIP"; na_Address := "54.1.2.3" |} ] |} ]
                  eq_refl ltac:(discriminate))
               ltac:(discriminate)) as Hthrough.
  split.
  - apply Hthrough.
    exists {| node_Addresses :=
               [ {| na_Type := "InternalIP"; na_Address := "10.0.0.7" |};
                 {| na_Type := "ExternalIP"; na_Address := "54.1.2.3" |} ] |},
           {| na_Type := "ExternalIP"; na_Address := "54.1.2.3" |},
           {| sp_Name := "web"; sp_Port := 443; sp_NodePort := 30443 |}.
    simpl. repeat split; auto. discriminate.
  - intros Ha. apply Hthrough in Ha.
    destruct Ha as (node & address & port & Hnode & Haddress & Hkind & Hport & _ & Ha).
    destruct Hnode as [<-|[]]. destruct Hport as [<-|[]].
    destruct Haddress as [<-|[<-|[]]]; discriminate.
Defined.

(** X8.  The Kubernetes client is made once: after a call that returned
    a client, every further call returns that same client without asking
    for a new one; a failure is not kept, so the next call asks again. *)
Theorem GetKubeClient_makes_client_once
        (utils_GetKubeClient : nat -> Clientset + error)
        (o : opsservice.Operator) :
  (forall client o',
      opsservice.GetKubeClient utils_GetKubeClient o = (inl client, o') ->
      opsservice.GetKubeClient utils_GetKubeClient o' = (inl client, o'))
  /\ (forall e o',
         opsservice.GetKubeClient utils_GetKubeClient o = (inr e, o') ->
         opsservice.GetKubeClient utils_GetKubeClient o'
         = match utils_GetKubeClient (Datatypes.S (opsservice.dials o)) with
           | inl client =>
               (inl client,
                {| opsservice.kubeClient := Some client;
                   opsservice.dials := Datatypes.S (Datatypes.S (opsservice.dials o)) |})
           | inr e' =>
               (inr (wrapped e'),
                {| opsservice.kubeClient := None;
                   opsservice.dials := Datatypes.S (Datatypes.S (opsservice.dials o)) |})
           end)
  /\ (opsservice.kubeClient o <> None ->
      snd (opsservice.GetKubeClient utils_GetKubeClient o) = o).
Proof.
  unfold opsservice.GetKubeClient. split; [|split].
  - intros client o'.
    destruct (opsservice.kubeClient o) as [c|] eqn:Hc.
    + intros H. inversion H; subst. rewrite Hc. reflexivity.
    + destruct (utils_GetKubeClient (opsservice.dials o)) as [c|e];
        intros H; inversion H; subst. reflexivity.
  - intros e o'.
    destruct (opsservice.kubeClient o) as [c|] eqn:Hc; [discriminate|].
    destruct (utils_GetKubeClient (opsservice.dials o)) as [c|e0];
      intros H; inversion H; subst. simpl.
    destruct (utils_GetKubeClient (Datatypes.S (opsservice.dials o)));
      reflexivity.
  - intros Hc. destruct (opsservice.kubeClient o); [reflexivity|congruence].
Qed.

Section EndpointFacts.
Variables ext int : string.
Variable MakeSelector : list (string * string) -> string.
Variable client : Clientset.
Variable nodeList : list Node.

Lemma listServices_gathers (selector : string) (namespaces : list Namespace)
      (serviceList result : option (list Service)) :
  opsservice.listServices client selector namespaces serviceList = inl result ->
  match namespaces with
  | [] => result = serviceList
  | _ :: _ =>
      result = Some (match serviceList with
                     | Some items => items
                     | None => []
                     end ++ opsservice.servicesOf client selector namespaces)%list
  end.
Proof.
  revert serviceList.
  induction namespaces as [|ns rest IH]; intros serviceList H.
  - simpl in H. congruence.
  - simpl in H. unfold opsservice.servicesOf. simpl.
    destruct (Services_List client (ns_Name ns) selector) as [services|err];
      [|discriminate].
    specialize (IH _ H). destruct rest as [|ns' rest'].
    + subst result. simpl. rewrite app_nil_r.
      destruct serviceList; reflexivity.
    + rewrite IH. unfold opsservice.servicesOf.
      destruct serviceList; simpl; rewrite ?app_assoc; reflexivity.
Qed.

Lemma selectAddresses_selected (e : opsservice.ManifestEndpoint)
      (serviceAddresses addresses : list string) :
  opsservice.selectAddresses e serviceAddresses addresses
  = (addresses ++ opsservice.selected e serviceAddresses)%list.
Proof.
  revert addresses.
  induction serviceAddresses as [|a rest IH]; intros addresses.
  - simpl. rewrite app_nil_r. reflexivity.
  - unfold opsservice.selected in *.
    cbn [opsservice.selectAddresses flat_map].
    destruct ((opsservice.me_Port e =? 0)
              || HasSuffix a (":" ++ itoa (opsservice.me_Port e))).
    + rewrite IH, <- app_assoc. reflexivity.
    + rewrite IH. reflexivity.
Qed.

Lemma getAddresses_no_error (service : Service) :
  snd (opsservice.getAddresses ext int service nodeList) = None.
Proof.
  unfold opsservice.getAddresses.
  destruct (svc_Ingress service); [|reflexivity].
  destruct (opsservice.nodePortsOf service); [reflexivity|].
  destruct (opsservice.addressesOfType ext nodeList); [|reflexivity].
  destruct (opsservice.addressesOfType int nodeList); reflexivity.
Qed.

Lemma collectAddresses_gathers (e : opsservice.ManifestEndpoint)
      (services : list Service) (addresses : list string) :
  opsservice.collectAddresses ext int e nodeList services addresses
  = inl (addresses
         ++ flat_map (fun service =>
                        opsservice.selected e
                          (fst (opsservice.getAddresses ext int service nodeList)))
                     services)%list.
Proof.
  revert addresses.
  induction services as [|service rest IH]; intros addresses.
  - simpl. rewrite app_nil_r. reflexivity.
  - simpl.
    pose proof (getAddresses_no_error service) as Hok.
    destruct (opsservice.getAddresses ext int service nodeList) as [l err].
    simpl in Hok. subst err.
    rewrite IH, selectAddresses_selected, <- app_assoc. reflexivity.
Qed.

Lemma listServices_from_nil (selector : string) (namespaces : list Namespace)
      (result : option (list Service)) :
  opsservice.listServices client selector namespaces None = inl result ->
  (namespaces = [] /\ result = None)
  \/ (namespaces <> []
      /\ result = Some (opsservice.servicesOf client selector namespaces)).
Proof.
  intros H. apply listServices_gathers in H.
  destruct namespaces as [|ns nss]; [left; auto|].
  right. split; [discriminate|exact H].
Qed.

Lemma collectEndpoints_gathers (namespaces : list Namespace)
      (manifest : list opsservice.ManifestEndpoint)
      (endpoints result : list opsservice.Endpoint) :
  opsservice.collectEndpoints ext int MakeSelector client nodeList namespaces
                              manifest endpoints = inl result ->
  result
  = (endpoints
     ++ flat_map (opsservice.reported ext int MakeSelector client nodeList
                                      namespaces)
                 manifest)%list.
Proof.
  revert endpoints.
  induction manifest as [|e rest IH]; intros endpoints H.
  - simpl in H. inversion H. rewrite app_nil_r. reflexivity.
  - cbn [opsservice.collectEndpoints] in H. cbn [flat_map].
    unfold opsservice.reported at 1.
    destruct (opsservice.me_Hidden e); [exact (IH _ H)|].
    unfold opsservice.addressesFor.
    destruct (opsservice.listServices client
                (MakeSelector (opsservice.me_Selector e)) namespaces None)
      as [items|err] eqn:Hlist; [|discriminate].
    destruct (listServices_from_nil _ _ _ Hlist) as [[-> ->]|[_ ->]].
    + exact (IH _ H).
    + rewrite collectAddresses_gathers in H. cbn [app] in H.
      destruct (flat_map _ (opsservice.servicesOf client _ namespaces))
        as [|a addresses].
      * exact (IH _ H).
      * rewrite (IH _ H), <- app_assoc. reflexivity.
Qed.
End EndpointFacts.

Lemma GetKubeClient_makes_client_once_witness :
  opsservice.GetKubeClient exDial
    (snd (opsservice.GetKubeClient exDial exOperator))
  = opsservice.GetKubeClient exDial exOperator.
Proof.
  apply (proj1 (GetKubeClient_makes_client_once exDial exOperator)).
  reflexivity.
Defined.

Section ApplicationEndpoints.
Variables ext int : string.
Variable MakeSelector : list (string * string) -> string.
Variable dial : nat -> Clientset + error.
Variable openSite : string -> list opsservice.ManifestEndpoint + error.

Lemma trace_Wrap_Some (e : error) : trace_Wrap (Some e) <> None.
Proof. destruct e; discriminate. Qed.

(** A successful answer is either the empty one for an empty manifest,
    or the result of the loop over the manifest on the objects of the
    client. *)
Lemma GetApplicationEndpoints_success (o o' : opsservice.Operator)
      (key : string) (endpoints : list opsservice.Endpoint) :
  opsservice.GetApplicationEndpoints ext int MakeSelector dial openSite o key
  = ((endpoints, None), o') ->
  exists manifest,
    openSite key = inl manifest
    /\ ((manifest = [] /\ endpoints = [] /\ o' = o)
        \/ (manifest <> []
            /\ exists client nodeList namespaces,
              opsservice.GetKubeClient dial o = (inl client, o')
              /\ Nodes_List client = inl nodeList
              /\ Namespaces_List client = inl namespaces
              /\ opsservice.collectEndpoints ext int MakeSelector client
                   nodeList namespaces manifest []
                 = inl endpoints)).
Proof.
  unfold opsservice.GetApplicationEndpoints. intros H.
  destruct (openSite key) as [manifest|err].
  - exists manifest. split; [reflexivity|].
    destruct manifest as [|e manifest].
    + left. inversion H. auto.
    + right. split; [discriminate|].
      destruct (opsservice.GetKubeClient dial o) as [[client|err] o1].
      * destruct (Nodes_List client) as [nodeList|err] eqn:Hnodes.
        -- destruct (Namespaces_List client) as [namespaces|err] eqn:Hns.
           ++ destruct (opsservice.collectEndpoints ext int MakeSelector client
                          nodeList namespaces (e :: manifest) [])
                as [result|err] eqn:Hloop.
              ** inversion H; subst. exists client, nodeList, namespaces. auto.
              ** inversion H as [[H1 H2 H3]]. destruct (trace_Wrap_Some _ H2).
           ++ inversion H as [[H1 H2 H3]]. destruct (trace_Wrap_Some _ H2).
        -- inversion H as [[H1 H2 H3]]. destruct (trace_Wrap_Some _ H2).
      * inversion H as [[H1 H2 H3]]. destruct (trace_Wrap_Some _ H2).
  - inversion H as [[H1 H2 H3]]. destruct (trace_Wrap_Some _ H2).
Qed.

(** X9.  A successful answer lists, in the order of the manifest, one
    endpoint for each endpoint of the manifest that is not hidden and has
    an address, with all its addresses: those of the services under its
    selector, namespace after namespace, that pass its port. *)
Theorem GetApplicationEndpoints_reports (o o' : opsservice.Operator)
        (key : string) (endpoints : list opsservice.Endpoint) :
  opsservice.GetApplicationEndpoints ext int MakeSelector dial openSite o key
  = ((endpoints, None), o') ->
  exists manifest,
    openSite key = inl manifest
    /\ (manifest = [] -> endpoints = [] /\ o' = o)
    /\ (manifest <> [] ->
        exists client nodeList namespaces,
          opsservice.GetKubeClient dial o = (inl client, o')
          /\ Nodes_List client = inl nodeList
          /\ Namespaces_List client = inl namespaces
          /\ endpoints
             = flat_map (opsservice.reported ext int MakeSelector client
                                             nodeList namespaces)
                        manifest).
Proof.
  intros H. apply GetApplicationEndpoints_success in H.
  destruct H as (manifest & Hsite & [(-> & -> & ->)|(Hne & client & nodeList & namespaces & Hc & Hn & Hs & Hloop)]).
  - exists []. split; [exact Hsite|]. split; [auto|congruence].
  - exists manifest. split; [exact Hsite|]. split; [congruence|].
    intros _. exists client, nodeList, namespaces.
    repeat split; try assumption.
    exact (collectEndpoints_gathers ext int MakeSelector client nodeList
             namespaces manifest [] endpoints Hloop).
Qed.

(** X10.  Every endpoint of a successful answer has an address and comes
    from an endpoint of the manifest that is not hidden, with its name
    and description; each of its addresses is an address of a service
    under the selector of that endpoint which ends in its port, when it
    has one, with [protocol://] in front when it has a protocol. *)
Theorem GetApplicationEndpoints_sound (o o' : opsservice.Operator)
        (key : string) (endpoints : list opsservice.Endpoint)
        (ep : opsservice.Endpoint) :
  opsservice.GetApplicationEndpoints ext int MakeSelector dial openSite o key
  = ((endpoints, None), o') ->
  In ep endpoints ->
  opsservice.Addresses ep <> []
  /\ exists manifest e client nodeList namespaces,
      openSite key = inl manifest
      /\ In e manifest
      /\ opsservice.me_Hidden e = false
      /\ opsservice.Name ep = opsservice.me_Name e
      /\ opsservice.Description ep = opsservice.me_Description e
      /\ opsservice.GetKubeClient dial o = (inl client, o')
      /\ Nodes_List client = inl nodeList
      /\ Namespaces_List client = inl namespaces
      /\ forall a,
          In a (opsservice.Addresses ep) ->
          exists ns services service raw,
            In ns namespaces
            /\ Services_List client (ns_Name ns)
                             (MakeSelector (opsservice.me_Selector e))
               = inl services
            /\ In service services
            /\ In raw (fst (opsservice.getAddresses ext int service nodeList))
            /\ (opsservice.me_Port e = 0
                \/ HasSuffix raw (":" ++ itoa (opsservice.me_Port e)) = true)
            /\ a = if String.eqb (opsservice.me_Protocol e) ""
                   then raw
                   else (opsservice.me_Protocol e ++ "://" ++ raw)%string.
Proof.
  intros H Hep. apply GetApplicationEndpoints_success in H.
  destruct H as (manifest & Hsite & [(-> & -> & ->)|(Hne & client & nodeList & namespaces & Hc & Hn & Hs & Hloop)]);
    [destruct Hep|].
  apply collectEndpoints_gathers in Hloop. cbn [app] in Hloop. subst endpoints.
  apply in_flat_map in Hep. destruct Hep as (e & He & Hrep).
  unfold opsservice.reported in Hrep.
  destruct (opsservice.me_Hidden e) eqn:Hhidden; [destruct Hrep|].
  destruct (opsservice.addressesFor ext int MakeSelector e client nodeList
                                    namespaces)
    as [|a0 addresses] eqn:Haddr; [destruct Hrep|].
  destruct Hrep as [<-|[]]. cbn [opsservice.Addresses opsservice.Name
                                 opsservice.Description].
  split; [discriminate|].
  exists manifest, e, client, nodeList, namespaces.
  repeat (split; [auto; fail|]).
  intros a Ha. rewrite <- Haddr in Ha. unfold opsservice.addressesFor in Ha.
  apply in_flat_map in Ha. destruct Ha as (service & Hservice & Ha).
  unfold opsservice.servicesOf in Hservice. apply in_flat_map in Hservice.
  destruct Hservice as (ns & Hin & Hservice).
  destruct (Services_List client (ns_Name ns)
                          (MakeSelector (opsservice.me_Selector e)))
    as [services|err] eqn:Hlist; [|destruct Hservice].
  unfold opsservice.selected in Ha. apply in_flat_map in Ha.
  destruct Ha as (raw & Hraw & Ha).
  exists ns, services, service, raw.
  destruct (opsservice.me_Port e =? 0) eqn:Hport.
  - apply Z.eqb_eq in Hport. destruct Ha as [<-|[]]. auto 10.
  - cbn [orb] in Ha.
    destruct (HasSuffix raw (":" ++ itoa (opsservice.me_Port e))) eqn:Hsuffix;
      [|destruct Ha].
    destruct Ha as [<-|[]]. auto 10.
Qed.

(** X11.  With no namespace in the cluster, or when every endpoint of
    the manifest is hidden, the answer is empty and no service is
    queried: it is a success even where every query for services would
    fail. *)
Theorem GetApplicationEndpoints_nothing_to_report
        (o : opsservice.Operator) (key : string)
        (manifest : list opsservice.ManifestEndpoint)
        (client : Clientset) (o' : opsservice.Operator)
        (nodeList : list Node) (namespaces : list Namespace) :
  openSite key = inl manifest ->
  opsservice.GetKubeClient dial o = (inl client, o') ->
  Nodes_List client = inl nodeList ->
  Namespaces_List client = inl namespaces ->
  namespaces = []
  \/ (forall e, In e manifest -> opsservice.me_Hidden e = true) ->
  fst (opsservice.GetApplicationEndpoints ext int MakeSelector dial openSite
                                          o key)
  = ([], None).
Proof.
  intros Hsite Hc Hn Hs Hnothing.
  unfold opsservice.GetApplicationEndpoints. rewrite Hsite.
  destruct manifest as [|e0 manifest0] eqn:Hm; [reflexivity|].
  rewrite <- Hm in *. rewrite Hc, Hn, Hs.
  assert (Hloop : forall endpoints,
             opsservice.collectEndpoints ext int MakeSelector client nodeList
                                         namespaces manifest endpoints
             = inl endpoints).
  { clear Hm Hsite. induction manifest as [|e rest IH]; intros endpoints;
      [reflexivity|].
    cbn [opsservice.collectEndpoints].
    destruct Hnothing as [->|Hhidden].
    - destruct (opsservice.me_Hidden e).
      + apply IH. left. reflexivity.
      + cbn [opsservice.listServices]. apply IH. left. reflexivity.
    - rewrite (Hhidden e (or_introl eq_refl)). apply IH. right.
      intros e' He'. apply Hhidden. right. exact He'. }
  rewrite Hloop. reflexivity.
Qed.
End ApplicationEndpoints.

Lemma GetApplicationEndpoints_reports_witness :
  exists manifest,
    exOpenSite "example.com" = inl manifest
    /\ (manifest = [] ->
        [ {| opsservice.Name := "Web";
             opsservice.Description := "The site";
             opsservice.Addresses := ["https://lb.example.com:443"] |} ] = []
        /\ {| opsservice.kubeClient := Some exCluster; opsservice.dials := 2 |}
           = exOperator)
    /\ (manifest <> [] ->
        exists client nodeList namespaces,
          opsservice.GetKubeClient exDial exOperator
          = (inl client,
             {| opsservice.kubeClient := Some exCluster; opsservice.dials := 2 |})
          /\ Nodes_List client = inl nodeList
          /\ Namespaces_List client = inl namespaces
          /\ [ {| opsservice.Name := "Web";
                  opsservice.Description := "The site";
                  opsservice.Addresses := ["https://lb.example.com:443"] |} ]
             = flat_map (opsservice.reported "ExternalIP" "InternalIP" exSelector
                                             client nodeList namespaces)
                        manifest).
Proof.
  apply (GetApplicationEndpoints_reports "ExternalIP" "InternalIP" exSelector
           exDial exOpenSite exOperator
           {| opsservice.kubeClient := Some exCluster; opsservice.dials := 2 |}
           "example.com").
  vm_compute. reflexivity.
Defined.

Lemma GetApplicationEndpoints_sound_witness :
  opsservice.Addresses
    {| opsservice.Name := "Web";
       opsservice.Description := "The site";
       opsservice.Addresses := ["https://lb.example.com:443"] |} <> [].
Proof.
  apply (GetApplicationEndpoints_sound "ExternalIP" "InternalIP" exSelector
           exDial exOpenSite exOperator
           {| opsservice.kubeClient := Some exCluster; opsservice.dials := 2 |}
           "example.com"
           [ {| opsservice.Name := "Web";
                opsservice.Description := "The site";
                opsservice.Addresses := ["https://lb.example.com:443"] |} ]).
  - vm_compute. reflexivity.
  - left. reflexivity.
Defined.

Lemma GetApplicationEndpoints_nothing_to_report_witness :
  fst (opsservice.GetApplicationEndpoints "ExternalIP" "InternalIP" exSelector
         exDial (fun _ => inl (filter opsservice.me_Hidden exManifest))
         exOperator "example.com")
  = ([], None).
Proof.
  apply (GetApplicationEndpoints_nothing_to_report "ExternalIP" "InternalIP"
           exSelector exDial
           (fun _ => inl (filter opsservice.me_Hidden exManifest))
           exOperator "example.com"
           (filter opsservice.me_Hidden exManifest) exCluster
           {| opsservice.kubeClient := Some exCluster; opsservice.dials := 2 |}
           [exNode] [ {| ns_Name := "default" |} ]).
  - reflexivity.
  - reflexivity.
  - reflexivity.
  - reflexivity.
  - right. intros e [<-|[]]. reflexivity.
Defined.

(** ** The port of an address *)

Lemma uint_has_no_colon (d : Decimal.uint) (x y : string) :
  NilEmpty.string_of_uint d <> (x ++ String ":" y)%string.
Proof.
  revert x. induction d; intros x H; destruct x as [|c x];
    simpl in H; try discriminate;
    injection H as _ H; exact (IHd x H).
Qed.

Lemma itoa_has_no_colon (z : Z) (x y : string) :
  itoa z <> (x ++ String ":" y)%string.
Proof.
  unfold itoa, NilZero.string_of_int. intros H.
  assert (Hu : forall d x y,
             NilZero.string_of_uint d <> (x ++ String ":" y)%string).
  { intros d x0 y0. unfold NilZero.string_of_uint.
    destruct d; try apply uint_has_no_colon.
    destruct x0 as [|c [|c' x0]]; discriminate. }
  destruct (Z.to_int z) as [d|d].
  - exact (Hu d x y H).
  - destruct x as [|c x]; [discriminate|].
    simpl in H. injection H as _ H. exact (Hu d x y H).
Qed.

Lemma itoa_inj (p q : Z) : itoa p = itoa q -> p = q.
Proof.
  unfold itoa. intros H. apply DecimalZ.to_int_inj.
  assert (Hnil : forall z, Z.to_int z <> Decimal.Pos Decimal.Nil
                           /\ Z.to_int z <> Decimal.Neg Decimal.Nil).
  { intros z. split; intros Hz;
      pose proof (DecimalZ.of_to z) as Hof; rewrite Hz in Hof;
      simpl in Hof; subst z; discriminate. }
  pose proof (NilZero.isi (Z.to_int p) (proj1 (Hnil p)) (proj2 (Hnil p))) as Hp.
  pose proof (NilZero.isi (Z.to_int q) (proj1 (Hnil q)) (proj2 (Hnil q))) as Hq.
  rewrite H in Hp. congruence.
Qed.

Lemma same_port (host pre a b : string) :
  (forall x y, a <> (x ++ String ":" y)%string) ->
  (forall x y, b <> (x ++ String ":" y)%string) ->
  (host ++ String ":" a)%string = (pre ++ String ":" b)%string ->
  a = b.
Proof.
  intros Ha Hb. revert pre.
  induction host as [|c host IH]; intros [|c' pre] H; simpl in H.
  - congruence.
  - injection H as _ H. destruct (Ha _ _ H).
  - injection H as _ H. symmetry in H. destruct (Hb _ _ H).
  - injection H as _ H. exact (IH pre H).
Qed.

Lemma substring_all (s : string) : substring 0 (String.length s) s = s.
Proof. induction s as [|c s IH]; simpl; congruence. Qed.

Lemma substring_after (pre s : string) :
  substring (String.length pre) (String.length s) (pre ++ s) = s.
Proof. induction pre as [|c pre IH]; simpl; [apply substring_all|exact IH]. Qed.

Lemma substring_split (s : string) (n m : nat) :
  (n + m = String.length s)%nat ->
  s = (substring 0 n s ++ substring n m s)%string.
Proof.
  revert n m. induction s as [|c s IH]; intros n m H; simpl in H.
  - destruct n; [|discriminate]. destruct m; [reflexivity|discriminate].
  - destruct n as [|n].
    + simpl in H. subst m. cbn [substring append].
      rewrite substring_all. reflexivity.
    + simpl. f_equal. apply IH. simpl in H. congruence.
Qed.

Lemma length_append (s t : string) :
  String.length (s ++ t) = (String.length s + String.length t)%nat.
Proof. induction s as [|c s IH]; simpl; congruence. Qed.

Lemma HasSuffix_iff (s suffix : string) :
  HasSuffix s suffix = true <-> exists pre, s = (pre ++ suffix)%string.
Proof.
  unfold HasSuffix. rewrite andb_true_iff, Nat.leb_le, String.eqb_eq. split.
  - intros [Hlen Hsub].
    exists (substring 0 (String.length s - String.length suffix) s).
    pose proof (substring_split s (String.length s - String.length suffix)
                                (String.length suffix) ltac:(lia)) as Hsplit.
    rewrite Hsub in Hsplit. exact Hsplit.
  - intros [pre ->]. rewrite length_append. split; [lia|].
    replace (String.length pre + String.length suffix - String.length suffix)%nat
      with (String.length pre) by lia.
    apply substring_after.
Qed.

Lemma HasSuffix_port (host : string) (p q : Z) :
  HasSuffix (hostPort host q) (":" ++ itoa p) = true <-> q = p.
Proof.
  rewrite HasSuffix_iff. unfold hostPort. split.
  - intros [pre H]. apply itoa_inj.
    exact (same_port host pre (itoa q) (itoa p)
                     (itoa_has_no_colon q) (itoa_has_no_colon p) H).
  - intros ->. exists host. reflexivity.
Qed.

Lemma HasSuffix_port_eqb (host : string) (p q : Z) :
  HasSuffix (hostPort host q) (":" ++ itoa p) = (q =? p).
Proof.
  destruct (Z.eqb_spec q p) as [Heq|Hne].
  - apply HasSuffix_port. exact Heq.
  - destruct (HasSuffix (hostPort host q) (":" ++ itoa p)) eqn:H;
      [|reflexivity].
    apply HasSuffix_port in H. contradiction.
Qed.

(** X12.  The port of an endpoint selects by number, not by the text of
    the address: of the addresses [host:port] of a service, an endpoint
    with a port keeps exactly those with that port, whatever the host
    looks like, and an endpoint without a port keeps them all; the kept
    ones stay in order, behind what was gathered before, with the
    protocol of the endpoint in front when it has one. *)
Theorem selectAddresses_by_port (e : opsservice.ManifestEndpoint)
        (l : list (string * Z)) (addresses : list string) :
  opsservice.selectAddresses
    e (map (fun hp => hostPort (fst hp) (snd hp)) l) addresses
  = (addresses
     ++ map (fun hp =>
               if String.eqb (opsservice.me_Protocol e) ""
               then hostPort (fst hp) (snd hp)
               else (opsservice.me_Protocol e ++ "://"
                     ++ hostPort (fst hp) (snd hp))%string)
            (filter (fun hp =>
                       (opsservice.me_Port e =? 0)
                       || (snd hp =? opsservice.me_Port e))
                    l))%list.
Proof.
  rewrite selectAddresses_selected. f_equal.
  unfold opsservice.selected.
  induction l as [|[host q] l IH]; [reflexivity|].
  cbn [map flat_map filter fst snd].
  rewrite HasSuffix_port_eqb, IH.
  destruct ((opsservice.me_Port e =? 0) || (q =? opsservice.me_Port e));
    reflexivity.
Qed.

Lemma selected_none (e : opsservice.ManifestEndpoint) (l : list string) :
  opsservice.me_Port e <> 0 ->
  (forall a, In a l ->
             exists host q, a = hostPort host q /\ q <> opsservice.me_Port e) ->
  opsservice.selected e l = [].
Proof.
  intros Hport Hl. unfold opsservice.selected.
  induction l as [|a l IH]; [reflexivity|].
  cbn [flat_map].
  destruct (Hl a (or_introl eq_refl)) as (host & q & -> & Hq).
  rewrite HasSuffix_port_eqb.
  destruct (Z.eqb_spec (opsservice.me_Port e) 0) as [H0|_]; [contradiction|].
  destruct (Z.eqb_spec q (opsservice.me_Port e)) as [Heq|_]; [contradiction|].
  cbn [orb app]. apply IH. intros a' Ha'. apply Hl. right. exact Ha'.
Qed.

(** X13.  A service without a load balancer that is exposed on node
    ports, in a cluster whose nodes have addresses, is listed under its
    node ports only: an endpoint that names another port, such as the
    port of the service itself, gets no address from that service. *)
Theorem selectAddresses_node_port_mismatch
        (ext int : string) (e : opsservice.ManifestEndpoint)
        (service : Service) (nodeList : list Node) (addresses : list string) :
  svc_Ingress service = [] ->
  opsservice.nodePortsOf service <> [] ->
  opsservice.addressesOfType ext nodeList <> []
  \/ opsservice.addressesOfType int nodeList <> [] ->
  opsservice.me_Port e <> 0 ->
  ~ In (opsservice.me_Port e) (opsservice.nodePortsOf service) ->
  opsservice.selectAddresses
    e (fst (opsservice.getAddresses ext int service nodeList)) addresses
  = addresses.
Proof.
  intros Hingress Hnp Hips Hport Hnot.
  rewrite selectAddresses_selected.
  rewrite (selected_none e); [apply app_nil_r|exact Hport|].
  assert (Hprod : forall ips a,
             In a (flat_map (fun ip => map (fun port => hostPort ip port)
                                           (opsservice.nodePortsOf service))
                            ips) ->
             exists host q, a = hostPort host q /\ q <> opsservice.me_Port e).
  { intros ips a Ha. apply in_flat_map in Ha. destruct Ha as (ip & _ & Ha).
    apply in_map_iff in Ha. destruct Ha as (np & <- & Hin).
    exists ip, np. split; [reflexivity|]. intros ->. contradiction. }
  unfold opsservice.getAddresses. rewrite Hingress.
  destruct (opsservice.nodePortsOf service) as [|np nps] eqn:Hports;
    [congruence|].
  destruct (opsservice.addressesOfType ext nodeList) as [|ip ips] eqn:Hext.
  - destruct (opsservice.addressesOfType int nodeList) as [|ip ips] eqn:Hint.
    + destruct Hips; congruence.
    + cbn [fst]. apply Hprod.
  - cbn [fst]. apply Hprod.
Qed.

Lemma selectAddresses_node_port_mismatch_witness :
  opsservice.selectAddresses
    {| opsservice.me_Name := "Admin";
       opsservice.me_Description := "";
       opsservice.me_Selector := [("app", "web")];
       opsservice.me_Port := 8080;
       opsservice.me_Protocol := "http";
       opsservice.me_Hidden := false |}
    (fst (opsservice.getAddresses "ExternalIP" "InternalIP" exAdmin [exNode]))
    []
  = [].
Proof.
  apply (selectAddresses_node_port_mismatch "ExternalIP" "InternalIP"
           {| opsservice.me_Name := "Admin";
              opsservice.me_Description := "";
              opsservice.me_Selector := [("app", "web")];
              opsservice.me_Port := 8080;
              opsservice.me_Protocol := "http";
              opsservice.me_Hidden := false |}
           exAdmin [exNode] []).
  - reflexivity.
  - discriminate.
  - left. discriminate.
  - discriminate.
  - intros [H|[]]. discriminate.
Defined.

(** * The discovery publisher *)

Section DiscoveryFacts.
Variables GravityServicePortName GravityServiceName : string.

Lemma servicePort_first (pre post : list ServicePort) (p : ServicePort) :
  (forall p', In p' pre -> sp_Name p' <> GravityServicePortName) ->
  sp_Name p = GravityServicePortName ->
  aws.servicePort GravityServicePortName (pre ++ p :: post) = sp_Port p.
Proof.
  intros Hpre Hp. induction pre as [|p0 pre IH]; simpl.
  - rewrite Hp, String.eqb_refl. reflexivity.
  - destruct (String.eqb_spec (sp_Name p0) GravityServicePortName) as [Heq|_].
    + destruct (Hpre p0 (or_introl eq_refl) Heq).
    + apply IH. intros p' Hin. apply Hpre. right. exact Hin.
Qed.

Lemma ingressURL_first (port : int32) (pre post : list LoadBalancerIngress)
      (i : LoadBalancerIngress) :
  (forall i', In i' pre -> ing_Hostname i' = "") ->
  ing_Hostname i <> "" ->
  aws.ingressURL port (pre ++ i :: post)
  = Some ("https://" ++ hostPort (ing_Hostname i) port).
Proof.
  intros Hpre Hi. induction pre as [|i0 pre IH]; simpl.
  - destruct (String.eqb_spec (ing_Hostname i) "") as [Heq|_];
      [contradiction|reflexivity].
  - rewrite (Hpre i0 (or_introl eq_refl)). simpl.
    apply IH. intros i' Hin. apply Hpre. right. exact Hin.
Qed.

Lemma ingressURL_none (port : int32) (ingresses : list LoadBalancerIngress) :
  aws.ingressURL port ingresses = None
  <-> forall i, In i ingresses -> ing_Hostname i = "".
Proof.
  induction ingresses as [|i0 rest IH]; simpl.
  - split; [intros _ i []|reflexivity].
  - destruct (String.eqb_spec (ing_Hostname i0) "") as [Heq|Hne];
      simpl.
    + rewrite IH. split.
      * intros H i [<-|Hin]; auto.
      * intros H i Hin. apply H. right. exact Hin.
    + split; [discriminate|]. intros H.
      destruct (Hne (H i0 (or_introl eq_refl))).
Qed.

(** X14.  The address of the gravity service is made of the first port
    with the service port name and the first ingress with a host name:
    later ports of that name and later ingresses play no part, and a
    first port of that name with number 0 counts as no port, whatever
    follows it. *)
Theorem serviceURL_first_port_first_ingress
        (service : Service) (pre post : list ServicePort) (p : ServicePort)
        (ipre ipost : list LoadBalancerIngress) (i : LoadBalancerIngress) :
  svc_Ports service = (pre ++ p :: post)%list ->
  (forall p', In p' pre -> sp_Name p' <> GravityServicePortName) ->
  sp_Name p = GravityServicePortName ->
  svc_Ingress service = (ipre ++ i :: ipost)%list ->
  (forall i', In i' ipre -> ing_Hostname i' = "") ->
  ing_Hostname i <> "" ->
  (sp_Port p <> 0 ->
   aws.serviceURL GravityServicePortName GravityServiceName service
   = ("https://" ++ ing_Hostname i ++ ":" ++ itoa (sp_Port p), None))
  /\ (sp_Port p = 0 ->
      exists msg,
        aws.serviceURL GravityServicePortName GravityServiceName service
        = ("", Some (trace_NotFound msg))).
Proof.
  intros Hports Hpre Hp Hingress Hipre Hi.
  unfold aws.serviceURL.
  rewrite Hports, (servicePort_first pre post p Hpre Hp). split.
  - intros Hport.
    destruct (Z.eqb_spec (sp_Port p) 0) as [H0|_]; [contradiction|].
    rewrite Hingress, (ingressURL_first (sp_Port p) ipre ipost i Hipre Hi).
    reflexivity.
  - intros ->. cbn. eexists. reflexivity.
Qed.

(** X15.  The address is found exactly when the service has a port of
    the service port name whose first one is not 0 and an ingress with a
    host name; otherwise the answer is the empty address with a
    not-found error. *)
Theorem serviceURL_found_iff (service : Service) :
  (snd (aws.serviceURL GravityServicePortName GravityServiceName service) = None
   <-> aws.servicePort GravityServicePortName (svc_Ports service) <> 0
       /\ exists i, In i (svc_Ingress service) /\ ing_Hostname i <> "")
  /\ (forall e,
         snd (aws.serviceURL GravityServicePortName GravityServiceName service)
         = Some e ->
         fst (aws.serviceURL GravityServicePortName GravityServiceName service)
         = ""
         /\ exists msg, e = trace_NotFound msg).
Proof.
  unfold aws.serviceURL.
  destruct (Z.eqb_spec
              (aws.servicePort GravityServicePortName (svc_Ports service)) 0)
    as [H0|Hport].
  - cbn [fst snd]. split.
    + split; [discriminate|]. intros [H _]. contradiction.
    + intros e He. inversion He. split; [reflexivity|]. eexists. reflexivity.
  - destruct (aws.ingressURL
                (aws.servicePort GravityServicePortName (svc_Ports service))
                (svc_Ingress service)) as [url|] eqn:Hurl; cbn [fst snd].
    + split; [|discriminate]. split; [|reflexivity]. intros _.
      split; [exact Hport|].
      assert (Hnone : ~ (forall i, In i (svc_Ingress service) ->
                                   ing_Hostname i = "")).
      { intros Hall. apply ingressURL_none with (port :=
          aws.servicePort GravityServicePortName (svc_Ports service)) in Hall.
        congruence. }
      clear Hurl. induction (svc_Ingress service) as [|i0 rest IH].
      * destruct Hnone. intros i [].
      * destruct (String.eqb_spec (ing_Hostname i0) "") as [Heq|Hne].
        -- destruct IH as (i & Hin & Hi).
           ++ intros Hall. apply Hnone. intros i [<-|Hin]; auto.
           ++ exists i. split; [right; exact Hin|exact Hi].
        -- exists i0. split; [left; reflexivity|exact Hne].
    + split.
      * split; [discriminate|]. intros [_ (i & Hin & Hi)].
        destruct (Hi (proj1 (ingressURL_none _ _) Hurl i Hin)).
      * intros e He. inversion He. split; [reflexivity|].
        eexists. reflexivity.
Qed.
End DiscoveryFacts.

Lemma serviceURL_first_port_first_ingress_witness :
  aws.serviceURL "web" "gravity-site" exGravitySite
  = ("https://elb.amazonaws.com:3009", None).
Proof.
  apply (proj1 (serviceURL_first_port_first_ingress "web" "gravity-site"
                  exGravitySite []
                  []
                  {| sp_Name := "web"; sp_Port := 3009; sp_NodePort := 32009 |}
                  [ {| ing_Hostname := "" |} ] []
                  {| ing_Hostname := "elb.amazonaws.com" |}
                  eq_refl
                  ltac:(intros p' [])
                  eq_refl
                  eq_refl
                  ltac:(intros i' [<-|[]]; reflexivity)
                  ltac:(discriminate))).
  discriminate.
Defined.

Section PublisherFacts.
Variables GravityServicePortName GravityServiceName : string.
Variable env : aws.Env.

Lemma trace_Wrap_None (err : option error) :
  trace_Wrap err = None <-> err = None.
Proof.
  destruct err as [e|]; [|split; reflexivity].
  split; [|discriminate]. intros H. destruct (trace_Wrap_Some _ H).
Qed.

(** X16.  One sync publishes the join token before the address of the
    service, and the address only when the token was stored: it succeeds
    exactly when it made the five calls in order, each with success, for
    the token of the local cluster and the address of the service.  A
    failure does not take back what was published before it. *)
Theorem syncDiscovery_publishes_in_order (h : list aws.Call) :
  exists calls,
    snd (aws.syncDiscovery GravityServicePortName GravityServiceName env h)
    = (h ++ calls)%list
    /\ (fst (aws.syncDiscovery GravityServicePortName GravityServiceName env h)
        = None
        <-> exists cluster token service url,
            calls = [ aws.GetLocalSite (inl cluster);
                      aws.GetExpandToken cluster (inl token);
                      aws.PublishJoinToken token None;
                      aws.GetService (inl service);
                      aws.PublishServiceURL url None ]
            /\ aws.serviceURL GravityServicePortName GravityServiceName service
               = (url, None))
    /\ (forall url answer,
           In (aws.PublishServiceURL url answer) calls ->
           exists cluster token rest,
             calls = aws.GetLocalSite (inl cluster)
                     :: aws.GetExpandToken cluster (inl token)
                     :: aws.PublishJoinToken token None
                     :: rest).
Proof.
  unfold aws.syncDiscovery, aws.syncToken, aws.syncMasterService,
    aws.getServiceURL, traced_bind, ask, traced_ret.
  repeat match goal with
         | |- context [match ?x with inl _ => _ | inr _ => _ end] =>
             destruct x eqn:?
         | |- context [aws.serviceURL ?a ?b ?c] =>
             destruct (aws.serviceURL a b c) as [? [?|]] eqn:?
         | |- context [trace_Wrap (Some ?e)] =>
             let H := fresh "Hw" in
             pose proof (trace_Wrap_Some e) as H;
             destruct (trace_Wrap (Some e)); [clear H|congruence]
         | |- context [trace_Wrap None] =>
             change (trace_Wrap None) with (@None error)
         | |- context [aws.env_publishJoinToken env ?a ?b] =>
             destruct (aws.env_publishJoinToken env a b) eqn:?
         | |- context [aws.env_publishServiceURL env ?a ?b] =>
             destruct (aws.env_publishServiceURL env a b) eqn:?
         | _ => progress cbn [fst snd]
         end;
    rewrite <- ?app_assoc; cbn [app]; eexists; (split; [reflexivity|]);
    (split;
     [ split;
       [ intros Hnone;
         first [ discriminate Hnone
               | do 4 eexists; split; [reflexivity|eassumption] ]
       | intros (c & t & sv & u & Hc & Hu);
         first [ reflexivity | discriminate Hc ] ]
     | intros url answer Hin; simpl in Hin;
       repeat (destruct Hin as [Hin|Hin]; try discriminate Hin);
       try contradiction;
       do 3 eexists; reflexivity ]).
Qed.




End PublisherFacts.

(** * The package pulls of the installer *)

Section PullFacts.
Variable trace_IsAlreadyExists : error -> bool.

Lemma runDeferred_closes (deferred : list service.Reader)
      (h : list service.Call) :
  service.runDeferred deferred h
  = (tt, (h ++ map service.Close deferred)%list).
Proof.
  revert h. induction deferred as [|reader rest IH]; intros h.
  - simpl. rewrite app_nil_r. reflexivity.
  - cbn [service.runDeferred map]. unfold traced_bind.
    rewrite IH, <- app_assoc. reflexivity.
Qed.

Lemma pullPackagesLoop_facts (locators : list service.Locator)
      (localPackages remotePackages : service.PackageService)
      (deferred : list service.Reader) (h : list service.Call) :
  exists work,
    snd (service.pullPackagesLoop locators localPackages remotePackages
                                  deferred h)
    = (h ++ work)%list
    /\ service.closed work = []
    /\ snd (fst (service.pullPackagesLoop locators localPackages
                                          remotePackages deferred h))
       = (List.rev (service.opened work) ++ deferred)%list
    /\ (exists k, service.reads work = firstn k locators)
    /\ (fst (fst (service.pullPackagesLoop locators localPackages
                                           remotePackages deferred h)) = None ->
        service.reads work = locators
        /\ forallb (fun c => negb (service.failed c)) work = true
        /\ List.length work = (3 * List.length locators)%nat)
    /\ (forall e,
           fst (fst (service.pullPackagesLoop locators localPackages
                                              remotePackages deferred h))
           = Some e ->
           exists done last,
             work = (done ++ [last])%list
             /\ service.failed last = true
             /\ forallb (fun c => negb (service.failed c)) done = true).
Proof.
  revert deferred h.
  induction locators as [|locator rest IH]; intros deferred h.
  - exists []. simpl. rewrite app_nil_r.
    repeat split; auto; try discriminate. exists O. reflexivity.
  - cbn [service.pullPackagesLoop]. unfold traced_bind, ask, traced_ret.
    destruct (service.ps_ReadPackage remotePackages h locator)
      as [[envelope reader]|err] eqn:Hread.
    + destruct (service.ps_UpsertRepository localPackages _ _) as [e1|] eqn:Hup.
      * eexists [_; _]. rewrite <- app_assoc. cbn [fst snd app].
        split; [reflexivity|]. split; [reflexivity|]. split; [reflexivity|].
        split; [exists 1%nat; reflexivity|].
        split; [intros H; destruct (trace_Wrap_Some _ H)|].
        intros e _. eexists [_], _. repeat split; reflexivity.
      * destruct (service.ps_CreatePackage localPackages _ _ _ _)
          as [e2|] eqn:Hcreate.
        -- eexists [_; _; _]. rewrite <- !app_assoc. cbn [fst snd app].
           split; [reflexivity|]. split; [reflexivity|]. split; [reflexivity|].
           split; [exists 1%nat; reflexivity|].
           split; [intros H; destruct (trace_Wrap_Some _ H)|].
           intros e _. eexists [_; _], _. repeat split; reflexivity.
        -- match goal with
           | |- context [service.pullPackagesLoop rest _ _ ?d ?h'] =>
               destruct (IH d h')
                 as (work & Hcalls & Hclosed & Hdeferred & [k Hk] & Hok & Hfail)
           end.
           eexists (_ :: _ :: _ :: work).
           rewrite Hcalls, Hdeferred.
           split; [rewrite <- !app_assoc; reflexivity|].
           split; [exact Hclosed|].
           split.
           { unfold service.opened. simpl.
             rewrite <- app_assoc. reflexivity. }
           split.
           { exists (Datatypes.S k). unfold service.reads in *. simpl.
             rewrite Hk. reflexivity. }
           split.
           { intros H. destruct (Hok H) as (Hreads & Hnone & Hlen).
             unfold service.reads in *. simpl.
             rewrite Hreads, Hnone, Hlen.
             repeat split; lia. }
           intros e H. destruct (Hfail e H) as (done & last & -> & Hlast & Hdone).
           eexists (_ :: _ :: _ :: done), last.
           split; [reflexivity|]. split; [exact Hlast|].
           cbn [forallb service.failed negb andb]. exact Hdone.
    + eexists [_]. cbn [fst snd app].
      split; [reflexivity|]. split; [reflexivity|]. split; [reflexivity|].
      split; [exists 1%nat; reflexivity|].
      split; [intros H; destruct (trace_Wrap_Some _ H)|].
      intros e _. eexists [], _. repeat split; reflexivity.
Qed.

Lemma pullApplicationsLoop_facts (locators : list service.Locator)
      (localApps remoteApps : service.applications)
      (deferred : list service.Reader) (h : list service.Call) :
  exists work,
    snd (service.pullApplicationsLoop trace_IsAlreadyExists locators localApps
                                      remoteApps deferred h)
    = (h ++ work)%list
    /\ service.closed work = []
    /\ snd (fst (service.pullApplicationsLoop trace_IsAlreadyExists locators
                                              localApps remoteApps deferred h))
       = (List.rev (service.opened work) ++ deferred)%list
    /\ (exists k, service.reads work = firstn k locators)
    /\ (fst (fst (service.pullApplicationsLoop trace_IsAlreadyExists locators
                                               localApps remoteApps deferred h))
        = None ->
        service.reads work = locators
        /\ forallb (fun c => implb (service.failed c)
                                   (service.skipped trace_IsAlreadyExists c))
                   work = true)
    /\ (forall e,
           fst (fst (service.pullApplicationsLoop trace_IsAlreadyExists locators
                                                  localApps remoteApps deferred h))
           = Some e ->
           exists done last,
             work = (done ++ [last])%list
             /\ service.failed last = true
             /\ service.skipped trace_IsAlreadyExists last = false
             /\ forallb (fun c => implb (service.failed c)
                                        (service.skipped trace_IsAlreadyExists c))
                        done = true).
Proof.
  revert deferred h.
  induction locators as [|locator rest IH]; intros deferred h.
  - exists []. simpl. rewrite app_nil_r.
    repeat split; auto; try discriminate. exists O. reflexivity.
  - cbn [service.pullApplicationsLoop]. unfold traced_bind, ask, traced_ret.
    destruct (service.ps_ReadPackage (service.Packages remoteApps) h locator)
      as [[envelope reader]|err] eqn:Hread.
    + assert (Hnext : forall answer,
                 (forall e, answer = Some e -> trace_IsAlreadyExists e = true) ->
                 let call :=
                   service.CreateAppWithManifest
                     (service.ps_Name (service.Packages localApps))
                     (service.env_Locator envelope)
                     (service.env_Manifest envelope) reader answer in
                 let read :=
                   service.ReadPackage
                     (service.ps_Name (service.Packages remoteApps)) locator
                     (inl (envelope, reader)) in
                 let r := service.pullApplicationsLoop
                            trace_IsAlreadyExists rest localApps remoteApps
                            (reader :: deferred)
                            ((h ++ [read]) ++ [call])%list in
                 exists work,
                   snd r = (h ++ work)%list
                   /\ service.closed work = []
                   /\ snd (fst r)
                      = (List.rev (service.opened work) ++ deferred)%list
                   /\ (exists k, service.reads work = firstn k (locator :: rest))
                   /\ (fst (fst r) = None ->
                       service.reads work = locator :: rest
                       /\ forallb (fun c =>
                                     implb (service.failed c)
                                           (service.skipped trace_IsAlreadyExists c))
                                  work = true)
                   /\ (forall e,
                          fst (fst r) = Some e ->
                          exists done last,
                            work = (done ++ [last])%list
                            /\ service.failed last = true
                            /\ service.skipped trace_IsAlreadyExists last = false
                            /\ forallb (fun c =>
                                          implb (service.failed c)
                                                (service.skipped
                                                   trace_IsAlreadyExists c))
                                       done = true)).
      { intros answer Hanswer call read r.
        assert (Hcall : implb (service.failed call)
                              (service.skipped trace_IsAlreadyExists call)
                        = true).
        { unfold call. destruct answer as [e|]; [|reflexivity].
          simpl. exact (Hanswer e eq_refl). }
        destruct (IH (reader :: deferred) ((h ++ [read]) ++ [call])%list)
          as (work & Hcalls & Hclosed & Hdeferred & [k Hk] & Hok & Hfail).
        fold r in Hcalls, Hdeferred, Hok, Hfail.
        exists (read :: call :: work).
        rewrite Hcalls, Hdeferred.
        split; [rewrite <- !app_assoc; reflexivity|].
        split; [exact Hclosed|].
        split.
        { unfold service.opened. simpl. rewrite <- app_assoc. reflexivity. }
        split.
        { exists (Datatypes.S k). unfold service.reads in *. simpl.
          rewrite Hk. reflexivity. }
        split.
        { intros H. destruct (Hok H) as (Hreads & Hnone).
          unfold service.reads in *. cbn [flat_map read call app forallb].
          rewrite Hreads. split; [reflexivity|].
          fold call. rewrite Hcall, Hnone. reflexivity. }
        intros e H.
        destruct (Hfail e H) as (done & last & -> & Hlast & Hskip & Hdone).
        exists (read :: call :: done), last.
        split; [reflexivity|]. split; [exact Hlast|]. split; [exact Hskip|].
        cbn [forallb]. rewrite Hcall, Hdone. reflexivity. }
      destruct (service.apps_CreateAppWithManifest localApps _ _ _ _)
        as [e1|] eqn:Hcreate.
      * destruct (trace_IsAlreadyExists e1) eqn:Hexists; cbn [negb].
        -- apply (Hnext (Some e1)). intros e He. congruence.
        -- eexists [_; _]. rewrite <- app_assoc. cbn [fst snd app].
           split; [reflexivity|]. split; [reflexivity|]. split; [reflexivity|].
           split; [exists 1%nat; reflexivity|].
           split; [intros H; destruct (trace_Wrap_Some _ H)|].
           intros e _. eexists [_], _.
           split; [reflexivity|]. split; [reflexivity|].
           split; [exact Hexists|reflexivity].
      * apply (Hnext None). discriminate.
    + eexists [_]. cbn [fst snd app].
      split; [reflexivity|]. split; [reflexivity|]. split; [reflexivity|].
      split; [exists 1%nat; reflexivity|].
      split; [intros H; destruct (trace_Wrap_Some _ H)|].
      intros e _. eexists [], _. repeat split; reflexivity.
Qed.

Lemma reads_closes (readers : list service.Reader) :
  service.reads (map service.Close readers) = [].
Proof. induction readers as [|r rest IH]; [reflexivity|exact IH]. Qed.

Lemma firstn_prefix {A : Type} (k : nat) (l l' : list A) :
  exists k', firstn k l = firstn k' (l ++ l')%list.
Proof.
  exists (Nat.min k (List.length l)).
  rewrite firstn_app.
  replace (Nat.min k (List.length l) - List.length l)%nat with O by lia.
  cbn [firstn]. rewrite app_nil_r.
  destruct (Nat.le_ge_cases k (List.length l)) as [Hle|Hge].
  - rewrite Nat.min_l by exact Hle. reflexivity.
  - rewrite Nat.min_r by exact Hge.
    rewrite firstn_all, firstn_all2 by exact Hge. reflexivity.
Qed.

(** X18.  [pullPackages] closes every reader it has opened, on every way
    out: the readers stay open while it works and are closed when it
    returns, the last opened first, each once, after the failure as
    after the success. *)
Theorem pullPackages_closes_readers (locators : list service.Locator)
        (localPackages remotePackages : service.PackageService)
        (h : list service.Call) :
  exists work,
    snd (service.pullPackages locators localPackages remotePackages h)
    = (h ++ service.Infof "Pulling packages" locators
         :: work ++ map service.Close (List.rev (service.opened work)))%list
    /\ service.closed work = []
    /\ (List.length (service.opened work) <= List.length locators)%nat.
Proof.
  unfold service.pullPackages, traced_bind, traced_ret.
  destruct (pullPackagesLoop_facts
              locators localPackages remotePackages []
              (h ++ [service.Infof "Pulling packages" locators])%list)
    as (work & Hcalls & Hclosed & Hdeferred & [k Hk] & _ & _).
  destruct (service.pullPackagesLoop locators localPackages remotePackages []
              (h ++ [service.Infof "Pulling packages" locators])%list)
    as [[err deferred] h'].
  cbn [fst snd] in *. subst h' deferred.
  rewrite runDeferred_closes, app_nil_r. cbn [snd].
  exists work. split; [rewrite <- !app_assoc; reflexivity|].
  split; [exact Hclosed|].
  assert (Hopened : forall calls,
             (List.length (service.opened calls)
              <= List.length (service.reads calls))%nat).
  { unfold service.opened, service.reads.
    induction calls as [|c calls IH]; [reflexivity|].
    cbn [flat_map]. rewrite !length_app.
    destruct c as [? ? [[? ?]|?]| | | | | |]; simpl; lia. }
  specialize (Hopened work). rewrite Hk, length_firstn in Hopened. lia.
Qed.


Lemma pullPackages_reads (locators : list service.Locator)
      (localPackages remotePackages : service.PackageService)
      (h : list service.Call) :
  exists calls,
    snd (service.pullPackages locators localPackages remotePackages h)
    = (h ++ calls)%list
    /\ (exists k, service.reads calls = firstn k locators)
    /\ (fst (service.pullPackages locators localPackages remotePackages h)
        = None ->
        service.reads calls = locators).
Proof.
  unfold service.pullPackages, traced_bind, traced_ret.
  destruct (pullPackagesLoop_facts
              locators localPackages remotePackages []
              (h ++ [service.Infof "Pulling packages" locators])%list)
    as (work & Hcalls & _ & _ & Hk & Hok & _).
  destruct (service.pullPackagesLoop locators localPackages remotePackages []
              (h ++ [service.Infof "Pulling packages" locators])%list)
    as [[err deferred] h'].
  cbn [fst snd] in *. subst h'.
  rewrite runDeferred_closes. cbn [fst snd].
  exists (service.Infof "Pulling packages" locators
            :: work ++ map service.Close deferred)%list.
  split; [rewrite <- !app_assoc; reflexivity|].
  assert (Hreads : service.reads
                     (service.Infof "Pulling packages" locators
                        :: work ++ map service.Close deferred)%list
                   = service.reads work).
  { unfold service.reads. cbn [flat_map app]. rewrite flat_map_app.
    fold (service.reads (map service.Close deferred)).
    rewrite reads_closes, app_nil_r. reflexivity. }
  rewrite Hreads. split; [exact Hk|].
  intros H. exact (proj1 (Hok H)).
Qed.

Lemma pullApplications_facts (locators : list service.Locator)
      (localApps remoteApps : service.applications) (h : list service.Call) :
  exists work,
    snd (service.pullApplications trace_IsAlreadyExists locators localApps
                                  remoteApps h)
    = (h ++ service.Infof "Pulling applications" locators
         :: work ++ map service.Close (List.rev (service.opened work)))%list
    /\ service.closed work = []
    /\ (exists k, service.reads work = firstn k locators)
    /\ (fst (service.pullApplications trace_IsAlreadyExists locators localApps
                                      remoteApps h) = None ->
        service.reads work = locators
        /\ forallb (fun c => implb (service.failed c)
                                   (service.skipped trace_IsAlreadyExists c))
                   work = true)
    /\ (forall e,
           fst (service.pullApplications trace_IsAlreadyExists locators
                                         localApps remoteApps h) = Some e ->
           exists done last,
             work = (done ++ [last])%list
             /\ service.failed last = true
             /\ service.skipped trace_IsAlreadyExists last = false
             /\ forallb (fun c => implb (service.failed c)
                                        (service.skipped trace_IsAlreadyExists c))
                        done = true).
Proof.
  unfold service.pullApplications, traced_bind, traced_ret.
  destruct (pullApplicationsLoop_facts
              locators localApps remoteApps []
              (h ++ [service.Infof "Pulling applications" locators])%list)
    as (work & Hcalls & Hclosed & Hdeferred & Hk & Hok & Hfail).
  destruct (service.pullApplicationsLoop trace_IsAlreadyExists locators
              localApps remoteApps []
              (h ++ [service.Infof "Pulling applications" locators])%list)
    as [[err deferred] h'].
  cbn [fst snd] in *. subst h' deferred.
  rewrite runDeferred_closes, app_nil_r. cbn [fst snd].
  exists work. split; [rewrite <- !app_assoc; reflexivity|].
  auto.
Qed.

(** X20.  [pullApplications] passes over an application that is already
    there: it succeeds exactly when every call that failed was the
    creation of an application that already exists, and then it has read
    every locator, in order; any other failure is its last call.  The
    readers are closed as in [pullPackages]. *)
Theorem pullApplications_skips_existing (locators : list service.Locator)
        (localApps remoteApps : service.applications) (h : list service.Call) :
  exists work,
    snd (service.pullApplications trace_IsAlreadyExists locators localApps
                                  remoteApps h)
    = (h ++ service.Infof "Pulling applications" locators
         :: work ++ map service.Close (List.rev (service.opened work)))%list
    /\ service.closed work = []
    /\ (fst (service.pullApplications trace_IsAlreadyExists locators localApps
                                      remoteApps h) = None
        <-> forallb (fun c => implb (service.failed c)
                                    (service.skipped trace_IsAlreadyExists c))
                    work = true)
    /\ (fst (service.pullApplications trace_IsAlreadyExists locators localApps
                                      remoteApps h) = None ->
        service.reads work = locators)
    /\ (forall e,
           fst (service.pullApplications trace_IsAlreadyExists locators
                                         localApps remoteApps h) = Some e ->
           exists done last,
             work = (done ++ [last])%list
             /\ service.failed last = true
             /\ service.skipped trace_IsAlreadyExists last = false).
Proof.
  destruct (pullApplications_facts locators localApps remoteApps h)
    as (work & Hcalls & Hclosed & _ & Hok & Hfail).
  exists work. split; [exact Hcalls|]. split; [exact Hclosed|].
  split.
  { split; [intros H; exact (proj2 (Hok H))|].
    intros Hall.
    destruct (fst (service.pullApplications trace_IsAlreadyExists locators
                                            localApps remoteApps h))
      as [e|]; [|reflexivity].
    destruct (Hfail e eq_refl) as (done & last & -> & Hlast & Hskip & _).
    rewrite forallb_app in Hall. cbn [forallb] in Hall.
    rewrite Hlast, Hskip in Hall. cbn [implb andb] in Hall.
    rewrite andb_false_r in Hall. discriminate. }
  split; [intros H; exact (proj1 (Hok H))|].
  intros e H. destruct (Hfail e H) as (done & last & Hw & Hlast & Hskip & _).
  exists done, last. auto.
Qed.

Section Dependencies.
Variable appservice_GetDependencies :
  list service.Call -> service.Locator
  -> list service.Locator * list service.Locator + error.

(** X21.  [pullDependencies] pulls in one order: the packages that the
    application depends on, then the applications it depends on, then
    the application itself, which is last.  What it has read when it
    stops is a start of that list, and the whole list when it
    succeeds. *)
Theorem pullDependencies_order (app : service.Application)
        (localApps remoteApps : service.applications) (h : list service.Call)
        (packages apps : list service.Locator) :
  appservice_GetDependencies h (service.app_Package app)
  = inl (packages, apps) ->
  exists calls,
    snd (service.pullDependencies trace_IsAlreadyExists
           appservice_GetDependencies app localApps remoteApps h)
    = (h ++ service.GetDependencies (service.app_Package app)
                                    (inl (packages, apps)) :: calls)%list
    /\ (exists k,
           service.reads calls
           = firstn k (packages ++ apps ++ [service.app_Package app])%list)
    /\ (fst (service.pullDependencies trace_IsAlreadyExists
               appservice_GetDependencies app localApps remoteApps h) = None ->
        service.reads calls
        = (packages ++ apps ++ [service.app_Package app])%list).
Proof.
  intros Hdeps. unfold service.pullDependencies, traced_bind, ask, traced_ret.
  rewrite Hdeps.
  destruct (pullPackages_reads
              packages (service.Packages localApps)
              (service.Packages remoteApps)
              (h ++ [service.GetDependencies (service.app_Package app)
                       (inl (packages, apps))])%list)
    as (calls1 & Hcalls1 & [k1 Hk1] & Hok1).
  destruct (service.pullPackages packages (service.Packages localApps)
              (service.Packages remoteApps)
              (h ++ [service.GetDependencies (service.app_Package app)
                       (inl (packages, apps))])%list)
    as [[e1|] h1]; cbn [fst snd] in *; subst h1.
  - exists calls1. split; [rewrite <- app_assoc; reflexivity|].
    split; [|intros H; destruct (trace_Wrap_Some _ H)].
    rewrite Hk1. apply firstn_prefix.
  - specialize (Hok1 eq_refl).
    destruct (pullApplications_facts
                (apps ++ [service.app_Package app])%list localApps remoteApps
                ((h ++ [service.GetDependencies (service.app_Package app)
                          (inl (packages, apps))]) ++ calls1)%list)
      as (work & Hcalls2 & _ & [k2 Hk2] & Hok2 & _).
    set (calls2 := (service.Infof "Pulling applications"
                      (apps ++ [service.app_Package app])
                      :: work
                      ++ map service.Close (List.rev (service.opened work)))%list)
      in *.
    assert (Hreads : service.reads (calls1 ++ calls2)
                     = (packages ++ service.reads work)%list).
    { unfold service.reads at 1. rewrite flat_map_app.
      fold (service.reads calls1). rewrite Hok1. f_equal.
      unfold calls2. cbn [flat_map Datatypes.app]. rewrite flat_map_app.
      fold (service.reads (map service.Close (List.rev (service.opened work)))).
      rewrite reads_closes, app_nil_r. reflexivity. }
    exists (calls1 ++ calls2)%list.
    destruct (service.pullApplications trace_IsAlreadyExists
                (apps ++ [service.app_Package app])%list localApps remoteApps
                ((h ++ [service.GetDependencies (service.app_Package app)
                          (inl (packages, apps))]) ++ calls1)%list)
      as [[e2|] h2]; cbn [fst snd] in *; subst h2.
    + split; [rewrite <- !app_assoc; reflexivity|].
      split; [|intros H; destruct (trace_Wrap_Some _ H)].
      exists (List.length packages + k2)%nat.
      rewrite Hreads, Hk2, firstn_app_2. reflexivity.
    + split; [rewrite <- !app_assoc; reflexivity|].
      rewrite Hreads.
      split; [|intros _; rewrite (proj1 (Hok2 eq_refl)); reflexivity].
      exists (List.length packages + k2)%nat.
      rewrite Hk2, firstn_app_2. reflexivity.
Qed.
End Dependencies.
End PullFacts.

(** * The registry sync *)

Section SyncFacts.
Variable env : sync.Env.
Variable pack_PackagePath : string -> service.Locator -> string.
Variable filepath_Join : string -> string -> string.

(** The calls of [SyncApp] are put together from the lookups of the
    applications and, for each application that gets that far, the work
    in its temporary directory: what holds of these parts, and of what
    is put together from such parts, holds of every run. *)
Section Invariant.
Variable P : list sync.Call -> Prop.
Hypothesis P_nil : P [].
Hypothesis P_app : forall a b, P a -> P b -> P (a ++ b)%list.
Hypothesis P_GetApp : forall package answer, P [sync.GetApp package answer].
Hypothesis P_no_dir : forall e, P [sync.TempDir (inr e)].
Hypothesis P_dir :
  forall package dir h work answer,
    snd (sync.syncUnpacked env pack_PackagePath filepath_Join package dir h)
    = (h ++ work)%list ->
    P (sync.TempDir (inl dir)
         :: work
         ++ sync.RemoveAll dir answer
         :: match answer with
            | Some _ => [sync.Warningf "failed to remove" dir]
            | None => []
            end)%list.

Lemma syncUnpacked_extends (package : service.Locator) (dir : string)
      (h : list sync.Call) :
  exists work,
    snd (sync.syncUnpacked env pack_PackagePath filepath_Join package dir h)
    = (h ++ work)%list.
Proof.
  unfold sync.syncUnpacked, traced_bind, ask, traced_ret.
  repeat match goal with
         | |- context [match ?x with _ => _ end] => destruct x
         | |- context [if ?x then _ else _] => destruct x
         | _ => progress cbn [fst snd negb]
         end;
    rewrite <- ?app_assoc; eexists; reflexivity.
Qed.

Lemma syncAll_invariant
      (syncOne : service.Locator -> Traced sync.Call (sync.Run (option error))) :
  (forall package h,
      exists calls, snd (syncOne package h) = (h ++ calls)%list /\ P calls) ->
  forall deps h,
    exists calls,
      snd (sync.syncAll syncOne deps h) = (h ++ calls)%list /\ P calls.
Proof.
  intros Hone deps. induction deps as [|dep rest IH]; intros h.
  - exists []. simpl. rewrite app_nil_r. auto.
  - cbn [sync.syncAll]. unfold traced_bind, traced_ret.
    destruct (Hone dep h) as (calls & Hcalls & HP).
    destruct (syncOne dep h) as [[|[e|]] h']; cbn [snd] in Hcalls; subst h';
      try (exists calls; auto; fail).
    destruct (IH (h ++ calls)%list) as (calls' & Hcalls' & HP').
    exists (calls ++ calls')%list. rewrite Hcalls', app_assoc. auto.
Qed.

Lemma SyncApp_invariant (depth : nat) (package : service.Locator)
      (h : list sync.Call) :
  exists calls,
    snd (sync.SyncApp env pack_PackagePath filepath_Join depth package h)
    = (h ++ calls)%list
    /\ P calls.
Proof.
  revert package h. induction depth as [|depth IH]; intros package h.
  - exists []. simpl. rewrite app_nil_r. auto.
  - cbn [sync.SyncApp]. unfold traced_bind at 1. unfold ask at 1.
    set (got := sync.GetApp package (sync.env_GetApp env h package)).
    destruct (sync.env_GetApp env h package) as [application|err].
    + assert (Hbase : exists calls,
                 snd (match sync.app_Base application with
                      | Some base =>
                          (r <~ sync.SyncApp env pack_PackagePath filepath_Join
                                             depth base ;;
                           match r with
                           | sync.Deeper => traced_ret sync.Deeper
                           | sync.Ended err =>
                               traced_ret (sync.Ended (trace_Wrap err))
                           end)%traced
                      | None => traced_ret (sync.Ended None)
                      end (h ++ [got])%list)
                 = ((h ++ [got]) ++ calls)%list
                 /\ P calls).
      { destruct (sync.app_Base application) as [base|].
        - unfold traced_bind, traced_ret.
          destruct (IH base (h ++ [got])%list) as (calls & Hcalls & HP).
          exists calls.
          destruct (sync.SyncApp env pack_PackagePath filepath_Join depth base
                                 (h ++ [got])%list) as [[|err] h'];
            cbn [snd] in *; auto.
        - exists []. unfold traced_ret. cbn [snd]. rewrite app_nil_r. auto. }
      destruct Hbase as (calls1 & Hcalls1 & HP1).
      unfold traced_bind at 1.
      match goal with
      | |- context [let '(a, h') := ?c in _] =>
          destruct c as [rb h1] eqn:Hrun
      end.
      cbn [snd] in Hcalls1. subst h1.
      assert (Hsofar : P ([got] ++ calls1)%list).
      { apply P_app; [apply P_GetApp|exact HP1]. }
      destruct rb as [|[e|]];
        try (exists ([got] ++ calls1)%list; unfold traced_ret; cbn [snd];
             rewrite app_assoc; auto; fail).
      unfold traced_bind at 1.
      destruct (syncAll_invariant
                  (sync.SyncApp env pack_PackagePath filepath_Join depth) IH
                  (sync.app_Dependencies application)
                  ((h ++ [got]) ++ calls1)%list) as (calls2 & Hcalls2 & HP2).
      destruct (sync.syncAll
                  (sync.SyncApp env pack_PackagePath filepath_Join depth)
                  (sync.app_Dependencies application)
                  ((h ++ [got]) ++ calls1)%list) as [rd h2].
      cbn [snd] in Hcalls2. subst h2.
      assert (Hsofar2 : P (([got] ++ calls1) ++ calls2)%list).
      { apply P_app; assumption. }
      destruct rd as [|[e|]];
        try (exists (([got] ++ calls1) ++ calls2)%list; unfold traced_ret;
             cbn [snd]; rewrite !app_assoc; auto; fail).
      unfold traced_bind at 1. unfold ask at 1.
      destruct (sync.env_TempDir env _) as [dir|err] eqn:Hdir.
      * unfold traced_bind at 1.
        match goal with
        | |- context [sync.syncUnpacked _ _ _ package dir ?h0] =>
            destruct (syncUnpacked_extends package dir h0) as (work & Hwork);
            pose proof (fun answer => P_dir package dir h0 work answer Hwork)
              as Hown;
            destruct (sync.syncUnpacked env pack_PackagePath filepath_Join
                                        package dir h0) as [result h3]
        end.
        cbn [snd] in Hwork. subst h3.
        unfold traced_bind, ask, traced_ret.
        match goal with
        | |- context [sync.env_RemoveAll env ?h0 dir] =>
            specialize (Hown (sync.env_RemoveAll env h0 dir));
            destruct (sync.env_RemoveAll env h0 dir) as [e|]
        end; cbn [snd];
          eexists; (split; [|apply P_app; [exact Hsofar2|exact Hown]]);
          rewrite <- !app_assoc; reflexivity.
      * unfold traced_ret. cbn [snd].
        exists ((([got] ++ calls1) ++ calls2) ++ [sync.TempDir (inr err)])%list.
        split; [rewrite <- !app_assoc; reflexivity|].
        apply P_app; [exact Hsofar2|apply P_no_dir].
    + exists [got]. unfold traced_ret. cbn [snd]. split; [reflexivity|].
      apply P_GetApp.
Qed.
End Invariant.

Lemma syncUnpacked_shape (package : service.Locator) (dir : string)
      (h work : list sync.Call) :
  snd (sync.syncUnpacked env pack_PackagePath filepath_Join package dir h)
  = (h ++ work)%list ->
  sync.tempEvents work = []
  /\ ((forall path answer, ~ In (sync.Sync path answer) work)
      \/ exists path answer,
          work = (sync.Unpack package (pack_PackagePath dir package) None
                  :: sync.syncGuard package path
                  ++ [sync.Sync path answer])%list).
Proof.
  unfold sync.syncUnpacked, traced_bind, ask, traced_ret.
  repeat first
         [ progress cbn [fst snd negb]
         | match goal with
           | |- context [sync.env_IsDirectory env ?a ?b] =>
               destruct (sync.env_IsDirectory env a b)
           | |- context [match ?x with _ => _ end] => destruct x
           end ];
    rewrite <- ?app_assoc; intros H; apply app_inv_head in H; subst work;
    (split; [reflexivity|]);
    try (left; intros path answer Hin; simpl in Hin;
         repeat (destruct Hin as [Hin|Hin]; try discriminate Hin);
         contradiction);
    right; do 2 eexists; reflexivity.
Qed.

Lemma tempEvents_app (a b : list sync.Call) :
  sync.tempEvents (a ++ b) = (sync.tempEvents a ++ sync.tempEvents b)%list.
Proof. apply flat_map_app. Qed.

(** X22.  [SyncApp] holds one temporary directory at a time and leaves
    none behind: each directory it creates is asked to be removed before
    the next one is created and before it returns, on every way out,
    whether the unpacking or the sync failed or not. *)
Theorem SyncApp_removes_its_directories (depth : nat)
        (package : service.Locator) (h : list sync.Call) :
  exists calls dirs,
    snd (sync.SyncApp env pack_PackagePath filepath_Join depth package h)
    = (h ++ calls)%list
    /\ sync.tempEvents calls
       = flat_map (fun dir => [(true, dir); (false, dir)]) dirs.
Proof.
  destruct (SyncApp_invariant
              (fun calls => exists dirs,
                   sync.tempEvents calls
                   = flat_map (fun dir => [(true, dir); (false, dir)]) dirs))
    with (depth := depth) (package := package) (h := h)
    as (calls & Hcalls & dirs & Hdirs).
  - exists []. reflexivity.
  - intros a b [da Ha] [db Hb]. exists (da ++ db)%list.
    rewrite tempEvents_app, flat_map_app, Ha, Hb. reflexivity.
  - intros p answer. exists []. reflexivity.
  - intros e. exists []. reflexivity.
  - intros p dir h0 work answer Hwork.
    apply syncUnpacked_shape in Hwork. destruct Hwork as [Hnone _].
    exists [dir].
    change (sync.TempDir (inl dir) :: ?l)%list
      with ([sync.TempDir (inl dir)] ++ l)%list.
    rewrite !tempEvents_app, Hnone.
    destruct answer; reflexivity.
  - exists calls, dirs. auto.
Qed.

(** X23.  [SyncApp] syncs a registry only after it has seen that the
    registry directory of the unpacked application is there and is not
    empty: every sync has these two checks and its announcement right
    in front of it, for the same path. *)
Theorem SyncApp_syncs_checked_registries (depth : nat)
        (package : service.Locator) (h : list sync.Call) :
  exists calls,
    snd (sync.SyncApp env pack_PackagePath filepath_Join depth package h)
    = (h ++ calls)%list
    /\ forall pre path answer post,
        calls = (pre ++ sync.Sync path answer :: post)%list ->
        exists pre' synced,
          pre = (pre' ++ sync.syncGuard synced path)%list.
Proof.
  apply (SyncApp_invariant
           (fun calls =>
              forall pre path answer post,
                calls = (pre ++ sync.Sync path answer :: post)%list ->
                exists pre' synced,
                  pre = (pre' ++ sync.syncGuard synced path)%list)).
  - intros pre path answer post H. destruct pre; discriminate.
  - intros a b Ha Hb pre path answer post H.
    apply app_eq_app in H. destruct H as (l & [[-> Hl]|[-> Hl]]).
    + destruct l as [|c l].
      * cbn [app] in Hl. symmetry in Hl.
        destruct (Hb [] path answer post Hl) as (pre' & synced & Hpre).
        destruct pre'; discriminate.
      * cbn [app] in Hl. injection Hl as <- _.
        exact (Ha pre path answer l eq_refl).
    + destruct (Hb l path answer post Hl) as (pre' & synced & ->).
      exists (a ++ pre')%list, synced. rewrite app_assoc. reflexivity.
  - intros p a pre path answer post H.
    destruct pre as [|c [|c' pre]]; discriminate.
  - intros e pre path answer post H.
    destruct pre as [|c [|c' pre]]; discriminate.
  - intros p dir h0 work answer0 Hwork pre path answer post H.
    apply syncUnpacked_shape in Hwork. destruct Hwork as [_ Hwork].
    assert (Hin : In (sync.Sync path answer)
                     (sync.TempDir (inl dir)
                        :: work
                        ++ sync.RemoveAll dir answer0
                        :: match answer0 with
                           | Some _ => [sync.Warningf "failed to remove" dir]
                           | None => []
                           end)%list).
    { rewrite H. apply in_elt. }
    destruct Hin as [Hin|Hin]; [discriminate|].
    apply in_app_or in Hin. destruct Hin as [Hin|Hin].
    + destruct Hwork as [Hnone|(path' & answer' & ->)].
      * destruct (Hnone path answer Hin).
      * unfold sync.syncGuard in *. cbn [app] in H.
        do 5 (destruct pre as [|? pre];
              [discriminate H|injection H as <- H]).
        destruct pre as [|? pre].
        -- injection H as <- _ _.
           exists [sync.TempDir (inl dir);
                   sync.Unpack p (pack_PackagePath dir p) None], p.
           reflexivity.
        -- injection H as _ H.
           destruct answer0;
             repeat (destruct pre as [|? pre];
                     [discriminate H|injection H as _ H]);
             destruct pre; discriminate H.
    + destruct answer0; simpl in Hin;
        repeat (destruct Hin as [Hin|Hin]; try discriminate Hin);
        contradiction.
Qed.

(** X24.  [SyncApp] does not notice a cycle: for an application that is
    its own base it looks the application up again and again and does
    nothing else, so that no depth of the recursion is enough for it to
    return. *)
Theorem SyncApp_own_base_never_returns (package : service.Locator)
        (application : sync.Application) :
  (forall h, sync.env_GetApp env h package = inl application) ->
  sync.app_Base application = Some package ->
  forall depth h,
    sync.SyncApp env pack_PackagePath filepath_Join depth package h
    = (sync.Deeper,
       (h ++ repeat (sync.GetApp package (inl application)) depth)%list).
Proof.
  intros Hget Hbase depth.
  induction depth as [|depth IH]; intros h.
  - simpl. rewrite app_nil_r. reflexivity.
  - cbn [sync.SyncApp repeat]. unfold traced_bind at 1. unfold ask at 1.
    rewrite Hget, Hbase. unfold traced_bind, traced_ret.
    rewrite IH, <- app_assoc. reflexivity.
Qed.

Lemma syncAll_ends
      (syncOne : service.Locator -> Traced sync.Call (sync.Run (option error)))
      (deps : list service.Locator) :
  (forall dep h, In dep deps -> exists result, fst (syncOne dep h) = sync.Ended result) ->
  forall h, exists result, fst (sync.syncAll syncOne deps h) = sync.Ended result.
Proof.
  induction deps as [|dep rest IH]; intros Hone h.
  - exists None. reflexivity.
  - cbn [sync.syncAll]. unfold traced_bind, traced_ret.
    destruct (Hone dep h (or_introl eq_refl)) as [result Hresult].
    destruct (syncOne dep h) as [r h']. cbn [fst] in Hresult. subst r.
    destruct result as [e|].
    + eexists. reflexivity.
    + apply IH. intros d h0 Hd. apply Hone. right. exact Hd.
Qed.

(** X25.  [SyncApp] returns when the applications do not depend on each
    other in a circle: with a rank that goes down from an application to
    its base and to its dependencies, a recursion as deep as the rank of
    the application is enough. *)
Theorem SyncApp_returns_on_ranked (rank : service.Locator -> nat) :
  (forall h p application,
      sync.env_GetApp env h p = inl application ->
      (forall base, sync.app_Base application = Some base ->
                    (rank base < rank p)%nat)
      /\ (forall dep, In dep (sync.app_Dependencies application) ->
                      (rank dep < rank p)%nat)) ->
  forall depth package h,
    (rank package < depth)%nat ->
    exists result,
      fst (sync.SyncApp env pack_PackagePath filepath_Join depth package h)
      = sync.Ended result.
Proof.
  intros Hrank depth.
  induction depth as [|depth IH]; intros package h Hlt; [lia|].
  cbn [sync.SyncApp]. unfold traced_bind at 1. unfold ask at 1.
  destruct (sync.env_GetApp env h package) as [application|err] eqn:Hget;
    [|eexists; reflexivity].
  destruct (Hrank h package application Hget) as [Hbase Hdeps].
  unfold traced_bind at 1.
  match goal with
  | |- context [let '(a, h') := ?c in _] =>
      assert (Hb : exists result, fst c = sync.Ended result);
      [|destruct c as [rb h1]]
  end.
  { destruct (sync.app_Base application) as [base|];
      [|eexists; reflexivity].
    unfold traced_bind, traced_ret.
    match goal with
    | |- context [sync.SyncApp _ _ _ depth base ?h0] =>
        destruct (IH base h0 ltac:(specialize (Hbase base eq_refl); lia))
          as [result Hresult];
        destruct (sync.SyncApp env pack_PackagePath filepath_Join depth base h0)
          as [r h']
    end.
    cbn [fst] in Hresult. subst r. eexists. reflexivity. }
  destruct Hb as [result Hb]. cbn [fst] in Hb. subst rb.
  destruct result as [e|]; [eexists; reflexivity|].
  unfold traced_bind at 1.
  destruct (syncAll_ends
              (sync.SyncApp env pack_PackagePath filepath_Join depth)
              (sync.app_Dependencies application)
              (fun dep h0 Hin =>
                 IH dep h0 ltac:(specialize (Hdeps dep Hin); lia))
              h1) as [result Hd].
  destruct (sync.syncAll _ _ h1) as [rd h2]. cbn [fst] in Hd. subst rd.
  destruct result as [e|]; [eexists; reflexivity|].
  unfold traced_bind at 1. unfold ask at 1.
  destruct (sync.env_TempDir env h2) as [dir|err]; [|eexists; reflexivity].
  unfold traced_bind, traced_ret.
  destruct (sync.syncUnpacked env pack_PackagePath filepath_Join package dir _)
    as [result h3].
  destruct (ask _ _ h3) as [[e|] h4]; eexists; reflexivity.
Qed.
End SyncFacts.

Lemma pullDependencies_order_witness :
  exists calls,
    snd (service.pullDependencies (fun _ => false) exGetDependencies
           {| service.app_Package := exLocator "site" |}
           (exApps "local") (exApps "remote") [])
    = ([] ++ service.GetDependencies
               (service.app_Package {| service.app_Package := exLocator "site" |})
               (inl ([exLocator "planet"], [exLocator "dns-app"]))
          :: calls)%list
    /\ (exists k,
           service.reads calls
           = firstn k ([exLocator "planet"] ++ [exLocator "dns-app"]
                       ++ [service.app_Package
                             {| service.app_Package := exLocator "site" |}])%list)
    /\ (fst (service.pullDependencies (fun _ => false) exGetDependencies
               {| service.app_Package := exLocator "site" |}
               (exApps "local") (exApps "remote") []) = None ->
        service.reads calls
        = ([exLocator "planet"] ++ [exLocator "dns-app"]
           ++ [service.app_Package
                 {| service.app_Package := exLocator "site" |}])%list).
Proof.
  apply (pullDependencies_order (fun _ => false) exGetDependencies
           {| service.app_Package := exLocator "site" |}
           (exApps "local") (exApps "remote") []
           [exLocator "planet"] [exLocator "dns-app"]).
  reflexivity.
Defined.

Lemma SyncApp_own_base_never_returns_witness :
  sync.SyncApp exCycleEnv exPackagePath exJoin 3 (exLocator "site") []
  = (sync.Deeper,
     ([] ++ repeat (sync.GetApp (exLocator "site")
                      (inl {| sync.app_Base := Some (exLocator "site");
                              sync.app_Dependencies := [] |}))
                   3)%list).
Proof.
  apply (SyncApp_own_base_never_returns exCycleEnv exPackagePath exJoin
           (exLocator "site")
           {| sync.app_Base := Some (exLocator "site");
              sync.app_Dependencies := [] |}).
  - intros h. reflexivity.
  - reflexivity.
Defined.

Lemma SyncApp_returns_on_ranked_witness :
  exists result,
    fst (sync.SyncApp exSyncEnv exPackagePath exJoin 2 (exLocator "site") [])
    = sync.Ended result.
Proof.
  apply (SyncApp_returns_on_ranked exSyncEnv exPackagePath exJoin exRank).
  - intros h p application Hget. simpl in Hget. injection Hget as <-.
    unfold exApplication, exRank.
    destruct (String.eqb (service.loc_Name p) "site"); simpl.
    + split.
      * intros base Hbase. injection Hbase as <-. simpl. lia.
      * intros dep [<-|[]]. simpl. lia.
    + split; [discriminate|]. intros dep [].
  - vm_compute. apply le_n.
Defined.

(** * Mount units *)

Section MountFacts.
Variable DeviceName_Path : string -> string.

(** X26.  [Mount] installs the unit whatever stopping the service said:
    a failure to stop is logged and the installation is still asked for,
    and the result of [Mount] is the result of the installation alone.
    The unit has the device path, the mount point and the file system of
    the configuration; its mount options never reach the unit. *)
Theorem Mount_installs_whatever_stop_says
        (config : system.MountConfig) (service : string)
        (services : system.ServiceManager) (h : list system.Call) :
  exists stop install,
    snd (system.Mount DeviceName_Path config service services h)
    = (h ++ system.StopService service stop
         :: match stop with
            | Some e => [system.Warnf service e]
            | None => []
            end
         ++ [system.InstallMountService
               {| system.ServiceSpec :=
                    {| system.spec_Where := system.Where config;
                       system.spec_What := DeviceName_Path (system.What config);
                       system.spec_Type := system.Filesystem config |};
                  system.req_Name := service |}
               install])%list
    /\ (fst (system.Mount DeviceName_Path config service services h) = None
        <-> install = None)
    /\ forall options,
        system.Mount DeviceName_Path
                     {| system.What := system.What config;
                        system.Where := system.Where config;
                        system.Filesystem := system.Filesystem config;
                        system.Options := options |}
                     service services h
        = system.Mount DeviceName_Path config service services h.
Proof.
  unfold system.Mount, traced_bind, ask, traced_ret.
  destruct (system.sm_StopService services h service) as [e|];
    match goal with
    | |- context [system.sm_InstallMountService services ?h0 ?req] =>
        destruct (system.sm_InstallMountService services h0 req) as [e'|] eqn:Hi
    end;
    [ exists (Some e), (Some e') | exists (Some e), None
    | exists None, (Some e') | exists None, None ];
    cbn [fst snd system.What system.Where system.Filesystem];
    rewrite ?Hi; cbn [fst snd];
    (split; [rewrite <- !app_assoc; reflexivity|]);
    (split; [|reflexivity]);
    try (split; reflexivity);
    (split; [intros H; destruct (trace_Wrap_Some _ H)|discriminate]).
Qed.

(** X27.  [Unmount] asks for the status of the unit first and uninstalls
    only a unit whose status it could read: it succeeds exactly when the
    status was read and the unit uninstalled, and where the status
    cannot be read the unit is left installed. *)
Theorem Unmount_uninstalls_after_status
        (service : string) (services : system.ServiceManager)
        (h : list system.Call) :
  exists calls,
    snd (system.Unmount service services h) = (h ++ calls)%list
    /\ (fst (system.Unmount service services h) = None
        <-> exists status,
            calls = [ system.StatusService service (inl status);
                      system.Debugf status;
                      system.UninstallService service None ])
    /\ (forall e,
           fst (system.Unmount service services h) = Some e ->
           exists e', e = TraceErr e')
    /\ (forall answer,
           In (system.UninstallService service answer) calls ->
           exists status,
             calls = [ system.StatusService service (inl status);
                       system.Debugf status;
                       system.UninstallService service answer ]).
Proof.
  unfold system.Unmount, traced_bind, ask, traced_ret.
  destruct (system.sm_StatusService services h service) as [status|e].
  - match goal with
    | |- context [system.sm_UninstallService services ?h0 service] =>
        destruct (system.sm_UninstallService services h0 service) as [e'|]
    end; eexists; cbn [fst snd];
      (split; [rewrite <- !app_assoc; reflexivity|]).
    + split.
      { split; [intros H; destruct (trace_Wrap_Some _ H)|].
        intros [s Hs]. discriminate Hs. }
      split.
      { intros e H. destruct e'; inversion H; eexists; reflexivity. }
      intros answer Hin. simpl in Hin.
      destruct Hin as [Hin|[Hin|[Hin|[]]]]; try discriminate Hin.
      injection Hin as <-. exists status. reflexivity.
    + split.
      { split; [intros _; exists status; reflexivity|reflexivity]. }
      split; [discriminate|].
      intros answer Hin. simpl in Hin.
      destruct Hin as [Hin|[Hin|[Hin|[]]]]; try discriminate Hin.
      injection Hin as <-. exists status. reflexivity.
  - eexists. cbn [fst snd]. split; [reflexivity|].
    split.
    { split; [intros H; destruct (trace_Wrap_Some _ H)|].
      intros [s Hs]. discriminate Hs. }
    split.
    { intros e0 H. destruct e; inversion H; eexists; reflexivity. }
    intros answer Hin. simpl in Hin.
    destruct Hin as [Hin|[]]. discriminate Hin.
Qed.
End MountFacts.
